(** * Usability scanner: the rule-evaluation and evidence-capture pipeline

    A shallow embedding of [run_scan] of [UsebilityTesting/app.py]: the colour
    helpers ([parse_rgb], [relative_luminance], [contrast_ratio]), the evidence
    capturer ([capture_rule_screenshot]), the thirteen rule blocks of the page
    loop and the two cross-page checks.

    Modelling conventions.
    - Python [str] values are [string]s whose characters are code points
      below 256; the few characters beyond them in the message texts of the
      source stand as their UTF-8 bytes.
    - Python [float] is binary64: Rocq's primitive [float].
    - The browser, the network and the file system are an oracle ([World])
      read at a clock that advances with every interaction, so two calls of
      the same script may answer differently.
    - Exceptions carry their text ([str(e)]); the mutable scan state
      ([issues], [page_screenshots], [title_map], [nav_signatures]) is threaded
      explicitly and survives an exception, as the Python lists and dicts do. *)

From Stdlib Require Import ZArith Lia List Bool Ascii String DecimalString Floats.
Import ListNotations.

Set Warnings "-inexact-float".

Local Open Scope string_scope.
Local Open Scope list_scope.
Local Open Scope Z_scope.

Infix "+++" := String.append (right associativity, at level 60).

(** ** Python strings *)

Module PyStr.

Definition code (c : ascii) : nat := nat_of_ascii c.

(** [\d] on code points below 256: only the ASCII digits are decimal digits. *)
Definition is_digit (c : ascii) : bool :=
  (48 <=? code c)%nat && (code c <=? 57)%nat.

(** [\s] and [str.isspace] on code points below 256. *)
Definition is_space (c : ascii) : bool :=
  existsb (Nat.eqb (code c)) [9; 10; 11; 12; 13; 28; 29; 30; 31; 32; 133; 160]%nat.

Fixpoint str_all (p : ascii -> bool) (s : string) : bool :=
  match s with
  | EmptyString => true
  | String c s' => p c && str_all p s'
  end.

(** Longest prefix whose characters satisfy [p], and the rest. *)
Fixpoint span (p : ascii -> bool) (s : string) : string * string :=
  match s with
  | EmptyString => (EmptyString, EmptyString)
  | String c s' =>
      if p c then let (a, b) := span p s' in (String c a, b)
      else (EmptyString, s)
  end.

(** Match a literal at the start of [s]; the result is what follows it. *)
Fixpoint lit (pat s : string) : option string :=
  match pat with
  | EmptyString => Some s
  | String c pat' =>
      match s with
      | String d s' => if Ascii.eqb c d then lit pat' s' else None
      | EmptyString => None
      end
  end.

Fixpoint lstrip (s : string) : string :=
  match s with
  | String c s' => if is_space c then lstrip s' else s
  | EmptyString => EmptyString
  end.

Fixpoint rstrip (s : string) : string :=
  match s with
  | EmptyString => EmptyString
  | String c s' =>
      match rstrip s' with
      | EmptyString => if is_space c then EmptyString else String c EmptyString
      | t => String c t
      end
  end.

(** [s.strip()] *)
Definition strip (s : string) : string := rstrip (lstrip s).

Definition lower_char (c : ascii) : ascii :=
  let n := code c in
  if ((65 <=? n) && (n <=? 90) || (192 <=? n) && (n <=? 222) && negb (n =? 215))%nat
  then ascii_of_nat (n + 32) else c.

(** [s.lower()] *)
Fixpoint lower (s : string) : string :=
  match s with
  | EmptyString => EmptyString
  | String c s' => String (lower_char c) (lower s')
  end.

(** [sep.join(l)] *)
Fixpoint join (sep : string) (l : list string) : string :=
  match l with
  | [] => ""
  | [x] => x
  | x :: l' => x +++ sep +++ join sep l'
  end.

(** [os.path.basename(p)]: what follows the last slash. *)
Fixpoint basename (p : string) : string :=
  match p with
  | EmptyString => EmptyString
  | String c p' =>
      if existsb (Ascii.eqb "/") (list_ascii_of_string p') then basename p'
      else if Ascii.eqb c "/" then p' else p
  end.

(** [int(x)] of a string of ASCII digits, most significant first. *)
Fixpoint int_digits (acc : Z) (s : string) : Z :=
  match s with
  | EmptyString => acc
  | String c s' => int_digits (10 * acc + Z.of_nat (code c - 48)) s'
  end.

Definition int (s : string) : Z := int_digits 0 s.

(** [str(n)] of an integer. *)
Definition str_of_Z (n : Z) : string :=
  NilZero.string_of_int (Z.to_int n).

(** Truth value of a string: non-empty. *)
Definition truthy (s : string) : bool :=
  match s with EmptyString => false | _ => true end.

(** [x in l] for a list of strings. *)
Definition mem (x : string) (l : list string) : bool := existsb (String.eqb x) l.

(** [s.startswith(p)] *)
Definition startswith (p s : string) : bool :=
  match lit p s with Some _ => true | None => false end.

(** [c in s] for a character [c]. *)
Definition contains (c : ascii) (s : string) : bool :=
  existsb (Ascii.eqb c) (list_ascii_of_string s).

(** [s.rsplit(c, 1)]: [s] cut at its last [c], or [s] alone when it has
    none. *)
Fixpoint rsplit1 (c : ascii) (s : string) : list string :=
  match s with
  | EmptyString => [EmptyString]
  | String d s' =>
      match rsplit1 c s' with
      | [a; b] => [String d a; b]
      | _ => if Ascii.eqb d c then [EmptyString; s'] else [s]
      end
  end.

End PyStr.

(** ** Colour parsing: [parse_rgb] *)

Definition rgb : Type := Z * Z * Z.

Definition black : rgb := (0, 0, 0).
Definition white : rgb := (255, 255, 255).

(** [re.match(r"rgba?\((\d+)\s*,\s*(\d+)\s*,\s*(\d+)", s)]: the three groups.
    Every repetition is followed by a pattern that none of its characters can
    start (a digit is neither a space nor a comma, a space is not a comma, [a]
    is not a parenthesis), so the greedy choice is the only one that can
    succeed and no backtracking is needed. *)
Definition re_match_rgb (s : string) : option (string * string * string) :=
  match PyStr.lit "rgb" s with
  | None => None
  | Some s1 =>
      let s2 := match PyStr.lit "a" s1 with Some t => t | None => s1 end in
      match PyStr.lit "(" s2 with
      | None => None
      | Some s3 =>
          let (d1, s4) := PyStr.span PyStr.is_digit s3 in
          if negb (PyStr.truthy d1) then None else
          match PyStr.lit "," (snd (PyStr.span PyStr.is_space s4)) with
          | None => None
          | Some s5 =>
              let (d2, s6) := PyStr.span PyStr.is_digit (snd (PyStr.span PyStr.is_space s5)) in
              if negb (PyStr.truthy d2) then None else
              match PyStr.lit "," (snd (PyStr.span PyStr.is_space s6)) with
              | None => None
              | Some s7 =>
                  let (d3, _) := PyStr.span PyStr.is_digit (snd (PyStr.span PyStr.is_space s7)) in
                  if negb (PyStr.truthy d3) then None else Some (d1, d2, d3)
              end
          end
      end
  end.

(** [parse_rgb(s)]; [None] is Python's [None]. *)
Definition parse_rgb (s : option string) : rgb :=
  match s with
  | None => (0, 0, 0)
  | Some str =>
      if negb (PyStr.truthy str) then (0, 0, 0)
      else match re_match_rgb str with
           | Some (r, g, b) => (PyStr.int r, PyStr.int g, PyStr.int b)
           | None => (0, 0, 0)
           end
  end.

(** What the specification calls a colour "parseable as rgb(...)/rgba(...)":
    the text starts with [rgb] or [rgba], an opening parenthesis and three
    runs of digits separated by commas, with optional white space around the
    commas. *)
Definition digits1 (d : string) : Prop :=
  d <> "" /\ PyStr.str_all PyStr.is_digit d = true.

Definition blanks (w : string) : Prop :=
  PyStr.str_all PyStr.is_space w = true.

(** A text that neither starts nor ends with white space. *)
Definition trimmed (core : string) : Prop :=
  (forall c rest, core = String c rest -> PyStr.is_space c = false)
  /\ (forall init c, core = init +++ String c "" -> PyStr.is_space c = false).

Definition rgb_syntax (s : string) : Prop :=
  exists a d1 w1 w2 d2 w3 w4 d3 rest,
    s = "rgb" +++ a +++ "(" +++ d1 +++ w1 +++ "," +++ w2 +++ d2
              +++ w3 +++ "," +++ w4 +++ d3 +++ rest
    /\ (a = "" \/ a = "a")
    /\ digits1 d1 /\ digits1 d2 /\ digits1 d3
    /\ blanks w1 /\ blanks w2 /\ blanks w3 /\ blanks w4.

(** ** Exceptions *)

(** The outcome of an expression: a value, or a raised exception with its
    text ([str(e)]). *)
Inductive res (A : Type) : Type :=
  | Val (a : A)
  | Raise (msg : string).

Arguments Val {A} a.
Arguments Raise {A} msg.

Definition res_bind {A B} (r : res A) (f : A -> res B) : res B :=
  match r with
  | Val a => f a
  | Raise e => Raise e
  end.

Notation "'let?' x ':=' r 'in' k" := (res_bind r (fun x => k))
  (at level 10, x name, r at level 100, k at level 200).

(** ** Python floats *)

Module PyFloat.

Local Open Scope float_scope.

(** [float(n)] of an int: the nearest binary64, [OverflowError] beyond. *)
Definition of_int (n : Z) : res float :=
  let f := SF2Prim (binary_normalize prec emax n 0%Z false) in
  if is_infinity f then Raise "int too large to convert to float" else Val f.

(** [a / b] *)
Definition div (a b : float) : res float :=
  if b =? 0 then Raise "float division by zero" else Val (a / b).

(** [max(a, b)] and [min(a, b)]: the first argument stays unless the second
    is strictly beyond it. *)
Definition max (a b : float) : float := if a <? b then b else a.
Definition min (a b : float) : float := if b <? a then b else a.

(** Truth value of a float: different from zero. *)
Definition truthy (x : float) : bool := negb (x =? 0).

(** [float(s)] for a text made of ASCII digits and dots, which is all that
    [re.sub(r'[^0-9.]+', '', _)] leaves: digits with at most one dot and at
    least one digit, rounded to the nearest binary64; [ValueError] otherwise. *)
Definition of_decimal (s : string) : res float :=
  let bad := Raise ("could not convert string to float: '" +++ s +++ "'") in
  let (ip, r) := PyStr.span PyStr.is_digit s in
  let fp := match r with String "." t => t | _ => r end in
  if negb (PyStr.str_all PyStr.is_digit fp) then bad
  else if negb (PyStr.truthy (ip +++ fp)) then bad
  else
    match PyStr.int (ip +++ fp) with
    | Zpos m =>
        Val (SF2Prim (SFdiv prec emax (S754_finite false m 0%Z)
                        (S754_finite false (Z.to_pos (10 ^ Z.of_nat (String.length fp))) 0%Z)))
    | _ => Val 0
    end.

End PyFloat.

(** ** Data model *)

(** One row of [issues]:
    [[rule_name, page_url, description, severity, evidence_ref]]. *)
Record Finding : Type := mkFinding {
  rule_name : string;
  page_url : string;
  description : string;
  severity : string;
  evidence_ref : option string
}.

(** A rectangle in document coordinates, as the in-page scripts return it. *)
Record Rect : Type := mkRect {
  r_left : float;
  r_top : float;
  r_width : float;
  r_height : float;
  r_label : option string
}.

(** One entry of [style_results]; [None] is a missing key or a null value. *)
Record StyleItem : Type := mkStyleItem {
  st_text : option string;
  st_color : option string;
  st_bg : option string;
  st_fontSize : option string;
  st_lineHeight : option string;
  st_left : float;
  st_top : float;
  st_width : float;
  st_height : float
}.

Record Img : Type := mkImg {
  img_alt : option string;
  img_src : option string
}.

Record Anchor : Type := mkAnchor {
  a_href : option string;
  a_text : string
}.

(** A form control: its tag, its [id] and [name] attributes, whether the
    document has a [<label for=id>] and whether it sits inside a [<label>]. *)
Record Input : Type := mkInput {
  inp_tag : string;
  inp_id : option string;
  inp_name : option string;
  inp_label_for : bool;
  inp_in_label : bool
}.

(** What the rules read from [soup], the parsed markup of one page. *)
Record Soup : Type := mkSoup {
  soup_title : option (option string);
  soup_headings : list Z;
  soup_imgs : list Img;
  soup_viewport_meta : bool;
  soup_anchors : list Anchor;
  soup_forms : list (list Input);
  soup_nav_links : list string;
  soup_role_alert : bool;
  soup_aria_live : bool
}.

(** The in-page scripts that locate an offending element. *)
Inductive Script : Type :=
  | JsMultipleH1
  | JsHeadingSkip
  | JsBadImg
  | JsBadAnchor
  | JsLinkText (text : string)
  | JsAnchorByHref (href : string)
  | JsBlocked
  | JsElemRect (el : string)
  | JsRectById (id : string)
  | JsImgBySrc (src : string).

(** [kb]: the counts the keyboard script returns. *)
Record Kb : Type := mkKb {
  kb_tabbables : Z;
  kb_blocked : Z
}.

(** The browser session, the network and the screenshot directory, asked at
    a clock value. [Raise] is an exception of the call. The page source and
    the computed styles are those of the page the browser is on, which the
    scan knows as [link]. [w_http] is what the network gives for a request:
    the status and reason phrase of the answer at the end of the
    redirections, or the failure of the request (an unknown host, a refused
    connection, a timeout, a URL that cannot be opened). *)
Record World : Type := mkWorld {
  w_start : nat -> res unit;
  w_set_window_size : nat -> res unit;
  w_get : nat -> string -> res unit;
  w_source : nat -> string -> res Soup;
  w_styles : nat -> string -> res (list StyleItem);
  w_rect : nat -> Script -> res (option Rect);
  w_rects : nat -> Script -> res (list Rect);
  w_mq_count : nat -> res (option Z);
  w_kb : nat -> res (option Kb);
  w_perf : nat -> res (option float);
  w_find : nat -> string -> res string;
  w_overlay : nat -> list Rect -> res unit;
  w_cleanup : nat -> res unit;
  w_save : nat -> string -> res bool;
  w_uuid : nat -> string;
  w_http : nat -> string -> res (Z * string);
  w_quit : nat -> res unit
}.

(** [str(HTTPError)] *)
Definition http_error (status : Z) (reason : string) : string :=
  "HTTP Error " +++ PyStr.str_of_Z status +++ ": " +++ reason.

(** [urlopen(req, timeout=5)] followed by [getattr(resp, 'status', 200)],
    with the stock opener of [urllib.request], which is the one the program
    uses: an answer whose status is not within 200..299 is not returned, it
    is raised as [HTTPError]. *)
Definition urlopen (w : World) (t : nat) (url : string) : res Z :=
  match w_http w t url with
  | Val (status, reason) =>
      if (200 <=? status)%Z && (status <? 300)%Z then Val status
      else Raise (http_error status reason)
  | Raise e => Raise e
  end.

(** A Python [dict] with string keys: insertion-ordered, one entry per key. *)
Definition dict : Type := list (string * string).

Fixpoint dict_set (k v : string) (d : dict) : dict :=
  match d with
  | [] => [(k, v)]
  | (k', v') :: d' =>
      if String.eqb k k' then (k', v) :: d' else (k', v') :: dict_set k v d'
  end.

Definition dict_values (d : dict) : list string := map snd d.

(** The mutable state of one scan; [files] are the screenshots written so
    far and [clock] counts the interactions with the world. *)
Record State : Type := mkState {
  issues : list Finding;
  page_screenshots : list (string * string);
  title_map : dict;
  nav_signatures : dict;
  files : list string;
  clock : nat
}.

Definition init_state : State := mkState [] [] [] [] [] 0.

(** ** The scan monad: state that survives exceptions *)

Definition M (A : Type) : Type := State -> res A * State.

Definition ret {A} (a : A) : M A := fun s => (Val a, s).

Definition raise {A} (e : string) : M A := fun s => (Raise e, s).

Definition bind {A B} (m : M A) (f : A -> M B) : M B :=
  fun s =>
    match m s with
    | (Val a, s') => f a s'
    | (Raise e, s') => (Raise e, s')
    end.

(** [try: m except Exception as e: h e] *)
Definition try_except {A} (m : M A) (h : string -> M A) : M A :=
  fun s =>
    match m s with
    | (Val a, s') => (Val a, s')
    | (Raise e, s') => h e s'
    end.

Notation "x <- m ;; k" := (bind m (fun x => k))
  (at level 61, m at next level, right associativity).
Notation "m ;;; k" := (bind m (fun _ => k))
  (at level 61, right associativity).

Definition lift {A} (r : res A) : M A := fun s => (r, s).

Definition tick (s : State) : State :=
  mkState (issues s) (page_screenshots s) (title_map s) (nav_signatures s)
          (files s) (S (clock s)).

(** One call into the world. *)
Definition ask {A} (q : nat -> res A) : M A :=
  fun s => (q (clock s), tick s).

(** [issues.append(f)] *)
Definition append_issue (f : Finding) : M unit :=
  fun s => (Val tt, mkState (issues s ++ [f]) (page_screenshots s) (title_map s)
                            (nav_signatures s) (files s) (clock s)).

(** [page_screenshots.append(p)] *)
Definition append_page_shot (p : string * string) : M unit :=
  fun s => (Val tt, mkState (issues s) (page_screenshots s ++ [p]) (title_map s)
                            (nav_signatures s) (files s) (clock s)).

(** [title_map[k] = v] *)
Definition set_title (k v : string) : M unit :=
  fun s => (Val tt, mkState (issues s) (page_screenshots s) (dict_set k v (title_map s))
                            (nav_signatures s) (files s) (clock s)).

(** [nav_signatures[k] = v] *)
Definition set_nav (k v : string) : M unit :=
  fun s => (Val tt, mkState (issues s) (page_screenshots s) (title_map s)
                            (dict_set k v (nav_signatures s)) (files s) (clock s)).

Definition add_file (p : string) (s : State) : State :=
  mkState (issues s) (page_screenshots s) (title_map s) (nav_signatures s)
          (files s ++ [p]) (clock s).

(** How a loop body ends: fall through to the next element, or [break]. *)
Inductive flow : Type := Next | Break.

(** [for x in l: body x] *)
Fixpoint for_each {A} (l : list A) (body : A -> M flow) : M unit :=
  match l with
  | [] => ret tt
  | x :: l' =>
      f <- body x ;;
      match f with
      | Break => ret tt
      | Next => for_each l' body
      end
  end.

(** [if c: m] *)
Definition when (c : bool) (m : M unit) : M unit := if c then m else ret tt.

Definition get_state : M State := fun s => (Val s, s).

Definition opt_list {A} (o : option A) : list A :=
  match o with Some a => [a] | None => [] end.

(** Truth value of an optional string: neither [None] nor empty. *)
Definition opt_truthy (o : option string) : bool :=
  match o with Some s => PyStr.truthy s | None => false end.

(** [str(x)] of an optional string. *)
Definition opt_str (o : option string) : string :=
  match o with Some s => s | None => "None" end.

(** [os.path.join(d, f)] *)
Definition path_join (d f : string) : string :=
  if PyStr.truthy (fst (PyStr.span (Ascii.eqb "/") f)) then f
  else if negb (PyStr.truthy d) then f
  else if PyStr.truthy (fst (PyStr.span (Ascii.eqb "/") (string_of_list_ascii (rev (list_ascii_of_string d)))))
       then d +++ f
       else d +++ "/" +++ f.

(** [re.sub(r'[^0-9.]+', '', s)] *)
Fixpoint keep_numeric (s : string) : string :=
  match s with
  | EmptyString => EmptyString
  | String c s' =>
      if PyStr.is_digit c || Ascii.eqb c "." then String c (keep_numeric s')
      else keep_numeric s'
  end.

(** [max(l, key=key)]: the first element of [l] whose key is the largest. *)
Definition max_key (key : string -> nat) (l : list string) : res string :=
  match l with
  | [] => Raise "max() arg is an empty sequence"
  | x :: l' =>
      Val (fold_left (fun best y => if (key best <? key y)%nat then y else best) l' x)
  end.

(** [l.count(x)] *)
Definition count (x : string) (l : list string) : nat :=
  List.length (filter (String.eqb x) l).

Definition generic_alts : list string := ["image"; "photo"; "picture"].

Definition generic_link_texts : list string :=
  ["click here"; "here"; "read more"; "learn more"; "more"].

Definition noop_hrefs : list string := ["#"; ""; "javascript:void(0)"].

Definition banner (label_text : string) : Rect :=
  mkRect 10 10 300 30 (Some label_text).

Definition set_label (l : string) (r : Rect) : Rect :=
  mkRect (r_left r) (r_top r) (r_width r) (r_height r) (Some l).

Definition item_rect (item : StyleItem) (l : string) : Rect :=
  mkRect (st_left item) (st_top item) (st_width item) (st_height item) (Some l).

(** ** The upload filter and the URL form *)

Definition ALLOWED_EXTENSIONS : list string := ["html"; "htm"].

(** [l[1]] *)
Definition index1 {A} (l : list A) : res A :=
  match l with
  | _ :: x :: _ => Val x
  | _ => Raise "list index out of range"
  end.

(** [allowed_file(filename)] *)
Definition allowed_file (filename : string) : res bool :=
  if PyStr.contains "." filename then
    let? ext := index1 (PyStr.rsplit1 "." filename) in
    Val (PyStr.mem (PyStr.lower ext) ALLOWED_EXTENSIONS)
  else Val false.

(** The scheme [url_test] puts before a URL that has none. *)
Definition with_scheme (url : string) : string :=
  if negb (PyStr.startswith "http://" url) && negb (PyStr.startswith "https://" url)
  then "https://" +++ url
  else url.

(** The loop of [url_test] that fills [processed_urls]. *)
Definition process_urls (urls : list string) : list string :=
  fold_left
    (fun processed_urls url =>
       let url := PyStr.strip url in
       if PyStr.truthy url then processed_urls ++ [with_scheme url]
       else processed_urls)
    urls [].

(** What the POST branch of [url_test] makes of the submitted URLs: a
    message flashed before the redirect to the form, or the list handed to
    [run_scan]. *)
Inductive submission : Type :=
  | Flashed (message : string)
  | Accepted (processed_urls : list string).

Definition url_test_urls (urls : list string) : submission :=
  if match urls with [] => true | _ => false end || negb (existsb PyStr.truthy urls)
  then Flashed "Please enter at least one URL"
  else
    match process_urls urls with
    | [] => Flashed "Please enter at least one valid URL"
    | processed_urls => Accepted processed_urls
    end.

(** ** The PDF report: [generate_pdf_report] *)

(** What the report is made of: the flowables of the document, and the
    cells of the issue table, which hold plain text (the header row) or a
    flowable. *)
Inductive Flowable : Type :=
  | Paragraph (text style : string)
  | Spacer (width height : Z)
  | Image (path : string) (width height : Z)
  | Table (data : list (list Cell)) (colWidths : list float)
          (style : list (string * (Z * Z) * (Z * Z) * list string))
with Cell : Type :=
  | CellText (text : string)
  | CellFlowable (f : Flowable).

(** The library and the file system behind the report: the text for which
    [Paragraph(text, style)] raises, with the exception; whether a path
    exists and whether [Image(path, ...)] raises, asked at the turn [t] of
    the loops; what [doc.build] does; the width of the document frame. *)
Record Lib : Type := mkLib {
  lib_markup : string -> option string;
  lib_exists : nat -> string -> bool;
  lib_image : nat -> string -> option string;
  lib_build : string -> list Flowable -> res unit;
  lib_doc_width : float
}.

(** The [TableStyle] of the issue table. *)
Definition table_style : list (string * (Z * Z) * (Z * Z) * list string) :=
  [ ("BACKGROUND", (0, 0), (-1, 0), ["grey"]);
    ("TEXTCOLOR", (0, 0), (-1, 0), ["whitesmoke"]);
    ("ALIGN", (0, 0), (-1, -1), ["LEFT"]);
    ("VALIGN", (0, 0), (-1, -1), ["TOP"]);
    ("FONTNAME", (0, 0), (-1, 0), ["Helvetica-Bold"]);
    ("BOTTOMPADDING", (0, 0), (-1, -1), ["12"]);
    ("TOPPADDING", (0, 0), (-1, -1), ["12"]);
    ("LEFTPADDING", (0, 0), (-1, -1), ["8"]);
    ("RIGHTPADDING", (0, 0), (-1, -1), ["8"]);
    ("GRID", (0, 0), (-1, -1), ["1"; "black"]) ].

Definition table_header : list Cell :=
  [CellText "Issue"; CellText "Page"; CellText "Description"; CellText "Severity";
   CellText "Screenshot"].

(** [os.path.join(app_dir, 'static', 'screenshots', name)], where [app_dir]
    is the directory of [app.py]. *)
Definition static_screenshot (app_dir name : string) : string :=
  path_join (path_join (path_join app_dir "static") "screenshots") name.

Section Report.

Variable lib : Lib.
Variable app_dir : string.

(** [Paragraph(text, style)] *)
Definition paragraph (text style : string) : res Flowable :=
  match lib_markup lib text with
  | Some e => Raise e
  | None => Val (Paragraph text style)
  end.

(** [Image(path, width=..., height=...)] *)
Definition image (t : nat) (path : string) (width height : Z) : res Flowable :=
  match lib_image lib t path with
  | Some e => Raise e
  | None => Val (Image path width height)
  end.

(** The loop over [page_screenshots], which extends [elements]. *)
Fixpoint screenshot_elements (t : nat) (page_screenshots : list (string * string))
    (elements : list Flowable) : res (list Flowable) :=
  match page_screenshots with
  | [] => Val elements
  | (link, screenshot) :: rest =>
      let? p := paragraph ("Page: " +++ link) "Normal" in
      let elements := elements ++ [p] in
      let screenshot_path := static_screenshot app_dir screenshot in
      let? elements :=
        (if lib_exists lib t screenshot_path
         then let? im := image t screenshot_path 300 200 in Val (elements ++ [im])
         else Val elements) in
      screenshot_elements (S t) rest (elements ++ [Spacer 1 10])
  end.

(** [thumb]: the screenshot of an issue, or "N/A"; an exception in looking
    for the file or in making the image is logged and dropped. *)
Definition thumb (t : nat) (shot_name : option string) : res Flowable :=
  let? na := paragraph "N/A" "CellStyle" in
  if opt_truthy shot_name then
    let shot_path := static_screenshot app_dir (opt_str shot_name) in
    if lib_exists lib t shot_path then
      match image t shot_path 150 100 with
      | Val im => Val im
      | Raise _ => Val na
      end
    else Val na
  else Val na.

(** One row of the issue table. *)
Definition issue_row (t : nat) (issue : Finding) : res (list Cell) :=
  let? th := thumb t (evidence_ref issue) in
  let? c1 := paragraph (rule_name issue) "CellStyle" in
  let? c2 := paragraph (page_url issue) "CellStyle" in
  let? c3 := paragraph (description issue) "CellStyle" in
  let? c4 := paragraph (severity issue) "CellStyle" in
  Val [CellFlowable c1; CellFlowable c2; CellFlowable c3; CellFlowable c4; CellFlowable th].

(** The loop over [issues], which extends [data]. *)
Fixpoint issue_rows (t : nat) (issues : list Finding) (data : list (list Cell))
    : res (list (list Cell)) :=
  match issues with
  | [] => Val data
  | issue :: rest =>
      let? row := issue_row t issue in
      issue_rows (S t) rest (data ++ [row])
  end.

(** [elements], as handed to [doc.build]. *)
Definition report_elements (issues : list Finding) (page_screenshots : list (string * string))
    : res (list Flowable) :=
  let? title := paragraph "Usability Testing Report" "Title" in
  let elements := [title; Spacer 1 20] in
  let? heading := paragraph "Screenshots of Tested Pages:" "Heading2" in
  let elements := elements ++ [heading] in
  let? elements := screenshot_elements 0 page_screenshots elements in
  let elements := elements ++ [Spacer 1 20] in
  match issues with
  | _ :: _ =>
      let? heading := paragraph "Detected Issues:" "Heading2" in
      let elements := elements ++ [heading] in
      let? data := issue_rows (List.length page_screenshots) issues [table_header] in
      let available_width := lib_doc_width lib in
      let col_widths :=
        [available_width * 0.2; available_width * 0.22; available_width * 0.31;
         available_width * 0.12; available_width * 0.15]%float in
      Val (elements ++ [Table data col_widths table_style])
  | [] =>
      let? p := paragraph "No major issues found!" "Normal" in
      Val (elements ++ [p])
  end.

(** [generate_pdf_report(issues, page_screenshots, output_path)]; [None] is
    Python's [None]. *)
Definition generate_pdf_report (issues : list Finding)
    (page_screenshots : list (string * string)) (output_path : string)
    : res (option string) :=
  let? elements := report_elements issues page_screenshots in
  match lib_build lib output_path elements with
  | Val _ => Val (Some output_path)
  | Raise _ => Val None
  end.

End Report.

(** The cell that shows the screenshot of an issue: the image when the
    issue names a screenshot, the file is there and the image can be made;
    the text "N/A" otherwise. *)
Definition thumb_of (lib : Lib) (app_dir : string) (t : nat) (shot_name : option string)
    : Flowable :=
  let shot_path := static_screenshot app_dir (opt_str shot_name) in
  if opt_truthy shot_name && lib_exists lib t shot_path
     && match lib_image lib t shot_path with None => true | Some _ => false end
  then Image shot_path 150 100
  else Paragraph "N/A" "CellStyle".

(** The row of an issue: its four texts and its screenshot cell. *)
Definition row_of (lib : Lib) (app_dir : string) (t : nat) (issue : Finding) : list Cell :=
  [CellFlowable (Paragraph (rule_name issue) "CellStyle");
   CellFlowable (Paragraph (page_url issue) "CellStyle");
   CellFlowable (Paragraph (description issue) "CellStyle");
   CellFlowable (Paragraph (severity issue) "CellStyle");
   CellFlowable (thumb_of lib app_dir t (evidence_ref issue))].

(** The rows of the issues, the first made at turn [t]. *)
Fixpoint rows_from (lib : Lib) (app_dir : string) (t : nat) (issues : list Finding)
    : list (list Cell) :=
  match issues with
  | [] => []
  | issue :: rest => row_of lib app_dir t issue :: rows_from lib app_dir (S t) rest
  end.

(** The texts of an issue that the report sets as paragraphs are accepted
    as markup. *)
Definition texts_accepted (lib : Lib) (issue : Finding) : Prop :=
  lib_markup lib (rule_name issue) = None
  /\ lib_markup lib (page_url issue) = None
  /\ lib_markup lib (description issue) = None
  /\ lib_markup lib (severity issue) = None.

(** ** Example pages and worlds *)

Module Examples.

(** A stand-in for [x ** y] that satisfies what the contrast facts assume
    of it. *)
Definition pow_id (x y : float) : res float := Val x.

(** Renderings and helpers standing in for the built-ins. *)
Definition format_tag (spec : string) (x : float) : string := "{:" +++ spec +++ "}".

Definition urljoin_abs (link href : string) : res string := Val href.

(** Iteration order of a set that happens to follow first appearance. *)
Fixpoint first_seen (l : list string) : list string :=
  match l with
  | [] => []
  | x :: l' => x :: filter (fun y => negb (String.eqb x y)) (first_seen l')
  end.

(** Another iteration order a set may have: last appearance first. *)
Definition last_seen (l : list string) : list string := rev (first_seen l).

Definition uuid_of (t : nat) : string := "id" +++ NilEmpty.string_of_uint (Nat.to_uint t).

(** A world where the session, the scripts and the counters behave; what
    varies is navigation, the page behind each URL, the locating scripts,
    the screenshot writes and the fetches. *)
Definition world
    (get : string -> res unit) (source : string -> res Soup)
    (styles : string -> res (list StyleItem))
    (rect : Script -> res (option Rect)) (save : res bool)
    (answer : string -> res (Z * string)) : World :=
  mkWorld (fun _ => Val tt) (fun _ => Val tt) (fun _ => get) (fun _ => source)
          (fun _ => styles) (fun _ => rect) (fun _ _ => Val [])
          (fun _ => Val (Some 1%Z)) (fun _ => Val (Some (mkKb 1 0)))
          (fun _ => Val (Some 100%float)) (fun _ sel => Val sel)
          (fun _ _ => Val tt) (fun _ => Val tt) (fun _ _ => save) uuid_of
          (fun _ => answer) (fun _ => Val tt).

(** A page that trips no rule: title, one [h1], viewport, alert role. *)
Definition tidy_soup (title : string) (nav : list string) (anchors : list Anchor) : Soup :=
  mkSoup (Some (Some title)) [1%Z] [] true anchors [] nav true false.

(** A page with an empty document. *)
Definition bare_soup : Soup := mkSoup None [] [] false [] [] [] false false.

Definition calm : World :=
  world (fun _ => Val tt) (fun _ => Val (tidy_soup "Welcome home" [] []))
        (fun _ => Val []) (fun _ => Val None) (Val true) (fun _ => Val (200%Z, "OK")).

(** Navigation fails: the host does not resolve. *)
Definition unreachable : World :=
  world (fun _ => Raise "net::ERR_NAME_NOT_RESOLVED") (fun _ => Val bare_soup)
        (fun _ => Val []) (fun _ => Val None) (Val true) (fun _ => Val (200%Z, "OK")).

(** The screenshot directory cannot be written. *)
Definition read_only_disk : World :=
  world (fun _ => Val tt) (fun _ => Val (tidy_soup "" [] []))
        (fun _ => Val []) (fun _ => Val None) (Raise "screenshot failed")
        (fun _ => Val (200%Z, "OK")).

(** A page in order, on a disk where no screenshot can be written. *)
Definition disk_full : World :=
  world (fun _ => Val tt) (fun _ => Val (tidy_soup "Welcome home" [] []))
        (fun _ => Val []) (fun _ => Val None) (Raise "screenshot failed")
        (fun _ => Val (200%Z, "OK")).

(** Body text set at 16px with a 24px line height: a ratio of 1.5. *)
Definition roomy_item : StyleItem :=
  mkStyleItem (Some "Body text") (Some "rgb(0, 0, 0)") (Some "rgb(255, 255, 255)")
              (Some "16px") (Some "24px") 0 0 600 24.

(** A page whose title is too short. *)
Definition terse : World :=
  world (fun _ => Val tt) (fun _ => Val (tidy_soup "Hi" [] []))
        (fun _ => Val []) (fun _ => Val None) (Val true) (fun _ => Val (200%Z, "OK")).

(** An [href] with a double quote in it: spliced into the CSS selector of
    the locating script it makes [querySelector] throw. *)
Definition quoted_href : string := "/doc" +++ String (ascii_of_nat 34) "x".

Definition has_quote (h : string) : bool :=
  existsb (Ascii.eqb (ascii_of_nat 34)) (list_ascii_of_string h).

Definition locate (q : Script) : res (option Rect) :=
  match q with
  | JsAnchorByHref h =>
      if has_quote h then Raise "javascript error: not a valid selector" else Val None
  | _ => Val None
  end.

Definition one_link (href : string) : Soup :=
  tidy_soup "Welcome home" [] [mkAnchor (Some href) "Old documentation"].

(** Every request is answered 404. *)
Definition all_gone (href : string) : World :=
  world (fun _ => Val tt) (fun _ => Val (one_link href)) (fun _ => Val []) locate
        (Val true) (fun _ => Val (404%Z, "Not Found")).

(** Every fetch times out. *)
Definition all_slow (href : string) : World :=
  world (fun _ => Val tt) (fun _ => Val (one_link href)) (fun _ => Val []) locate
        (Val true) (fun _ => Raise "timed out").

Definition page_a : string := "https://site.example/a".
Definition page_b : string := "https://site.example/b".
Definition page_c : string := "https://site.example/c".

(** Three pages: A and B share a title and a navigation bar, C has its own
    title and another bar. *)
Definition three_pages : World :=
  world (fun _ => Val tt)
        (fun link =>
           if String.eqb link page_c
           then Val (tidy_soup "About the team" ["Home"; "Blog"] [])
           else Val (tidy_soup "Welcome home" ["Home"; "About"] []))
        (fun _ => Val []) locate (Val true) (fun _ => Val (200%Z, "OK")).

(** Three pages: A and B have no navigation bar, C has one. *)
Definition mostly_bare : dict :=
  [(page_a, ""); (page_b, ""); (page_c, "Home|About")].

(** A page whose headings are an [h2] and then an [h4]. *)
Definition gappy_soup : Soup :=
  mkSoup (Some (Some "Welcome home")) [2; 4]%Z [] true [] [] [] true false.


(** Two forms: a search box without a label, and a login form whose fields
    are labelled one way or the other. *)
Definition forms_soup : Soup :=
  mkSoup (Some (Some "Welcome home")) [1%Z] [] true []
         [ [mkInput "input" (Some "q") (Some "q") false false];
           [mkInput "input" (Some "user") (Some "user") true false;
            mkInput "input" None (Some "pass") false true] ]
         [] true false.

(** A page with three anchors: one in order, one without [href], and one
    whose page is gone. *)
Definition hollow_soup : Soup :=
  tidy_soup "Welcome home" []
    [mkAnchor (Some "/docs") "Documentation"; mkAnchor None "Menu";
     mkAnchor (Some "/old-page") "Old documentation"].

(** Every request is answered 200, except the one for the old page. *)
Definition old_page_gone : World :=
  world (fun _ => Val tt) (fun _ => Val hollow_soup) (fun _ => Val []) locate (Val true)
        (fun url => if String.eqb url "/old-page" then Val (404%Z, "Not Found")
                    else Val (200%Z, "OK")).

(** A page with one image. *)
Definition gallery_soup : Soup :=
  mkSoup (Some (Some "Welcome home")) [1%Z] [mkImg (Some "The team in 2019") (Some "/img/team.jpg")]
         true [] [] [] true false.

(** Black text on a black background. *)
Definition ink_on_ink : StyleItem :=
  mkStyleItem (Some "Fine print") (Some "rgb(0, 0, 0)") (Some "rgba(0, 0, 0, 1)")
              (Some "16px") (Some "24px") 0 0 600 24.

(** A library that accepts every text and builds every document, on a disk
    that holds the page screenshot of page A only. *)
Definition kind_lib : Lib :=
  mkLib (fun _ => None)
        (fun _ path => String.eqb path "/srv/app/static/screenshots/screenshot_id3_page.png")
        (fun _ _ => None) (fun _ _ => Val tt) 468.

(** A report of one finding whose screenshot was never written. *)
Definition lost_shot : Finding :=
  mkFinding "Missing H1 heading" page_a "Include a single, clear <h1> per page." "Medium"
            (Some "screenshot_id5_headings.png").

(** The page of [terse], on a disk that cannot be written. *)
Definition terse_read_only : World :=
  world (fun _ => Val tt) (fun _ => Val (tidy_soup "Hi" [] []))
        (fun _ => Val []) (fun _ => Val None) (Raise "screenshot failed")
        (fun _ => Val (200%Z, "OK")).

End Examples.

(** ** The scan *)

Section Scan.

Set Default Proof Using "Type*".

(** Python built-ins the source calls: [x ** y] on floats, [format(x, spec)]
    on floats, [urllib.parse.urljoin] and the iteration order of [set(l)]. *)
Variable pow : float -> float -> res float.
Variable format_float : string -> float -> string.
Variable urljoin : string -> string -> res string.
Variable set_iter : list string -> list string.

Variable w : World.
Variable screenshots_dir : string.

Local Open Scope float_scope.

(** *** Contrast *)

Definition channel (c : Z) : res float :=
  let? c0 := PyFloat.of_int c in
  let c := c0 / 255 in
  if c <=? 0.03928 then Val (c / 12.92) else pow ((c + 0.055) / 1.055) 2.4.

Definition relative_luminance (c : rgb) : res float :=
  let '(r, g, b) := c in
  let? cr := channel r in
  let? cg := channel g in
  let? cb := channel b in
  Val (0.2126 * cr + 0.7152 * cg + 0.0722 * cb).

Definition contrast_ratio (fg bg : rgb) : res float :=
  let? a1 := relative_luminance fg in
  let? b1 := relative_luminance bg in
  let L1 := PyFloat.max a1 b1 in
  let? a2 := relative_luminance fg in
  let? b2 := relative_luminance bg in
  let L2 := PyFloat.min a2 b2 in
  PyFloat.div (L1 + 0.05) (L2 + 0.05).

(** *** Evidence capture *)

(** [driver.save_screenshot(p)]: the file exists afterwards when the call
    answers [True]. *)
Definition save_screenshot (p : string) : M bool :=
  fun s =>
    match w_save w (clock s) p with
    | Val true => (Val true, add_file p (tick s))
    | r => (r, tick s)
    end.

(** [try: m except Exception: log] *)
Definition swallow {A} (m : M A) : M unit :=
  try_except (m ;;; ret tt) (fun _ => ret tt).

Definition shot_name (u rule_key : string) : string :=
  "screenshot_" +++ u +++ "_" +++ rule_key +++ ".png".

Definition capture_rule_screenshot
    (rects : list Rect) (rule_key : string) (label_text : option string) : M string :=
  let rects1 :=
    match rects, label_text with
    | [], Some l => if PyStr.truthy l then [banner l] else rects
    | _, _ => rects
    end in
  let rects2 :=
    match label_text with
    | Some l => if PyStr.truthy l then map (set_label l) rects1 else rects1
    | None => rects1
    end in
  swallow (ask (fun t => w_overlay w t rects2)) ;;;
  u <- ask (fun t => Val (w_uuid w t)) ;;
  let fname := shot_name u rule_key in
  let fpath := path_join screenshots_dir fname in
  swallow (save_screenshot fpath) ;;;
  swallow (ask (w_cleanup w)) ;;;
  ret fname.

(** The two lines every rule ends with:
    [shot = capture_rule_screenshot(rects, key, label)] and
    [issues.append([name, link, desc, sev, shot])]. *)
Definition report (rects : list Rect) (rule_key : string) (label_text : option string)
    (name link desc sev : string) : M unit :=
  shot <- capture_rule_screenshot rects rule_key label_text ;;
  append_issue (mkFinding name link desc sev (Some shot)).

(** *** 1) Page title *)

Definition page_title (soup : Soup) : string :=
  match soup_title soup with
  | Some (Some s) => if PyStr.truthy s then PyStr.strip s else ""
  | _ => ""
  end.

Definition rule_title (link : string) (soup : Soup) : M unit :=
  let title := page_title soup in
  when (negb (PyStr.truthy title) || (String.length title <? 5)%nat)
    (report [] "title" (Some "Page title") "Page title not descriptive" link
       "Provide a unique, descriptive <title> of at least 5 characters." "High") ;;;
  set_title link title.

(** *** 2) Headings *)

Definition rule_headings (link : string) (soup : Soup) : M unit :=
  let levels := soup_headings soup in
  when (negb (existsb (Z.eqb 1) levels))
    (report [] "headings" (Some "Missing H1") "Missing H1 heading" link
       "Include a single, clear <h1> per page." "Medium") ;;;
  when (1 <? List.length (filter (Z.eqb 1) levels))%nat
    (mh <- ask (fun t => w_rects w t JsMultipleH1) ;;
     report mh "headings" (Some "Multiple H1") "Multiple H1 headings" link
       "Use only one <h1> to anchor page structure." "Low") ;;;
  for_each (combine levels (tl levels)) (fun pc =>
    let '(prev, cur) := pc in
    if (1 <? cur - prev)%Z then
      hs_rect <- ask (fun t => w_rect w t JsHeadingSkip) ;;
      report (opt_list hs_rect) "headings" (Some "Heading skip") "Heading level skips" link
        "Use hierarchical headings without skipping levels (e.g., h2 then h3)." "Low" ;;;
      ret Break
    else ret Next).

(** *** 3) Alternative text *)

Definition alt_not_meaningful (alt : option string) (fname : string) : bool :=
  match alt with
  | None => true
  | Some a =>
      negb (PyStr.truthy a)
      || (String.length (PyStr.strip a) <? 3)%nat
      || PyStr.mem (PyStr.lower (PyStr.strip a)) generic_alts
      || String.eqb (PyStr.lower (PyStr.strip a)) (PyStr.lower fname)
  end.

Definition rule_alt (link : string) (soup : Soup) : M unit :=
  for_each (soup_imgs soup) (fun img =>
    let alt := img_alt img in
    let src := if opt_truthy (img_src img) then opt_str (img_src img) else "" in
    let fname := PyStr.basename src in
    if alt_not_meaningful alt fname then
      bad_img_rect <- ask (fun t => w_rect w t JsBadImg) ;;
      report (opt_list bad_img_rect) "alt" (Some "Alt missing") "Image alt text not meaningful" link
        "Provide descriptive alt text (≥3 chars, not generic or filename)." "High" ;;;
      ret Break
    else ret Next).

(** *** 4) Mobile responsiveness *)

Definition rule_viewport (link : string) (soup : Soup) : M unit :=
  mq_count <- ask (w_mq_count w) ;;
  when (negb (soup_viewport_meta soup))
    (report [] "viewport" (Some "Viewport meta missing") "Missing viewport meta" link
       "Add <meta name='viewport' content='width=device-width, initial-scale=1.0'>." "Medium") ;;;
  when (match mq_count with Some n => (n =? 0)%Z | None => false end)
    (report [] "viewport" (Some "No media queries") "No responsive media queries" link
       "Add CSS media queries to adapt layout across devices." "Low").

(** *** 5) Link integrity and broken links *)

(** The liveness check of one anchor: the [try] block that fetches the
    resolved URL, and its [except] handler. *)
Definition link_liveness (link href : string) : M flow :=
  try_except
    (abs_url <- lift (urljoin link href) ;;
     status <- ask (fun t => urlopen w t abs_url) ;;
     if (400 <=? status)%Z then
       a_rect <- ask (fun t => w_rect w t (JsAnchorByHref href)) ;;
       report (opt_list a_rect) "links" (Some "Broken link") "Broken link detected" link
         ("Link returns HTTP " +++ PyStr.str_of_Z status +++ ": " +++ abs_url) "High" ;;;
       ret Break
     else ret Next)
    (fun _ =>
       a_rect <- ask (fun t => w_rect w t (JsAnchorByHref href)) ;;
       report (opt_list a_rect) "links" (Some "Broken link") "Broken link detected" link
         ("Failed to open: " +++ href) "High" ;;;
       ret Break).

(** The link-text check of one anchor; an exception in it is dropped. *)
Definition link_text_check (link text : string) : M unit :=
  when (PyStr.truthy text && PyStr.mem (PyStr.lower text) generic_link_texts)
    (try_except
       (desc_rect <- ask (fun t => w_rect w t (JsLinkText text)) ;;
        report (opt_list desc_rect) "links" (Some "Link text") "Link text not descriptive" link
          ("Use descriptive link text instead of '" +++ text +++ "'.") "Low")
       (fun _ => ret tt)).

(** The body of [for a in anchors]. *)
Definition check_anchor (link : string) (a : Anchor) : M flow :=
  let href := opt_str (a_href a) in
  let text := PyStr.strip (a_text a) in
  if negb (opt_truthy (a_href a)) || PyStr.mem href noop_hrefs then
    bad_a_rect <- ask (fun t => w_rect w t JsBadAnchor) ;;
    report (opt_list bad_a_rect) "links" (Some "Broken link") "Empty or broken link" link
      "Provide valid href and meaningful link text." "Medium" ;;;
    ret Break
  else
    link_text_check link text ;;;
    link_liveness link href.

Definition rule_links (link : string) (soup : Soup) : M unit :=
  for_each (soup_anchors soup) (check_anchor link).

(** *** 6) Colour contrast *)

Fixpoint contrast_loop (items : list StyleItem) (contrast_rects : list Rect)
    (first_ratio_desc : option string) : res (list Rect * option string) :=
  match items with
  | [] => Val (contrast_rects, first_ratio_desc)
  | item :: rest =>
      let fg := parse_rgb (st_color item) in
      let bg := parse_rgb (st_bg item) in
      let? ratio := contrast_ratio fg bg in
      if ratio <? 4.5 then
        let desc :=
          match first_ratio_desc with
          | None => Some ("Contrast " +++ format_float ".2f" ratio +++ ":1 below 4.5:1 for text '"
                          +++ opt_str (st_text item) +++ "'.")
          | Some d => Some d
          end in
        let rects := contrast_rects
                     ++ [item_rect item ("Contrast " +++ format_float ".2f" ratio +++ ":1")] in
        if (3 <=? List.length rects)%nat then Val (rects, desc)
        else contrast_loop rest rects desc
      else contrast_loop rest contrast_rects first_ratio_desc
  end.

Definition rule_contrast (link : string) (style_results : list StyleItem) : M unit :=
  found <- lift (contrast_loop style_results [] None) ;;
  let '(contrast_rects, first_ratio_desc) := found in
  match contrast_rects with
  | [] => ret tt
  | _ =>
      report contrast_rects "contrast" None "Insufficient colour contrast" link
        (match first_ratio_desc with
         | Some d => if PyStr.truthy d then d else "Insufficient colour contrast detected."
         | None => "Insufficient colour contrast detected."
         end)
        "High"
  end.

(** *** 7) Keyboard navigation *)

Definition rule_keyboard (link : string) : M unit :=
  kb <- ask (w_kb w) ;;
  when (match kb with Some k => (kb_tabbables k =? 0)%Z | None => false end)
    (report [] "keyboard" (Some "Keyboard nav") "Keyboard navigation inaccessible" link
       "Ensure interactive elements are reachable via keyboard (Tab)." "High") ;;;
  when (match kb with Some k => (0 <? kb_blocked k)%Z | None => false end)
    (blocked_rects <- ask (fun t => w_rects w t JsBlocked) ;;
     report blocked_rects "keyboard" (Some "Tab order") "Elements removed from tab order" link
       "Avoid tabindex='-1' unless necessary; keep natural focus order." "Low").

(** *** 8) Form usability *)

Definition rule_forms (link : string) (soup : Soup) : M unit :=
  for_each (soup_forms soup) (fun inputs =>
    for_each inputs (fun inp =>
      let has_label :=
        (opt_truthy (inp_id inp) && inp_label_for inp) || inp_in_label inp in
      if has_label then ret Next
      else
        el <- ask (fun t => w_find w t (if opt_truthy (inp_name inp) then inp_tag inp
                                        else "input,select,textarea")) ;;
        rect <- ask (fun t => w_rect w t (JsElemRect el)) ;;
        rect <- try_except
                  (if opt_truthy (inp_id inp)
                   then ask (fun t => w_rect w t (JsRectById (opt_str (inp_id inp))))
                   else ret rect)
                  (fun _ => ret None) ;;
        report (opt_list rect) "forms" (Some "Missing label") "Form field missing label" link
          "Associate inputs with visible labels using <label for='id'>." "Medium" ;;;
        ret Break) ;;;
    ret Next).

(** *** 9) Navigation signature *)

Definition nav_signature (soup : Soup) : string :=
  let nav_links := firstn 10 (soup_nav_links soup) in
  match nav_links with
  | [] => ""
  | _ => PyStr.join "|" nav_links
  end.

Definition rule_nav (link : string) (soup : Soup) : M unit :=
  set_nav link (nav_signature soup).

(** *** 10) Feedback mechanisms *)

Definition rule_feedback (link : string) (soup : Soup) : M unit :=
  when (negb (soup_role_alert soup || soup_aria_live soup))
    (report [] "feedback" (Some "Missing feedback") "Missing user feedback hooks" link
       "Provide clear feedback areas (role='alert' or aria-live) for system actions/errors." "Low").

(** *** 11) Readability *)

(** [fs]: the font size of an item; [12.0] when it does not convert. *)
Definition font_size (item : StyleItem) : float :=
  match st_fontSize item with
  | None => 12
  | Some raw =>
      match PyFloat.of_decimal (keep_numeric raw) with
      | Val x => x
      | Raise _ => 12
      end
  end.

(** [lh]: the line height of an item; [fs * 1.2] when it does not convert. *)
Definition line_height (item : StyleItem) (fs : float) : float :=
  match st_lineHeight item with
  | None => fs * 1.2
  | Some raw =>
      match PyFloat.of_decimal (keep_numeric raw) with
      | Val x => x
      | Raise _ => fs * 1.2
      end
  end.

(** The condition [(lh/fs) if fs>0 else 1.0 < 1.2], which Python reads as
    [(lh/fs) if fs>0 else (1.0 < 1.2)]. *)
Definition tight_condition (lh fs : float) : bool :=
  if 0 <? fs then PyFloat.truthy (lh / fs) else 1.0 <? 1.2.

Definition rule_readability (link : string) (style_results : list StyleItem) : M unit :=
  for_each style_results (fun item =>
    let fs := font_size item in
    let lh := line_height item fs in
    if fs <? 12 then
      report [item_rect item "Small font"] "readability" (Some "Small font") "Small font size" link
        ("Increase font size to ≥ 12px. Found " +++ format_float "" fs +++ "px.") "Low" ;;;
      ret Break
    else if tight_condition lh fs then
      report [item_rect item "Line-height"] "readability" (Some "Line-height") "Tight line spacing" link
        "Use line-height ≈ 1.4 for comfortable reading." "Low" ;;;
      ret Break
    else ret Next).

(** *** 12) Performance *)

Definition rule_performance (link : string) : M unit :=
  perf <- ask (w_perf w) ;;
  let dur := match perf with Some d => d | None => 0 end in
  when (3000 <? dur)
    (report [] "performance" (Some "Slow page") "Slow page performance" link
       ("Navigation duration " +++ format_float ".0f" dur +++ "ms; optimize assets and requests.")
       "Medium").

(** *** 13) Broken images *)

Definition rule_images (link : string) (soup : Soup) : M unit :=
  for_each (soup_imgs soup) (fun img =>
    let src := opt_str (img_src img) in
    if negb (opt_truthy (img_src img)) then ret Next
    else
      try_except
        (abs_img <- lift (urljoin link src) ;;
         status <- ask (fun t => urlopen w t abs_img) ;;
         if (400 <=? status)%Z then
           img_rect <- ask (fun t => w_rect w t (JsImgBySrc src)) ;;
           report (opt_list img_rect) "images" (Some "Broken image") "Broken image source" link
             ("Image returns HTTP " +++ PyStr.str_of_Z status +++ ": " +++ abs_img) "Low" ;;;
           ret Break
         else ret Next)
        (fun _ =>
           img_rect <- ask (fun t => w_rect w t (JsImgBySrc src)) ;;
           report (opt_list img_rect) "images" (Some "Broken image") "Broken image source" link
             ("Failed to load image: " +++ src) "Low" ;;;
           ret Break)).

(** *** One page *)

(** Navigation and signal extraction: [driver.get], the page screenshot,
    the parsed markup and the computed styles. *)
Definition load_page (link : string) : M (Soup * list StyleItem) :=
  ask (fun t => w_get w t link) ;;;
  u <- ask (fun t => Val (w_uuid w t)) ;;
  let page_shot_name := shot_name u "page" in
  let page_shot_path := path_join screenshots_dir page_shot_name in
  try_except
    (save_screenshot page_shot_path ;;;
     append_page_shot (link, page_shot_name))
    (fun _ => ret tt) ;;;
  soup <- ask (fun t => w_source w t link) ;;
  style_results <- ask (fun t => w_styles w t link) ;;
  ret (soup, style_results).

(** The rule blocks 2) to 13), in the order of the source. *)
Definition later_rules (link : string) (soup : Soup) (style_results : list StyleItem) : M unit :=
  rule_headings link soup ;;;
  rule_alt link soup ;;;
  rule_viewport link soup ;;;
  rule_links link soup ;;;
  rule_contrast link style_results ;;;
  rule_keyboard link ;;;
  rule_forms link soup ;;;
  rule_nav link soup ;;;
  rule_feedback link soup ;;;
  rule_readability link style_results ;;;
  rule_performance link ;;;
  rule_images link soup.

(** The rule battery: block 1) and the blocks after it. *)
Definition run_rules (link : string) (soup : Soup) (style_results : list StyleItem) : M unit :=
  rule_title link soup ;;;
  later_rules link soup style_results.

(** The body of the [try] of the page loop. *)
Definition page_body (link : string) : M unit :=
  signals <- load_page link ;;
  run_rules link (fst signals) (snd signals).

Definition page_load_error (link e : string) : Finding :=
  mkFinding "Page load error" link e "High" None.

(** One iteration of [for i, link in enumerate(urls, start=1)]. *)
Definition scan_page (link : string) : M unit :=
  try_except (page_body link) (fun e => append_issue (page_load_error link e)).

Fixpoint scan_pages (urls : list string) : M unit :=
  match urls with
  | [] => ret tt
  | link :: rest => scan_page link ;;; scan_pages rest
  end.

(** *** Cross-page checks *)

Definition non_unique_title (page : string) : Finding :=
  mkFinding "Non-unique page title" page
    "Each page should have a unique, descriptive title." "Medium" None.

Definition inconsistent_navigation (page : string) : Finding :=
  mkFinding "Inconsistent navigation" page
    "Use a uniform navigation structure across pages." "Low" None.

(** [{t for t in titles if t and titles.count(t) > 1}], as its members. *)
Definition dup_titles (titles : list string) : list string :=
  filter (fun t => PyStr.truthy t && (1 <? count t titles)%nat) titles.

(** The findings of the duplicate-title check, in the order of [title_map]. *)
Definition duplicate_title_findings (tm : dict) : list Finding :=
  if (1 <? List.length tm)%nat then
    let titles := dict_values tm in
    flat_map (fun pt => if PyStr.mem (snd pt) (dup_titles titles)
                        then [non_unique_title (fst pt)] else []) tm
  else [].

(** [max(set(sigs), key=sigs.count) if sigs else ""] *)
Definition majority (sigs : list string) : res string :=
  match sigs with
  | [] => Val ""
  | _ => max_key (fun x => count x sigs) (set_iter sigs)
  end.

(** The findings of the navigation check, in the order of [nav_signatures]. *)
Definition inconsistent_nav_findings (ns : dict) : res (list Finding) :=
  if (1 <? List.length ns)%nat then
    let sigs := dict_values ns in
    let? maj := majority sigs in
    Val (flat_map (fun ps =>
           if PyStr.truthy (snd ps) && PyStr.truthy maj && negb (String.eqb (snd ps) maj)
           then [inconsistent_navigation (fst ps)] else []) ns)
  else Val [].

Fixpoint append_issues (l : list Finding) : M unit :=
  match l with
  | [] => ret tt
  | f :: l' => append_issue f ;;; append_issues l'
  end.

Definition cross_page : M unit :=
  s <- get_state ;;
  append_issues (duplicate_title_findings (title_map s)) ;;;
  nav <- lift (inconsistent_nav_findings (nav_signatures s)) ;;
  append_issues nav.

(** *** [run_scan] *)

Definition scan (urls : list string) : M unit :=
  ask (w_start w) ;;;
  swallow (ask (w_set_window_size w)) ;;;
  scan_pages urls ;;;
  cross_page ;;;
  ask (w_quit w).

(** [run_scan(urls, screenshots_dir)]: the pair [(issues, page_screenshots)],
    or the exception that ends the scan. *)
Definition run_scan (urls : list string) : res (list Finding * list (string * string)) :=
  let '(r, s) := scan urls init_state in
  match r with
  | Val _ => Val (issues s, page_screenshots s)
  | Raise e => Raise e
  end.

(** ** Notions used by the statements *)

(** An RGB colour proper: every channel within [0, 255]. *)
Definition rgb_in_range (c : rgb) : Prop :=
  let '(r, g, b) := c in
  (0 <= r <= 255 /\ 0 <= g <= 255 /\ 0 <= b <= 255)%Z.

(** Sign of a float seen through its specification: not a NaN, not
    negative (either zero counts). *)
Definition nonneg_sf (x : spec_float) : bool :=
  match x with
  | S754_zero _ => true
  | S754_finite s _ _ => negb s
  | S754_infinity s => negb s
  | S754_nan => false
  end.

(** For a channel value, the argument [channel] hands to the linear branch
    or to [pow] lies where it should. *)
Definition channel_arg_ok (c : Z) : bool :=
  match PyFloat.of_int c with
  | Val c0 =>
      let x := c0 / 255 in
      if x <=? 0.03928 then 0 <=? x / 12.92
      else (0 <=? (x + 0.055) / 1.055) && ((x + 0.055) / 1.055 <=? 1)
  | Raise _ => false
  end.

(** [steps R m]: however [m] ends, it takes a state to one that [R] relates
    to it. *)
Definition steps {A} (R : State -> State -> Prop) (m : M A) : Prop :=
  forall s, R s (snd (m s)).

(** [issues] has only grown, by findings that satisfy [Q]. *)
Definition appended (Q : Finding -> Prop) (s s' : State) : Prop :=
  exists l, issues s' = issues s ++ l /\ Forall Q l.

(** [adds Q m]: whatever [m] does and however it ends, it only appends to
    [issues], and every finding it appends satisfies [Q]. *)
Definition adds {A} (Q : Finding -> Prop) (m : M A) : Prop :=
  steps (appended Q) m.

(** The name and severity of a finding are one of the pairs of [T]. *)
Definition in_table (T : list (string * string)) (f : Finding) : Prop :=
  In (rule_name f, severity f) T.

(** The severities the report knows. *)
Definition severity_ok (f : Finding) : Prop :=
  severity f = "High" \/ severity f = "Medium" \/ severity f = "Low".

(** Name and severity of what each rule block can append. *)
Definition title_table : list (string * string) :=
  [("Page title not descriptive", "High")].

Definition later_rules_table : list (string * string) :=
  [("Missing H1 heading", "Medium"); ("Multiple H1 headings", "Low");
   ("Heading level skips", "Low"); ("Image alt text not meaningful", "High");
   ("Missing viewport meta", "Medium"); ("No responsive media queries", "Low");
   ("Empty or broken link", "Medium"); ("Link text not descriptive", "Low");
   ("Broken link detected", "High"); ("Insufficient colour contrast", "High");
   ("Keyboard navigation inaccessible", "High"); ("Elements removed from tab order", "Low");
   ("Form field missing label", "Medium"); ("Missing user feedback hooks", "Low");
   ("Small font size", "Low"); ("Tight line spacing", "Low");
   ("Slow page performance", "Medium"); ("Broken image source", "Low")].

Definition scan_table : list (string * string) :=
  title_table ++ later_rules_table
  ++ [("Page load error", "High"); ("Non-unique page title", "Medium");
      ("Inconsistent navigation", "Low")].

(** The state [capture_rule_screenshot] leaves: four calls into the world;
    the file is there when [save_screenshot] answered [True]. *)
Definition after_capture (s : State) (path : string) : State :=
  mkState (issues s) (page_screenshots s) (title_map s) (nav_signatures s)
          (match w_save w (S (S (clock s))) path with
           | Val true => files s ++ [path]
           | _ => files s
           end)
          (4 + clock s).

Definition with_issue (s : State) (f : Finding) : State :=
  mkState (issues s ++ [f]) (page_screenshots s) (title_map s) (nav_signatures s)
          (files s) (clock s).

(** [l.count] restricted to the findings of one rule. *)
Definition count_rule (name : string) (l : list Finding) : nat :=
  List.length (filter (fun f => String.eqb (rule_name f) name) l).

Definition title_finding (link shot : string) : Finding :=
  mkFinding "Page title not descriptive" link
    "Provide a unique, descriptive <title> of at least 5 characters." "High" (Some shot).

(** The evidence of a finding, read in state [s]: its name was made by a
    capture that read the identifier at clock [t] and asked for the file at
    clock [t + 1], both in the past of [s], and the file is among [files]
    when that request answered [True]. *)
Definition evidence_ok (s : State) (f : Finding) : Prop :=
  match evidence_ref f with
  | None => True
  | Some name =>
      exists t key,
        name = shot_name (w_uuid w t) key
        /\ (S t < clock s)%nat
        /\ (w_save w (S t) (path_join screenshots_dir name) = Val true ->
            In (path_join screenshots_dir name) (files s))
  end.

Definition evidence_inv (s : State) : Prop := Forall (evidence_ok s) (issues s).

(** Time passes and files stay. *)
Definition grows (s s' : State) : Prop :=
  (clock s <= clock s')%nat /\ incl (files s) (files s').

Definition evidence_step (s s' : State) : Prop :=
  grows s s' /\ (evidence_inv s -> evidence_inv s').

(** What a relation on states must grant to follow a scan step by step:
    [ok name sev] says which findings may be recorded. *)
Class StepRel (R : State -> State -> Prop) (ok : string -> string -> Prop) : Prop := {
  step_refl : forall s, R s s;
  step_trans : forall s1 s2 s3, R s1 s2 -> R s2 s3 -> R s1 s3;
  step_tick : forall s, R s (tick s);
  step_add_file : forall s p, R s (add_file p s);
  step_title : forall s k v, R s (snd (set_title k v s));
  step_nav : forall s k v, R s (snd (set_nav k v s));
  step_page_shot : forall s p, R s (snd (append_page_shot p s));
  step_report : forall s key name link desc sev,
    ok name sev ->
    R s (with_issue
           (after_capture s (path_join screenshots_dir (shot_name (w_uuid w (S (clock s))) key)))
           (mkFinding name link desc sev (Some (shot_name (w_uuid w (S (clock s))) key))));
  step_plain : forall s name link desc sev,
    ok name sev -> R s (with_issue s (mkFinding name link desc sev None))
}.

(** [ok] admits every pair of the table [T]. *)
Definition ok_on (ok : string -> string -> Prop) (T : list (string * string)) : Prop :=
  forall n sv, In (n, sv) T -> ok n sv.

(** A finding without evidence that [ok] admits. *)
Definition plain_ok (ok : string -> string -> Prop) (f : Finding) : Prop :=
  evidence_ref f = None /\ ok (rule_name f) (severity f).

(** A colour text the specification calls unparsable: [None], or a string
    without the [rgb(...)] / [rgba(...)] syntax. *)
Definition unparsable (s : option string) : Prop :=
  forall str, s = Some str -> ~ rgb_syntax str.

(** An entry of [title_map] whose title is non-empty and borne by at least
    two pages. *)
Definition shares_title (tm : dict) (pt : string * string) : bool :=
  PyStr.truthy (snd pt) && (2 <=? count (snd pt) (dict_values tm))%nat.

(** An entry of [nav_signatures] that the navigation check reports against
    the majority [maj]. *)
Definition off_majority (maj : string) (ps : string * string) : bool :=
  PyStr.truthy (snd ps) && PyStr.truthy maj && negb (String.eqb (snd ps) maj).

(** Each page has one entry in [title_map] and one in [nav_signatures]. *)
Definition keys_distinct (s : State) : Prop :=
  NoDup (map fst (title_map s)) /\ NoDup (map fst (nav_signatures s)).

Definition keys_step (s s' : State) : Prop := keys_distinct s -> keys_distinct s'.

(** *** The order of the rules on a page *)

(** The names of the findings of one page in the order of the page loop;
    names that exclude each other on a page stand together. *)
Definition rule_groups : list (list string) :=
  [ ["Page title not descriptive"];
    ["Missing H1 heading"; "Multiple H1 headings"];
    ["Heading level skips"];
    ["Image alt text not meaningful"];
    ["Missing viewport meta"];
    ["No responsive media queries"];
    ["Link text not descriptive"];
    ["Empty or broken link"; "Broken link detected"];
    ["Insufficient colour contrast"];
    ["Keyboard navigation inaccessible"];
    ["Elements removed from tab order"];
    ["Form field missing label"];
    ["Missing user feedback hooks"];
    ["Small font size"; "Tight line spacing"];
    ["Slow page performance"];
    ["Broken image source"];
    ["Page load error"] ].

Fixpoint rank_in (groups : list (list string)) (name : string) : nat :=
  match groups with
  | [] => 0%nat
  | g :: groups' => if PyStr.mem name g then 0%nat else S (rank_in groups' name)
  end.

(** The position of a rule name in [rule_groups]. *)
Definition rule_rank (name : string) : nat := rank_in rule_groups name.

Arguments rule_rank : simpl never.

(** The rules that can report several times on one page: once per anchor
    with a generic text, once per form. *)
Definition repeatable (name : string) : bool :=
  PyStr.mem name ["Link text not descriptive"; "Form field missing label"].

Arguments repeatable : simpl never.

(** Reading rule names from position [lo] on: a name may not stand before
    the position reached, and a name that is not repeatable moves the
    position past its own. The result is the position reached at the end. *)
Fixpoint advance (lo : nat) (names : list string) : option nat :=
  match names with
  | [] => Some lo
  | n :: rest =>
      if (lo <=? rule_rank n)%nat
      then advance (if repeatable n then rule_rank n else S (rule_rank n)) rest
      else None
  end.

Definition between (lo hi : nat) (names : list string) : bool :=
  match advance lo names with
  | Some b => (b <=? hi)%nat
  | None => false
  end.

(** The findings [l] follow the order of the rules, each group at most
    once apart from the repeatable rules. *)
Definition in_rule_order (l : list Finding) : Prop :=
  between 0 17 (map rule_name l) = true.

(** What the rule blocks between positions [lo] and [hi] may do to the scan
    state while they work on the page [link]: append findings about [link]
    in rule order, and give [link] an entry in the two dicts. *)
Definition page_effect (link : string) (lo hi : nat) (s s' : State) : Prop :=
  (exists l, issues s' = issues s ++ l
             /\ Forall (fun f => page_url f = link) l
             /\ between lo hi (map rule_name l) = true)
  /\ page_screenshots s' = page_screenshots s
  /\ incl (map fst (title_map s')) (link :: map fst (title_map s))
  /\ incl (map fst (nav_signatures s')) (link :: map fst (nav_signatures s)).

(** [l1] is [l2] with some elements left out. *)
Inductive subseq {A : Type} : list A -> list A -> Prop :=
  | subseq_nil : subseq [] []
  | subseq_skip : forall x l1 l2, subseq l1 l2 -> subseq l1 (x :: l2)
  | subseq_take : forall x l1 l2, subseq l1 l2 -> subseq (x :: l1) (x :: l2).

(** The scripts that locate an element answer, whenever they are asked. *)
Definition scripts_answer : Prop :=
  (forall t q, exists r, w_rect w t q = Val r)
  /\ (forall t q, exists r, w_rects w t q = Val r).

(** What one turn of a loop over the elements of a page may do: the effect
    of the block, and nothing that moves the position when the loop is to go
    on with the next element. *)
Definition body_effect (link : string) (lo hi : nat) (s : State)
    (out : res flow * State) : Prop :=
  page_effect link lo hi s (snd out)
  /\ (fst out = Val Next -> page_effect link lo lo s (snd out)).

(** An entry of [page_screenshots], read in state [s]: its name was made
    for a page screenshot from the identifier read at clock [t], the request
    to write the file, at clock [t + 1], answered, and the file is among
    [files] when the answer was [True]. *)
Definition page_shot_ok (s : State) (p : string * string) : Prop :=
  exists t b,
    snd p = shot_name (w_uuid w t) "page"
    /\ (S t < clock s)%nat
    /\ w_save w (S t) (path_join screenshots_dir (snd p)) = Val b
    /\ (b = true -> In (path_join screenshots_dir (snd p)) (files s)).

(** What the scan of the page [link] does to the scan state. *)
Definition scan_page_effect (link : string) (s s' : State) : Prop :=
  (exists l, issues s' = issues s ++ l
             /\ Forall (fun f => page_url f = link) l
             /\ in_rule_order l)
  /\ (exists shots, page_screenshots s' = page_screenshots s ++ shots
                    /\ (shots = [] \/ exists name, shots = [(link, name)])
                    /\ Forall (page_shot_ok s') shots)
  /\ incl (map fst (title_map s')) (link :: map fst (title_map s))
  /\ incl (map fst (nav_signatures s')) (link :: map fst (nav_signatures s))
  /\ grows s s'.

(** A finding of the cross-page checks about one of the pages [urls]. *)
Definition cross_page_finding (urls : list string) (f : Finding) : Prop :=
  In (page_url f) urls
  /\ evidence_ref f = None
  /\ (rule_name f = "Non-unique page title" \/ rule_name f = "Inconsistent navigation").

(** [m] returns [a] from every state, and the findings it appends are
    named [names], in that order. *)
Definition always {A} (m : M A) (a : A) (names : list string) : Prop :=
  forall s, exists s' l,
    m s = (Val a, s') /\ issues s' = issues s ++ l /\ map rule_name l = names.

(** An element is found for every selector, whenever one is asked for. *)
Definition elements_found : Prop :=
  forall t sel, exists el, w_find w t sel = Val el.

(** A form control counts as labelled when it has an [id] that a
    [<label for=...>] names, or sits inside a [<label>]. *)
Definition labelled (inp : Input) : bool :=
  (opt_truthy (inp_id inp) && inp_label_for inp) || inp_in_label inp.


(** A heading more than one level below the heading before it. *)
Definition skips_level (pc : Z * Z) : bool := (1 <? snd pc - fst pc)%Z.

(** A style sample that the contrast rule measures at 4.5:1 or more. *)
Definition contrast_passes (item : StyleItem) : Prop :=
  exists ratio,
    contrast_ratio (parse_rgb (st_color item)) (parse_rgb (st_bg item)) = Val ratio
    /\ (ratio <? 4.5) = false.

(** An [href] that the link rule takes for empty: missing, or one of
    [noop_hrefs]. *)
Definition empty_href (a : Anchor) : bool :=
  negb (opt_truthy (a_href a)) || PyStr.mem (opt_str (a_href a)) noop_hrefs.

(** A link text that says nothing about the target, whatever its case. *)
Definition generic_text (text : string) : bool :=
  PyStr.truthy text && PyStr.mem (PyStr.lower text) generic_link_texts.

(** An anchor without a target: no [href], or one that is empty, [#] or
    [javascript:void(0)]. *)
Definition no_target (a : Anchor) : Prop :=
  a_href a = None \/ a_href a = Some "" \/ a_href a = Some "#"
  \/ a_href a = Some "javascript:void(0)".

(** An anchor the link loop passes in silence: it has a target, its text is
    not a generic one, its URL resolves and, whenever it is fetched, the
    answer has a status within 200..299. *)
Definition passes_quietly (link : string) (a : Anchor) : Prop :=
  ~ no_target a
  /\ generic_text (PyStr.strip (a_text a)) = false
  /\ exists href abs_url,
       a_href a = Some href
       /\ urljoin link href = Val abs_url
       /\ forall t, exists status reason,
            w_http w t abs_url = Val (status, reason) /\ (200 <= status < 300)%Z.

(** A text without a digit, such as [medium] or [normal]. *)
Definition no_digit (raw : string) : Prop :=
  PyStr.str_all (fun c => negb (PyStr.is_digit c)) raw = true.

(** Two worlds that answer alike, except for what happens to overlays and
    screenshots: [w_overlay], [w_save] and [w_cleanup] are free. *)
Definition same_but_screenshots (w1 w2 : World) : Prop :=
  (forall t, w_start w1 t = w_start w2 t)
  /\ (forall t, w_set_window_size w1 t = w_set_window_size w2 t)
  /\ (forall t link, w_get w1 t link = w_get w2 t link)
  /\ (forall t link, w_source w1 t link = w_source w2 t link)
  /\ (forall t link, w_styles w1 t link = w_styles w2 t link)
  /\ (forall t q, w_rect w1 t q = w_rect w2 t q)
  /\ (forall t q, w_rects w1 t q = w_rects w2 t q)
  /\ (forall t, w_mq_count w1 t = w_mq_count w2 t)
  /\ (forall t, w_kb w1 t = w_kb w2 t)
  /\ (forall t, w_perf w1 t = w_perf w2 t)
  /\ (forall t sel, w_find w1 t sel = w_find w2 t sel)
  /\ (forall t, w_uuid w1 t = w_uuid w2 t)
  /\ (forall t url, urlopen w1 t url = urlopen w2 t url)
  /\ (forall t, w_quit w1 t = w_quit w2 t).

(** Two scan states with the same findings, the same dicts and the same
    clock; the page screenshots and the files may differ. *)
Definition same_verdict (s1 s2 : State) : Prop :=
  issues s1 = issues s2
  /\ title_map s1 = title_map s2
  /\ nav_signatures s1 = nav_signatures s2
  /\ clock s1 = clock s2.

(** Two computations that, from states with the same verdict, end alike
    and in states with the same verdict. *)
Definition sim {A} (m1 m2 : M A) : Prop :=
  forall s1 s2, same_verdict s1 s2 ->
    fst (m1 s1) = fst (m2 s2) /\ same_verdict (snd (m1 s1)) (snd (m2 s2)).

(** * Properties *)

(** ** The colour parser *)

Lemma lit_sound : forall pat s r, PyStr.lit pat s = Some r -> s = pat +++ r.
Proof.
  induction pat as [|c pat IH]; simpl; intros s r H.
  - now inversion H.
  - destruct s as [|d s]; [discriminate|].
    destruct (Ascii.eqb c d) eqn:E; [|discriminate].
    apply Ascii.eqb_eq in E. subst d. f_equal. now apply IH.
Qed.

Lemma span_sound : forall p s a b,
  PyStr.span p s = (a, b) -> s = a +++ b /\ PyStr.str_all p a = true.
Proof.
  induction s as [|c s IH]; simpl; intros a b H.
  - inversion H. now split.
  - destruct (p c) eqn:E.
    + destruct (PyStr.span p s) as [a' b'] eqn:E'.
      inversion H; subst. destruct (IH a' b eq_refl) as [-> Ha].
      split; [reflexivity|]. simpl. now rewrite E, Ha.
    + inversion H; subst. now split.
Qed.

Lemma span_snd_sound : forall p s,
  exists a, s = a +++ snd (PyStr.span p s) /\ PyStr.str_all p a = true.
Proof.
  intros p s. destruct (PyStr.span p s) as [a b] eqn:E.
  exists a. simpl. now apply span_sound.
Qed.

Lemma truthy_nonempty : forall s, PyStr.truthy s = true -> s <> "".
Proof. now destruct s. Qed.

Lemma append_assoc : forall a b c, (a +++ b) +++ c = a +++ b +++ c.
Proof. induction a; simpl; intros; [reflexivity|now rewrite IHa]. Qed.

(** A successful match exhibits the syntax the specification describes. *)
Lemma re_match_rgb_sound : forall s g, re_match_rgb s = Some g -> rgb_syntax s.
Proof.
  intros s g H. unfold re_match_rgb in H.
  destruct (PyStr.lit "rgb" s) as [s1|] eqn:E1; [|discriminate].
  apply lit_sound in E1.
  set (s2 := match PyStr.lit "a" s1 with Some t => t | None => s1 end) in H.
  assert (Ha : exists a, s1 = a +++ s2 /\ (a = "" \/ a = "a")).
  { subst s2. destruct (PyStr.lit "a" s1) as [t|] eqn:Ea.
    - exists "a". split; [now apply lit_sound|now right].
    - exists "". split; [reflexivity|now left]. }
  destruct Ha as (a & Hs1 & Ha).
  destruct (PyStr.lit "(" s2) as [s3|] eqn:E3; [|discriminate].
  apply lit_sound in E3.
  destruct (PyStr.span PyStr.is_digit s3) as [d1 s4] eqn:E4.
  destruct (PyStr.truthy d1) eqn:T1; cbn [negb] in H; [|discriminate].
  apply span_sound in E4. destruct E4 as [E4 D1].
  destruct (span_snd_sound PyStr.is_space s4) as (w1 & E5 & W1).
  destruct (PyStr.lit "," (snd (PyStr.span PyStr.is_space s4))) as [s5|] eqn:E6; [|discriminate].
  apply lit_sound in E6.
  destruct (span_snd_sound PyStr.is_space s5) as (w2 & E7 & W2).
  destruct (PyStr.span PyStr.is_digit (snd (PyStr.span PyStr.is_space s5))) as [d2 s6] eqn:E8.
  destruct (PyStr.truthy d2) eqn:T2; cbn [negb] in H; [|discriminate].
  apply span_sound in E8. destruct E8 as [E8 D2].
  destruct (span_snd_sound PyStr.is_space s6) as (w3 & E9 & W3).
  destruct (PyStr.lit "," (snd (PyStr.span PyStr.is_space s6))) as [s7|] eqn:E10; [|discriminate].
  apply lit_sound in E10.
  destruct (span_snd_sound PyStr.is_space s7) as (w4 & E11 & W4).
  destruct (PyStr.span PyStr.is_digit (snd (PyStr.span PyStr.is_space s7))) as [d3 s8] eqn:E12.
  destruct (PyStr.truthy d3) eqn:T3; cbn [negb] in H; [|discriminate].
  apply span_sound in E12. destruct E12 as [E12 D3].
  exists a, d1, w1, w2, d2, w3, w4, d3, s8.
  repeat split; auto using truthy_nonempty.
  rewrite E1, Hs1, E3, E4, E5, E6, E7, E8, E9, E10, E11, E12.
  reflexivity.
Qed.

Lemma parse_rgb_default : forall s,
  (forall str, s = Some str -> ~ rgb_syntax str) -> parse_rgb s = black.
Proof.
  intros [str|] H; [|reflexivity].
  unfold parse_rgb. destruct (negb (PyStr.truthy str)); [reflexivity|].
  destruct (re_match_rgb str) as [g|] eqn:E; [|reflexivity].
  exfalso. apply (H str eq_refl). now apply re_match_rgb_sound with g.
Qed.

(** The matcher finds every text that has the syntax. *)

Lemma lit_complete : forall pat r, PyStr.lit pat (pat +++ r) = Some r.
Proof.
  induction pat as [|c pat IH]; intros r; simpl; [reflexivity|].
  now rewrite Ascii.eqb_refl.
Qed.

Lemma span_stops : forall p c s, p c = false -> PyStr.span p (String c s) = ("", String c s).
Proof. intros p c s H. simpl. now rewrite H. Qed.

Lemma span_app : forall p a b,
  PyStr.str_all p a = true ->
  PyStr.span p (a +++ b) = (a +++ fst (PyStr.span p b), snd (PyStr.span p b)).
Proof.
  intros p a b. induction a as [|c a IH]; simpl; intros H.
  - now destruct (PyStr.span p b).
  - apply andb_true_iff in H. destruct H as [Hc Ha]. rewrite Hc, (IH Ha). reflexivity.
Qed.

Lemma digit_not_space : forall c, PyStr.is_digit c = true -> PyStr.is_space c = false.
Proof. intros [[] [] [] [] [] [] [] []]; vm_compute; congruence. Qed.

Lemma space_not_digit : forall c, PyStr.is_space c = true -> PyStr.is_digit c = false.
Proof. intros [[] [] [] [] [] [] [] []]; vm_compute; congruence. Qed.

(** Digits, then blanks, then a comma: the digit run ends where the blanks
    start and the blank run ends at the comma. *)
Lemma span_digits_before_blanks : forall d wsp rest,
  PyStr.str_all PyStr.is_digit d = true -> blanks wsp ->
  PyStr.span PyStr.is_digit (d +++ wsp +++ String "," rest) = (d, wsp +++ String "," rest).
Proof.
  intros d wsp rest Hd Hw. rewrite span_app by exact Hd.
  assert (E : PyStr.span PyStr.is_digit (wsp +++ String "," rest)
              = ("", wsp +++ String "," rest)).
  { destruct wsp as [|c wsp']; simpl; [reflexivity|].
    unfold blanks in Hw. simpl in Hw. apply andb_true_iff in Hw. destruct Hw as [Hc _].
    now rewrite (space_not_digit c Hc). }
  rewrite E. simpl.
  assert (N : forall x, x +++ "" = x) by (induction x; simpl; congruence).
  now rewrite N.
Qed.

Lemma span_blanks_before : forall wsp c rest,
  blanks wsp -> PyStr.is_space c = false ->
  snd (PyStr.span PyStr.is_space (wsp +++ String c rest)) = String c rest.
Proof.
  intros wsp c rest Hw Hc. rewrite span_app by exact Hw. simpl. now rewrite Hc.
Qed.

Lemma digits1_head : forall d rest,
  digits1 d -> exists c t, d +++ rest = String c t /\ PyStr.is_space c = false.
Proof.
  intros d rest [Hn Hd]. destruct d as [|c d']; [contradiction|].
  exists c, (d' +++ rest). split; [reflexivity|].
  simpl in Hd. apply andb_true_iff in Hd. destruct Hd as [Hc _].
  now apply digit_not_space.
Qed.

Lemma lit_comma : forall x, PyStr.lit "," (String "," x) = Some x.
Proof. reflexivity. Qed.

Lemma re_match_rgb_complete : forall s, rgb_syntax s -> re_match_rgb s <> None.
Proof.
  intros s (a & d1 & w1 & w2 & d2 & w3 & w4 & d3 & rest & E & Ha & D1 & D2 & D3
            & W1 & W2 & W3 & W4).
  subst s. unfold re_match_rgb. rewrite lit_complete. cbv zeta.
  change (a +++ "(" +++ d1 +++ w1 +++ "," +++ w2 +++ d2 +++ w3 +++ "," +++ w4 +++ d3 +++ rest)
    with (a +++ String "(" (d1 +++ w1 +++ String ","
                              (w2 +++ d2 +++ w3 +++ String "," (w4 +++ d3 +++ rest)))).
  set (tail3 := d3 +++ rest).
  set (tail2 := d2 +++ w3 +++ String "," (w4 +++ tail3)).
  set (tail1 := d1 +++ w1 +++ String "," (w2 +++ tail2)).
  assert (P : PyStr.lit "(" (match PyStr.lit "a" (a +++ String "(" tail1) with
                             | Some t => t
                             | None => a +++ String "(" tail1
                             end) = Some tail1).
  { destruct Ha as [-> | ->]; reflexivity. }
  rewrite P. clear P. subst tail1.
  rewrite (span_digits_before_blanks d1 w1 _ (proj2 D1) W1).
  destruct (PyStr.truthy d1) eqn:T1; [|destruct D1 as [N1 _]; now destruct d1].
  cbn [negb]. rewrite (span_blanks_before w1 "," _ W1 eq_refl), lit_comma.
  destruct (digits1_head d2 (w3 +++ String "," (w4 +++ tail3)) D2) as (c2 & t2 & E2 & S2).
  subst tail2. rewrite E2, (span_blanks_before w2 c2 t2 W2 S2), <- E2.
  rewrite (span_digits_before_blanks d2 w3 _ (proj2 D2) W3).
  destruct (PyStr.truthy d2) eqn:T2; [|destruct D2 as [N2 _]; now destruct d2].
  cbn [negb]. rewrite (span_blanks_before w3 "," _ W3 eq_refl), lit_comma.
  destruct (digits1_head d3 rest D3) as (c3 & t3 & E3 & S3).
  subst tail3. rewrite E3, (span_blanks_before w4 c3 t3 W4 S3), <- E3.
  rewrite (span_app _ d3 rest (proj2 D3)).
  destruct D3 as [N3 _]. destruct d3 as [|c3' d3']; [contradiction|]. simpl.
  discriminate.
Qed.

(** The syntax of the specification and the matcher of the code agree. *)
Lemma rgb_syntax_iff_match : forall s, rgb_syntax s <-> re_match_rgb s <> None.
Proof.
  intros s. split; [apply re_match_rgb_complete|].
  intros H. destruct (re_match_rgb s) as [g|] eqn:E; [|contradiction].
  now apply re_match_rgb_sound with g.
Qed.

(** ** Contrast ratio *)

Lemma shr_1_nonneg : forall mrs, (0 <= shr_m mrs)%Z -> (0 <= shr_m (shr_1 mrs))%Z.
Proof.
  intros [m r s] H. simpl in *.
  destruct m as [|p|p]; simpl; try lia; destruct p; simpl; lia.
Qed.

Lemma iter_shr_1_nonneg : forall p mrs,
  (0 <= shr_m mrs)%Z -> (0 <= shr_m (iter_pos shr_1 p mrs))%Z.
Proof.
  induction p as [p IH|p IH|]; simpl; intros mrs H.
  - apply IH, IH, shr_1_nonneg, H.
  - apply IH, IH, H.
  - apply shr_1_nonneg, H.
Qed.

Lemma shr_fexp_nonneg : forall m e l,
  (0 <= m)%Z -> (0 <= shr_m (fst (shr_fexp prec emax m e l)))%Z.
Proof.
  intros m e l H. unfold shr_fexp, shr.
  assert (H0 : (0 <= shr_m (shr_record_of_loc m l))%Z).
  { destruct l as [|[]]; simpl; exact H. }
  destruct (fexp prec emax (Zdigits2 m + e) - e)%Z; simpl; auto.
  now apply iter_shr_1_nonneg.
Qed.

Lemma round_nearest_even_nonneg : forall mx lx,
  (0 <= mx)%Z -> (0 <= round_nearest_even mx lx)%Z.
Proof.
  intros mx lx H. destruct lx as [|[]]; simpl; try lia.
  destruct (Z.even mx); lia.
Qed.

Lemma binary_round_aux_nonneg : forall mx ex lx,
  (0 <= mx)%Z -> nonneg_sf (binary_round_aux prec emax false mx ex lx) = true.
Proof.
  intros mx ex lx H. unfold binary_round_aux.
  pose proof (shr_fexp_nonneg mx ex lx H) as H1.
  destruct (shr_fexp prec emax mx ex lx) as [mrs' e']. simpl in H1.
  pose proof (shr_fexp_nonneg _ e' loc_Exact
                (round_nearest_even_nonneg _ (loc_of_shr_record mrs') H1)) as H2.
  destruct (shr_fexp prec emax (round_nearest_even (shr_m mrs') (loc_of_shr_record mrs')) e' loc_Exact)
    as [mrs'' e'']. simpl in H2.
  destruct (shr_m mrs'') as [|m|m]; try reflexivity.
  - destruct (e'' <=? emax - prec)%Z; reflexivity.
  - lia.
Qed.

Lemma SFmul_nonneg : forall mc ec x,
  nonneg_sf x = true -> nonneg_sf (SFmul prec emax (S754_finite false mc ec) x) = true.
Proof.
  intros mc ec [s|s| |s m e] H; simpl in *; try discriminate; auto.
  destruct s; [discriminate|]. now apply binary_round_aux_nonneg.
Qed.

Lemma SFadd_nonneg : forall x y,
  nonneg_sf x = true -> nonneg_sf y = true -> nonneg_sf (SFadd prec emax x y) = true.
Proof.
  intros [sx|sx| |sx mx ex] [sy|sy| |sy my ey] Hx Hy; simpl in *;
    try discriminate; auto.
  - now destruct sx, sy.
  - now destruct sx, sy.
  - destruct sx, sy; try discriminate. simpl.
    unfold binary_round.
    destruct (shl_align _ _ _) as [mz ez].
    now apply binary_round_aux_nonneg.
Qed.

Lemma leb_zero_nonneg : forall v, (0 <=? v) = true -> nonneg_sf (Prim2SF v) = true.
Proof.
  intros v H. rewrite leb_spec in H.
  change (Prim2SF 0) with (S754_zero false) in H.
  destruct (Prim2SF v) as [s|s| |s m e]; simpl in *; auto; now destruct s.
Qed.

Lemma nonneg_not_nan : forall v, nonneg_sf (Prim2SF v) = true -> Prim2SF v <> S754_nan.
Proof. intros v H E. rewrite E in H. discriminate. Qed.

Lemma SFcompare_antisym : forall x y c,
  SFcompare x y = Some c -> SFcompare y x = Some (CompOpp c).
Proof.
  intros [sx|sx| |sx mx ex] [sy|sy| |sy my ey] c H; simpl in *;
    try discriminate; inversion H; subst; clear H;
    try (now destruct sx); try (now destruct sy); try reflexivity.
  - now destruct sx, sy.
  - f_equal. rewrite (Z.compare_antisym ex ey).
    destruct sx, sy; simpl; try reflexivity;
      destruct (ex ?= ey)%Z; simpl; try reflexivity;
      now rewrite (Pos.compare_cont_antisym mx my Eq).
Qed.

(** Two floats that compare equal give the same sum with a third. *)
Lemma compare_eq_add : forall a b,
  SFcompare (Prim2SF a) (Prim2SF b) = Some Eq -> a + 0.05 = b + 0.05.
Proof.
  intros a b H.
  assert (E : a = b \/ (Prim2SF a = S754_zero true \/ Prim2SF a = S754_zero false)
                       /\ (Prim2SF b = S754_zero true \/ Prim2SF b = S754_zero false)).
  { destruct (Prim2SF a) as [[]|[]| |[] mx ex] eqn:Ea;
      destruct (Prim2SF b) as [[]|[]| |[] my ey] eqn:Eb; simpl in H;
      try discriminate; try (right; split; auto; fail);
      left; apply Prim2SF_inj; rewrite Ea, Eb; try reflexivity;
      destruct (ex ?= ey)%Z eqn:Ee; try discriminate;
      apply Z.compare_eq in Ee; subst ey;
      destruct (Pos.compare_cont Eq mx my) eqn:Em; try discriminate;
      apply Pos.compare_eq in Em; now subst. }
  destruct E as [->|[Ha Hb]]; [reflexivity|].
  apply Prim2SF_inj. rewrite !add_spec.
  destruct Ha as [-> | ->], Hb as [-> | ->]; vm_compute; reflexivity.
Qed.

Lemma max_min_symmetric : forall a b,
  Prim2SF a <> S754_nan -> Prim2SF b <> S754_nan ->
  PyFloat.div (PyFloat.max a b + 0.05) (PyFloat.min a b + 0.05)
  = PyFloat.div (PyFloat.max b a + 0.05) (PyFloat.min b a + 0.05).
Proof.
  intros a b Ha Hb. unfold PyFloat.max, PyFloat.min.
  rewrite !ltb_spec. unfold SFltb.
  destruct (SFcompare (Prim2SF a) (Prim2SF b)) as [c|] eqn:E.
  - rewrite (SFcompare_antisym _ _ _ E).
    destruct c; simpl; try reflexivity.
    now rewrite (compare_eq_add a b E).
  - exfalso.
    destruct (Prim2SF a) as [sx|sx| |sx mx ex]; [| |now apply Ha|];
      (destruct (Prim2SF b) as [sy|sy| |sy my ey]; [| |now apply Hb|]);
      simpl in E; discriminate.
Qed.

Lemma channel_arg_ok_all :
  forallb channel_arg_ok (map Z.of_nat (seq 0 256)) = true.
Proof. vm_compute. reflexivity. Qed.

Lemma channel_arg_ok_range : forall c, (0 <= c <= 255)%Z -> channel_arg_ok c = true.
Proof.
  intros c H. pose proof channel_arg_ok_all as A.
  rewrite forallb_forall in A. apply A.
  apply in_map_iff. exists (Z.to_nat c). split; [lia|].
  apply in_seq. lia.
Qed.

Section Contrast.

(** What the C library's [pow] is assumed to do on the arguments the
    channels give it: a base in the unit interval has a non-negative power,
    and [1 ** y] is [1]. *)
Hypothesis pow_nonneg : forall x,
  (0 <=? x) = true -> (x <=? 1) = true ->
  exists v, pow x 2.4 = Val v /\ (0 <=? v) = true.
Hypothesis pow_one : pow 1 2.4 = Val 1.

Lemma channel_nonneg : forall c, (0 <= c <= 255)%Z ->
  exists v, channel c = Val v /\ nonneg_sf (Prim2SF v) = true.
Proof.
  intros c H. apply channel_arg_ok_range in H.
  unfold channel_arg_ok in H. unfold channel.
  destruct (PyFloat.of_int c) as [c0|e]; [|discriminate]. simpl.
  destruct (c0 / 255 <=? 0.03928).
  - eexists. split; [reflexivity|]. now apply leb_zero_nonneg.
  - apply andb_true_iff in H. destruct H as [H0 H1].
    destruct (pow_nonneg _ H0 H1) as (v & -> & Hv).
    exists v. split; [reflexivity|]. now apply leb_zero_nonneg.
Qed.

Lemma weighted_nonneg : forall k v,
  nonneg_sf (Prim2SF k) = true -> Prim2SF k <> S754_zero false -> Prim2SF k <> S754_zero true ->
  Prim2SF k <> S754_infinity false ->
  nonneg_sf (Prim2SF v) = true -> nonneg_sf (Prim2SF (k * v)) = true.
Proof.
  intros k v Hk Z1 Z2 I Hv. rewrite mul_spec. unfold SF64mul.
  destruct (Prim2SF k) as [[]|[]| |[] m e]; try discriminate; try congruence.
  now apply SFmul_nonneg.
Qed.

Lemma relative_luminance_nonneg : forall c, rgb_in_range c ->
  exists v, relative_luminance c = Val v /\ nonneg_sf (Prim2SF v) = true.
Proof.
  intros [[r g] b] (Hr & Hg & Hb). unfold relative_luminance.
  destruct (channel_nonneg r Hr) as (vr & -> & Nr).
  destruct (channel_nonneg g Hg) as (vg & -> & Ng).
  destruct (channel_nonneg b Hb) as (vb & -> & Nb).
  simpl. eexists. split; [reflexivity|].
  rewrite !add_spec. unfold SF64add.
  repeat apply SFadd_nonneg; apply weighted_nonneg; auto; vm_compute; congruence.
Qed.

Lemma contrast_ratio_symmetric : forall fg bg,
  rgb_in_range fg -> rgb_in_range bg -> contrast_ratio fg bg = contrast_ratio bg fg.
Proof.
  intros fg bg Hf Hb. unfold contrast_ratio.
  destruct (relative_luminance_nonneg fg Hf) as (a & -> & Na).
  destruct (relative_luminance_nonneg bg Hb) as (b & -> & Nb).
  simpl. apply max_min_symmetric; now apply nonneg_not_nan.
Qed.

Lemma channel_0 : channel 0 = Val 0.
Proof. vm_compute. reflexivity. Qed.

Lemma channel_255 : channel 255 = Val 1.
Proof. transitivity (pow 1 2.4); [vm_compute; reflexivity|exact pow_one]. Qed.

Lemma contrast_black_white : contrast_ratio black white = Val 21.
Proof.
  unfold contrast_ratio, relative_luminance, black, white.
  rewrite channel_0, channel_255. vm_compute. reflexivity.
Qed.

(** C5. For RGB colours (channels within 0..255), [contrast_ratio fg bg]
    equals [contrast_ratio bg fg]; black against white gives 21.0 (exactly,
    hence within 0.01); the luminance is 0.2126 R + 0.7152 G + 0.0722 B over
    the gamma-corrected channels and the ratio is
    (Lmax + 0.05) / (Lmin + 0.05). *)
Theorem contrast_ratio_symmetric_black_white_21 :
  (forall fg bg, rgb_in_range fg -> rgb_in_range bg ->
     contrast_ratio fg bg = contrast_ratio bg fg)
  /\ contrast_ratio black white = Val 21
  /\ (forall r g b cr cg cb,
        channel r = Val cr -> channel g = Val cg -> channel b = Val cb ->
        relative_luminance (r, g, b) = Val (0.2126 * cr + 0.7152 * cg + 0.0722 * cb))
  /\ (forall fg bg L1 L2,
        relative_luminance fg = Val L1 -> relative_luminance bg = Val L2 ->
        contrast_ratio fg bg
        = PyFloat.div (PyFloat.max L1 L2 + 0.05) (PyFloat.min L1 L2 + 0.05)).
Proof.
  split; [exact contrast_ratio_symmetric|].
  split; [exact contrast_black_white|].
  split.
  - intros r g b cr cg cb Hr Hg Hb. unfold relative_luminance.
    now rewrite Hr, Hg, Hb.
  - intros fg bg L1 L2 H1 H2. unfold contrast_ratio. now rewrite H1, H2.
Qed.

End Contrast.

(** ** Evidence capture and reporting *)

Lemma capture_rule_screenshot_spec : forall rects key label s,
  let name := shot_name (w_uuid w (S (clock s))) key in
  capture_rule_screenshot rects key label s
  = (Val name, after_capture s (path_join screenshots_dir name)).
Proof.
  intros. unfold capture_rule_screenshot, swallow, try_except, bind, ask, ret,
    save_screenshot, after_capture, add_file, tick. simpl.
  destruct (w_overlay w (clock s) _); simpl;
    fold name; destruct (w_save w (S (S (clock s))) (path_join screenshots_dir name))
      as [[]|]; simpl;
    destruct (w_cleanup w (S (S (S (clock s))))); reflexivity.
Qed.

Lemma report_spec : forall rects key label name link desc sev s,
  let shot := shot_name (w_uuid w (S (clock s))) key in
  report rects key label name link desc sev s
  = (Val tt, with_issue (after_capture s (path_join screenshots_dir shot))
                        (mkFinding name link desc sev (Some shot))).
Proof.
  intros. unfold report, bind. rewrite capture_rule_screenshot_spec. reflexivity.
Qed.

(** ** Following a scan step by step *)

Section StepRules.

Context {R : State -> State -> Prop} {ok : string -> string -> Prop}
        {HR : StepRel R ok}.

Lemma steps_same : forall A (m : M A), (forall s, snd (m s) = s) -> steps R m.
Proof. intros A m H s. rewrite H. apply step_refl. Qed.

Lemma steps_ret : forall A (a : A), steps R (ret a).
Proof. intros. now apply steps_same. Qed.

Lemma steps_raise : forall A e, steps R (@raise A e).
Proof. intros. now apply steps_same. Qed.

Lemma steps_lift : forall A (r : res A), steps R (lift r).
Proof. intros. now apply steps_same. Qed.

Lemma steps_get_state : steps R get_state.
Proof. now apply steps_same. Qed.

Lemma steps_ask : forall A (q : nat -> res A), steps R (ask q).
Proof. intros A q s. apply step_tick. Qed.

Lemma steps_set_title : forall k v, steps R (set_title k v).
Proof. intros k v s. apply step_title. Qed.

Lemma steps_set_nav : forall k v, steps R (set_nav k v).
Proof. intros k v s. apply step_nav. Qed.

Lemma steps_append_page_shot : forall p, steps R (append_page_shot p).
Proof. intros p s. apply step_page_shot. Qed.

Lemma steps_save_screenshot : forall p, steps R (save_screenshot p).
Proof.
  intros p s. unfold save_screenshot.
  destruct (w_save w (clock s) p) as [[]|]; simpl; try apply step_tick.
  eapply step_trans; [apply step_tick|apply step_add_file].
Qed.

Lemma steps_bind : forall A B (m : M A) (f : A -> M B),
  steps R m -> (forall a, steps R (f a)) -> steps R (bind m f).
Proof.
  intros A B m f Hm Hf s. unfold bind. specialize (Hm s).
  destruct (m s) as [[a|e] s1]; simpl in *; [|exact Hm].
  eapply step_trans; [exact Hm|apply Hf].
Qed.

(** The continuation of a lifted result only meets the value it holds. *)
Lemma steps_bind_lift : forall A B (r : res A) (f : A -> M B),
  (forall a, r = Val a -> steps R (f a)) -> steps R (bind (lift r) f).
Proof.
  intros A B r f H s. unfold bind, lift. destruct r as [a|e].
  - apply (H a eq_refl).
  - apply step_refl.
Qed.

Lemma steps_try_except : forall A (m : M A) (h : string -> M A),
  steps R m -> (forall e, steps R (h e)) -> steps R (try_except m h).
Proof.
  intros A m h Hm Hh s. unfold try_except. specialize (Hm s).
  destruct (m s) as [[a|e] s1]; simpl in *; [exact Hm|].
  eapply step_trans; [exact Hm|apply Hh].
Qed.

Lemma steps_when : forall c (m : M unit), steps R m -> steps R (when c m).
Proof. intros [] m H; [exact H|apply steps_ret]. Qed.

Lemma steps_for_each : forall A (l : list A) (body : A -> M flow),
  (forall x, steps R (body x)) -> steps R (for_each l body).
Proof.
  intros A l body H. induction l as [|x l IH]; simpl.
  - apply steps_ret.
  - apply steps_bind; [apply H|]. intros []; [exact IH|apply steps_ret].
Qed.

Lemma steps_swallow : forall A (m : M A), steps R m -> steps R (swallow m).
Proof.
  intros A m H. unfold swallow. apply steps_try_except.
  - apply steps_bind; [exact H|]. intros. apply steps_ret.
  - intros. apply steps_ret.
Qed.

Lemma steps_report : forall rects key label name link desc sev,
  ok name sev -> steps R (report rects key label name link desc sev).
Proof. intros. intros s. rewrite report_spec. now apply step_report. Qed.

Lemma steps_append_plain : forall f, plain_ok ok f -> steps R (append_issue f).
Proof.
  intros [name link desc sev ev] [E O] s. simpl in E, O. subst ev.
  now apply step_plain.
Qed.

Lemma steps_append_issues : forall l,
  Forall (plain_ok ok) l -> steps R (append_issues l).
Proof.
  intros l H. induction H as [|f l Hf Hl IH]; simpl.
  - apply steps_ret.
  - apply steps_bind; [now apply steps_append_plain|intros _; exact IH].
Qed.

(** One step of a proof that follows the syntax of a rule block. *)
Ltac steps_step :=
  first
    [ apply steps_ret
    | apply steps_ask
    | apply steps_lift
    | apply steps_set_title
    | apply steps_set_nav
    | apply steps_get_state
    | apply steps_save_screenshot
    | apply steps_append_page_shot
    | apply steps_report
    | apply steps_when
    | apply steps_bind; [|intros ?]
    | apply steps_try_except; [|intros ?]
    | apply steps_for_each; intros ?
    | match goal with
      | |- steps _ (if ?b then _ else _) => destruct b
      | |- steps _ (match ?x with _ => _ end) => destruct x
      end ].

Ltac in_list := simpl; repeat first [left; reflexivity|right].

Ltac steps_rule H := intros; repeat steps_step; try (apply H; in_list).

Lemma rule_title_steps : forall link soup,
  ok_on ok title_table -> steps R (rule_title link soup).
Proof. intros link soup H. unfold rule_title. steps_rule H. Qed.

Lemma rule_headings_steps : forall link soup,
  ok_on ok later_rules_table -> steps R (rule_headings link soup).
Proof. intros link soup H. unfold rule_headings. steps_rule H. Qed.

Lemma rule_alt_steps : forall link soup,
  ok_on ok later_rules_table -> steps R (rule_alt link soup).
Proof. intros link soup H. unfold rule_alt. steps_rule H. Qed.

Lemma rule_viewport_steps : forall link soup,
  ok_on ok later_rules_table -> steps R (rule_viewport link soup).
Proof. intros link soup H. unfold rule_viewport. steps_rule H. Qed.

Lemma rule_links_steps : forall link soup,
  ok_on ok later_rules_table -> steps R (rule_links link soup).
Proof.
  intros link soup H.
  unfold rule_links, check_anchor, link_text_check, link_liveness. steps_rule H.
Qed.

Lemma rule_contrast_steps : forall link styles,
  ok_on ok later_rules_table -> steps R (rule_contrast link styles).
Proof. intros link styles H. unfold rule_contrast. steps_rule H. Qed.

Lemma rule_keyboard_steps : forall link,
  ok_on ok later_rules_table -> steps R (rule_keyboard link).
Proof. intros link H. unfold rule_keyboard. steps_rule H. Qed.

Lemma rule_forms_steps : forall link soup,
  ok_on ok later_rules_table -> steps R (rule_forms link soup).
Proof. intros link soup H. unfold rule_forms. steps_rule H. Qed.

Lemma rule_nav_steps : forall link soup, steps R (rule_nav link soup).
Proof. intros. unfold rule_nav. apply steps_set_nav. Qed.

Lemma rule_feedback_steps : forall link soup,
  ok_on ok later_rules_table -> steps R (rule_feedback link soup).
Proof. intros link soup H. unfold rule_feedback. steps_rule H. Qed.

Lemma rule_readability_steps : forall link styles,
  ok_on ok later_rules_table -> steps R (rule_readability link styles).
Proof. intros link styles H. unfold rule_readability. steps_rule H. Qed.

Lemma rule_performance_steps : forall link,
  ok_on ok later_rules_table -> steps R (rule_performance link).
Proof. intros link H. unfold rule_performance. steps_rule H. Qed.

Lemma rule_images_steps : forall link soup,
  ok_on ok later_rules_table -> steps R (rule_images link soup).
Proof. intros link soup H. unfold rule_images. steps_rule H. Qed.

Lemma later_rules_steps : forall link soup styles,
  ok_on ok later_rules_table -> steps R (later_rules link soup styles).
Proof.
  intros link soup styles H. unfold later_rules.
  repeat (apply steps_bind;
          [solve [auto using rule_headings_steps, rule_alt_steps, rule_viewport_steps,
                    rule_links_steps, rule_contrast_steps, rule_keyboard_steps,
                    rule_forms_steps, rule_nav_steps, rule_feedback_steps,
                    rule_readability_steps, rule_performance_steps]
          |intros _]).
  now apply rule_images_steps.
Qed.

Lemma ok_on_app : forall T1 T2, ok_on ok (T1 ++ T2) -> ok_on ok T1 /\ ok_on ok T2.
Proof.
  intros T1 T2 H. split; intros n sv I; apply H, in_or_app; auto.
Qed.

Lemma load_page_steps : forall link, steps R (load_page link).
Proof. intros. unfold load_page. repeat steps_step. Qed.

Lemma run_rules_steps : forall link soup styles,
  ok_on ok (title_table ++ later_rules_table) -> steps R (run_rules link soup styles).
Proof.
  intros link soup styles H. apply ok_on_app in H. destruct H as [H1 H2].
  unfold run_rules. apply steps_bind; [now apply rule_title_steps|intros _].
  now apply later_rules_steps.
Qed.

Lemma page_body_steps : forall link,
  ok_on ok (title_table ++ later_rules_table) -> steps R (page_body link).
Proof.
  intros link H. unfold page_body. apply steps_bind; [apply load_page_steps|].
  intros. now apply run_rules_steps.
Qed.

Lemma scan_table_parts : ok_on ok scan_table ->
  ok_on ok (title_table ++ later_rules_table)
  /\ ok "Page load error" "High" /\ ok "Non-unique page title" "Medium"
  /\ ok "Inconsistent navigation" "Low".
Proof.
  intros H. unfold scan_table in H. rewrite app_assoc in H.
  apply ok_on_app in H. destruct H as [H1 H2].
  split; [exact H1|]. repeat split; apply H2; simpl; auto.
Qed.

Lemma scan_page_steps : forall link, ok_on ok scan_table -> steps R (scan_page link).
Proof.
  intros link H. apply scan_table_parts in H. destruct H as (H1 & H2 & _).
  unfold scan_page. apply steps_try_except; [now apply page_body_steps|].
  intros e. apply steps_append_plain. now split.
Qed.

Lemma scan_pages_steps : forall urls, ok_on ok scan_table -> steps R (scan_pages urls).
Proof.
  intros urls H. induction urls as [|link rest IH]; simpl; [apply steps_ret|].
  apply steps_bind; [now apply scan_page_steps|intros _; exact IH].
Qed.

Lemma flat_map_Forall : forall A B (P : B -> Prop) (f : A -> list B) l,
  (forall a, Forall P (f a)) -> Forall P (flat_map f l).
Proof.
  intros A B P f l H. induction l as [|a l IH]; simpl; [constructor|].
  apply Forall_app. split; [apply H|exact IH].
Qed.

Lemma duplicate_title_findings_plain : forall tm,
  ok "Non-unique page title" "Medium" ->
  Forall (plain_ok ok) (duplicate_title_findings tm).
Proof.
  intros tm H. unfold duplicate_title_findings.
  destruct (1 <? List.length tm)%nat; [|constructor].
  apply flat_map_Forall. intros [page t]. simpl.
  destruct (PyStr.mem t _); [constructor; [now split|constructor]|constructor].
Qed.

Lemma inconsistent_nav_findings_plain : forall ns l,
  ok "Inconsistent navigation" "Low" ->
  inconsistent_nav_findings ns = Val l -> Forall (plain_ok ok) l.
Proof.
  intros ns l H. unfold inconsistent_nav_findings.
  destruct (1 <? List.length ns)%nat.
  - destruct (majority (dict_values ns)) as [maj|e]; simpl; [|discriminate].
    intros E. inversion E; subst. apply flat_map_Forall. intros [page sig]. simpl.
    destruct (_ && _ && _); [constructor; [now split|constructor]|constructor].
  - intros E. inversion E. constructor.
Qed.

Lemma cross_page_steps : ok_on ok scan_table -> steps R cross_page.
Proof.
  intros H. apply scan_table_parts in H. destruct H as (_ & _ & H3 & H4).
  unfold cross_page. apply steps_bind; [apply steps_get_state|intros s0].
  apply steps_bind; [now apply steps_append_issues, duplicate_title_findings_plain|intros _].
  apply steps_bind_lift. intros l E.
  apply steps_append_issues. now apply inconsistent_nav_findings_plain with (nav_signatures s0).
Qed.

Lemma scan_steps : forall urls, ok_on ok scan_table -> steps R (scan urls).
Proof.
  intros urls H. unfold scan.
  apply steps_bind; [apply steps_ask|intros _].
  apply steps_bind; [apply steps_swallow, steps_ask|intros _].
  apply steps_bind; [now apply scan_pages_steps|intros _].
  apply steps_bind; [now apply cross_page_steps|intros _].
  apply steps_ask.
Qed.

End StepRules.

(** ** What a scan can append *)

#[local] Instance appended_rel (T : list (string * string)) :
  StepRel (appended (in_table T)) (fun n sv => In (n, sv) T).
Proof.
  assert (same : forall s s', issues s' = issues s -> appended (in_table T) s s').
  { intros s s' E. exists []. rewrite app_nil_r. split; [exact E|constructor]. }
  constructor; intros; try (apply same; reflexivity).
  - destruct H as (l1 & E1 & F1), H0 as (l2 & E2 & F2).
    exists (l1 ++ l2). rewrite E2, E1, app_assoc. split; [reflexivity|].
    apply Forall_app. now split.
  - eexists. split; [reflexivity|]. constructor; [exact H|constructor].
  - eexists. split; [reflexivity|]. constructor; [exact H|constructor].
Qed.

Lemma adds_unchanged : forall A (m : M A),
  adds (in_table []) m -> forall s, issues (snd (m s)) = issues s.
Proof.
  intros A m H s. destruct (H s) as (l & E & F).
  destruct l as [|f l]; [now rewrite app_nil_r in E|].
  inversion F; contradiction.
Qed.

Lemma load_page_unchanged : forall link s, issues (snd (load_page link s)) = issues s.
Proof. intros link. apply adds_unchanged. unfold adds. apply load_page_steps. Qed.

Lemma ok_on_table : forall T, ok_on (fun n sv => In (n, sv) T) T.
Proof. intros T n sv H. exact H. Qed.

Lemma later_rules_adds : forall link soup styles,
  adds (in_table later_rules_table) (later_rules link soup styles).
Proof. intros. apply later_rules_steps, ok_on_table. Qed.

Lemma run_rules_adds : forall link soup styles,
  adds (in_table (title_table ++ later_rules_table)) (run_rules link soup styles).
Proof. intros. apply run_rules_steps, ok_on_table. Qed.

Lemma scan_adds : forall urls, adds (in_table scan_table) (scan urls).
Proof. intros. apply scan_steps, ok_on_table. Qed.

Lemma scan_table_severity : forall f, in_table scan_table f -> severity_ok f.
Proof.
  intros f H. unfold in_table, scan_table, title_table, later_rules_table in H.
  simpl in H. unfold severity_ok.
  repeat (destruct H as [H|H]; [inversion H; auto|]). contradiction.
Qed.

(** C10. Every finding in the list [run_scan] returns has the severity
    "High", "Medium" or "Low"; this holds of [issues] at the end of every
    scan, whatever the pages contain and whichever calls raise. *)
Theorem run_scan_severities : forall urls,
  Forall severity_ok (issues (snd (scan urls init_state)))
  /\ (forall found shots, run_scan urls = Val (found, shots) -> Forall severity_ok found).
Proof.
  intros urls.
  assert (H : Forall severity_ok (issues (snd (scan urls init_state)))).
  { destruct (scan_adds urls init_state) as (l & E & F).
    rewrite E. simpl. eapply Forall_impl; [|exact F]. apply scan_table_severity. }
  split; [exact H|].
  intros found shots R. unfold run_scan in R.
  destruct (scan urls init_state) as [[[]|e] s]; [|discriminate].
  inversion R; subst. exact H.
Qed.

(** ** Page-level exceptions *)

Lemma scan_page_never_raises : forall link s, fst (scan_page link s) = Val tt.
Proof.
  intros. unfold scan_page, try_except.
  destruct (page_body link s) as [[[]|e] s1]; reflexivity.
Qed.

Lemma scan_pages_cons : forall link rest s,
  scan_pages (link :: rest) s = scan_pages rest (snd (scan_page link s)).
Proof.
  intros. simpl. unfold bind.
  pose proof (scan_page_never_raises link s) as H.
  destruct (scan_page link s) as [[[]|e] s1]; simpl in *; [reflexivity|discriminate].
Qed.

Lemma in_table_not_named : forall T name f,
  (forall sev, ~ In (name, sev) T) -> in_table T f -> rule_name f <> name.
Proof. intros T name f H I E. unfold in_table in I. rewrite E in I. now apply H in I. Qed.

Lemma rule_tables_no_page_load_error : forall sev,
  ~ In ("Page load error", sev) (title_table ++ later_rules_table).
Proof.
  intros sev H. simpl in H.
  repeat (destruct H as [H|H]; [discriminate|]). contradiction.
Qed.

(** C7. An exception that leaves the page's [try] block is caught at the
    page level: the iteration ends normally, the findings the page had
    already produced stay, exactly one finding "Page load error", severity
    "High", is appended with the exception text as description and no
    evidence, and the loop goes on with the next URL. Navigation
    ([driver.get]), [driver.page_source] and the script that reads the
    computed styles raise in that block, and then "Page load error" is the
    only finding of the page. The page screenshot does not: its exception is
    handled where it is raised, the page gets no entry in
    [page_screenshots] and no finding for it, and extraction goes on. *)
Theorem page_exception_recorded_once : forall link rest s,
  (forall e s1,
     page_body link s = (Raise e, s1) ->
     exists l,
       issues s1 = issues s ++ l
       /\ Forall (fun f => rule_name f <> "Page load error") l
       /\ scan_page link s
          = (Val tt, with_issue s1 (mkFinding "Page load error" link e "High" None))
       /\ scan_pages (link :: rest) s
          = scan_pages rest (with_issue s1 (mkFinding "Page load error" link e "High" None))
       /\ (forall e', fst (load_page link s) = Raise e' -> e' = e /\ l = []))
  /\ (forall e,
        w_get w (clock s) link = Raise e ->
        scan_page link s
        = (Val tt, with_issue (tick s) (mkFinding "Page load error" link e "High" None)))
  /\ (forall e,
        w_get w (clock s) link = Val tt ->
        w_source w (3 + clock s) link = Raise e
        \/ (exists soup, w_source w (3 + clock s) link = Val soup)
           /\ w_styles w (4 + clock s) link = Raise e ->
        exists s1,
          scan_page link s
          = (Val tt, with_issue s1 (mkFinding "Page load error" link e "High" None))
          /\ issues s1 = issues s)
  /\ (forall e soup styles,
        w_get w (clock s) link = Val tt ->
        w_save w (2 + clock s)
          (path_join screenshots_dir (shot_name (w_uuid w (S (clock s))) "page"))
        = Raise e ->
        w_source w (3 + clock s) link = Val soup ->
        w_styles w (4 + clock s) link = Val styles ->
        load_page link s
        = (Val (soup, styles),
           mkState (issues s) (page_screenshots s) (title_map s) (nav_signatures s)
                   (files s) (5 + clock s))).
Proof.
  intros link rest s. split; [|split; [|split]].
  - intros e s1 H.
    assert (Hs : scan_page link s
                 = (Val tt, with_issue s1 (mkFinding "Page load error" link e "High" None))).
    { unfold scan_page, try_except. rewrite H. reflexivity. }
    assert (Hc : scan_pages (link :: rest) s
                 = scan_pages rest
                     (with_issue s1 (mkFinding "Page load error" link e "High" None))).
    { rewrite scan_pages_cons, Hs. reflexivity. }
    unfold page_body, bind in H.
    pose proof (load_page_unchanged link s) as L.
    destruct (load_page link s) as [[[soup styles]|e0] s0] eqn:E; simpl in H, L |- *.
    + destruct (run_rules_adds link soup styles s0) as (l & El & Fl).
      rewrite H in El. simpl in El. exists l. rewrite <- L.
      split; [exact El|]. split.
      { eapply Forall_impl; [|exact Fl]. intros f.
        apply in_table_not_named, rule_tables_no_page_load_error. }
      split; [exact Hs|]. split; [exact Hc|discriminate].
    + inversion H; subst. exists []. rewrite app_nil_r.
      split; [exact L|]. split; [constructor|].
      split; [exact Hs|]. split; [exact Hc|].
      intros e' He. inversion He. now split.
  - intros e G. unfold scan_page, try_except, page_body, load_page, bind, ask.
    rewrite G. reflexivity.
  - intros e G Hx. cbn [Nat.add] in Hx.
    unfold scan_page, page_body, load_page, save_screenshot, append_page_shot.
    unfold try_except, bind, ask, ret. rewrite G. cbn [fst snd clock tick].
    destruct (w_save w (S (S (clock s))) _) as [[|]|e0];
      cbn [fst snd clock tick add_file];
      (destruct Hx as [X|[[soup X] Y]];
       [rewrite X; eexists; split; reflexivity
       |rewrite X; cbn [fst snd clock tick]; rewrite Y; eexists; split; reflexivity]).
  - intros e soup styles G V X Y. cbn [Nat.add] in V, X, Y |- *.
    unfold load_page, save_screenshot, append_page_shot.
    unfold try_except, bind, ask, ret. rewrite G. cbn [fst snd clock tick].
    rewrite V. cbn [fst snd clock tick]. rewrite X. cbn [fst snd clock tick].
    rewrite Y. reflexivity.
Qed.

(** ** Title quality *)

Lemma count_rule_app : forall name l1 l2,
  count_rule name (l1 ++ l2) = (count_rule name l1 + count_rule name l2)%nat.
Proof. intros. unfold count_rule. now rewrite filter_app, length_app. Qed.

Lemma count_rule_none : forall name l,
  Forall (fun f => rule_name f <> name) l -> count_rule name l = 0%nat.
Proof.
  intros name l H. unfold count_rule. induction H as [|f l Hf Hl IH]; simpl; [reflexivity|].
  destruct (String.eqb (rule_name f) name) eqn:E; [|exact IH].
  apply String.eqb_eq in E. contradiction.
Qed.

Lemma later_rules_table_no_title : forall sev,
  ~ In ("Page title not descriptive", sev) later_rules_table.
Proof.
  intros sev H. simpl in H.
  repeat (destruct H as [H|H]; [discriminate|]). contradiction.
Qed.

Lemma lstrip_blanks : forall t, blanks t -> PyStr.lstrip t = "".
Proof.
  unfold blanks. induction t as [|c t IH]; simpl; intros H; [reflexivity|].
  apply andb_true_iff in H. destruct H as [Hc Ht]. rewrite Hc. now apply IH.
Qed.

Lemma strip_blanks : forall t, blanks t -> PyStr.strip t = "".
Proof. intros t H. unfold PyStr.strip. now rewrite lstrip_blanks. Qed.

Lemma title_condition : forall t,
  negb (PyStr.truthy t) || (String.length t <? 5)%nat = (String.length t <? 5)%nat.
Proof. now destruct t. Qed.

Lemma rule_title_spec : forall link soup s,
  exists s2,
    rule_title link soup s = (Val tt, s2)
    /\ issues s2
       = issues s
         ++ (if (String.length (page_title soup) <? 5)%nat
             then [title_finding link (shot_name (w_uuid w (S (clock s))) "title")]
             else []).
Proof.
  intros. unfold rule_title. rewrite title_condition. unfold bind, when.
  destruct (String.length (page_title soup) <? 5)%nat.
  - rewrite report_spec. eexists. split; reflexivity.
  - eexists. split; [reflexivity|]. simpl. now rewrite app_nil_r.
Qed.

Lemma rstrip_step : forall c s,
  PyStr.rstrip (String c s)
  = match PyStr.rstrip s with
    | EmptyString => if PyStr.is_space c then EmptyString else String c EmptyString
    | t => String c t
    end.
Proof. reflexivity. Qed.

Lemma rstrip_cons : forall c s,
  PyStr.is_space c = false -> PyStr.rstrip (String c s) = String c (PyStr.rstrip s).
Proof.
  intros c s H. rewrite rstrip_step, H. now destruct (PyStr.rstrip s).
Qed.

Lemma lstrip_head : forall s,
  PyStr.lstrip s = "" \/ exists c t, PyStr.lstrip s = String c t /\ PyStr.is_space c = false.
Proof.
  induction s as [|c s IH]; cbn [PyStr.lstrip]; [now left|].
  destruct (PyStr.is_space c) eqn:Sc; [exact IH|]. right. now exists c, s.
Qed.

Lemma lstrip_app_blanks : forall pre x,
  blanks pre -> PyStr.lstrip (pre +++ x) = PyStr.lstrip x.
Proof.
  unfold blanks. induction pre as [|c pre IH]; intros x H; [reflexivity|].
  cbn [PyStr.str_all] in H. apply andb_true_iff in H. destruct H as [Hc Hp].
  cbn [String.append PyStr.lstrip]. rewrite Hc. now apply IH.
Qed.

Lemma rstrip_blanks : forall post, blanks post -> PyStr.rstrip post = "".
Proof.
  unfold blanks. induction post as [|c post IH]; intros H; [reflexivity|].
  cbn [PyStr.str_all] in H. apply andb_true_iff in H. destruct H as [Hc Hp].
  rewrite rstrip_step, (IH Hp), Hc. reflexivity.
Qed.

Lemma rstrip_app_blanks : forall x post,
  blanks post -> PyStr.rstrip (x +++ post) = PyStr.rstrip x.
Proof.
  induction x as [|c x IH]; intros post H; cbn [String.append].
  - now apply rstrip_blanks.
  - rewrite !rstrip_step, (IH post H). reflexivity.
Qed.

Lemma rstrip_trimmed : forall core,
  (forall init c, core = init +++ String c "" -> PyStr.is_space c = false) ->
  PyStr.rstrip core = core.
Proof.
  induction core as [|c t IH]; intros H; [reflexivity|].
  rewrite rstrip_step. destruct t as [|d t'].
  - cbn [PyStr.rstrip]. now rewrite (H "" c eq_refl).
  - rewrite IH; [reflexivity|]. intros init c' E.
    apply (H (String c init) c'). cbn [String.append]. now rewrite E.
Qed.

(** Stripping removes the white space around a trimmed text, and nothing
    else. *)
Lemma strip_core : forall pre core post,
  blanks pre -> blanks post -> trimmed core ->
  PyStr.strip (pre +++ core +++ post) = core.
Proof.
  intros pre core post Hpre Hpost [Hh Hl]. unfold PyStr.strip.
  rewrite (lstrip_app_blanks pre _ Hpre).
  destruct core as [|c t].
  - cbn [String.append]. now rewrite (lstrip_blanks post Hpost).
  - cbn [String.append PyStr.lstrip]. rewrite (Hh c t eq_refl).
    change (String c (t +++ post)) with (String c t +++ post).
    rewrite (rstrip_app_blanks _ post Hpost). now apply rstrip_trimmed.
Qed.

Lemma lstrip_split : forall t, exists pre, t = pre +++ PyStr.lstrip t /\ blanks pre.
Proof.
  unfold blanks. induction t as [|c t (pre & E & B)]; [now exists ""|].
  cbn [PyStr.lstrip]. destruct (PyStr.is_space c) eqn:Sc.
  - exists (String c pre). cbn [String.append PyStr.str_all]. rewrite Sc, B.
    split; [now rewrite <- E|reflexivity].
  - now exists "".
Qed.

Lemma rstrip_split : forall x, exists post, x = PyStr.rstrip x +++ post /\ blanks post.
Proof.
  unfold blanks. induction x as [|c x (post & E & B)]; [now exists ""|].
  rewrite rstrip_step. destruct (PyStr.rstrip x) as [|d t] eqn:R.
  - cbn [String.append] in E. subst post. destruct (PyStr.is_space c) eqn:Sc.
    + exists (String c x). cbn [String.append PyStr.str_all]. now rewrite Sc, B.
    + exists x. now split.
  - exists post. cbn [String.append] in *. split; [now rewrite <- E|exact B].
Qed.

Lemma rstrip_last : forall x init c,
  PyStr.rstrip x = init +++ String c "" -> PyStr.is_space c = false.
Proof.
  induction x as [|a x IH]; intros init c E.
  - destruct init; discriminate.
  - rewrite rstrip_step in E. destruct (PyStr.rstrip x) as [|d t] eqn:R.
    + destruct (PyStr.is_space a) eqn:Sa; [destruct init; discriminate|].
      destruct init as [|b init]; cbn [String.append] in E.
      * now inversion E; subst.
      * inversion E. destruct init; discriminate.
    + destruct init as [|b init]; cbn [String.append] in E; [discriminate|].
      inversion E. now apply (IH init c).
Qed.

Lemma strip_trimmed : forall t, trimmed (PyStr.strip t).
Proof.
  intros t. unfold PyStr.strip. split.
  - intros c rest E. destruct (lstrip_head t) as [L|(d & u & L & Sd)]; rewrite L in E.
    + discriminate.
    + rewrite (rstrip_cons d u Sd) in E. now inversion E; subst.
  - intros init c E. now apply (rstrip_last (PyStr.lstrip t) init c).
Qed.

(** Every text is a trimmed text with white space around it. *)
Lemma title_core_exists : forall t,
  exists pre core post,
    t = pre +++ core +++ post /\ blanks pre /\ blanks post /\ trimmed core.
Proof.
  intros t. destruct (lstrip_split t) as (pre & E1 & B1).
  destruct (rstrip_split (PyStr.lstrip t)) as (post & E2 & B2).
  exists pre, (PyStr.strip t), post. unfold PyStr.strip at 1.
  rewrite <- E2. split; [exact E1|]. split; [exact B1|]. split; [exact B2|].
  apply strip_trimmed.
Qed.

Lemma page_title_core : forall soup pre core post,
  soup_title soup = Some (Some (pre +++ core +++ post)) ->
  blanks pre -> blanks post -> trimmed core ->
  page_title soup = core.
Proof.
  intros soup pre core post H B1 B2 T. unfold page_title. rewrite H.
  destruct (PyStr.truthy (pre +++ core +++ post)) eqn:E; [now apply strip_core|].
  destruct pre; [|discriminate]. destruct core; [reflexivity|discriminate].
Qed.

(** C4. For a page whose navigation and signal extraction succeeded, the
    scan of the page appends exactly one finding "Page title not
    descriptive", of severity "High", when the page has no [<title>], when
    its [<title>] has no text, and when the text of [<title>], without the
    white space around it, has fewer than 5 characters (so also when it is
    white space only); it appends none when that text has 5 characters or
    more. Every text of a [<title>] is covered: it is a text without white
    space at its ends, with white space around it. *)
Theorem title_quality_exactly_once : forall link s soup styles s1,
  load_page link s = (Val (soup, styles), s1) ->
  exists added,
    issues (snd (scan_page link s)) = issues s ++ added
    /\ Forall (fun f => rule_name f = "Page title not descriptive" -> severity f = "High")
              added
    /\ (soup_title soup = None \/ soup_title soup = Some None ->
        count_rule "Page title not descriptive" added = 1%nat)
    /\ (forall pre core post,
          soup_title soup = Some (Some (pre +++ core +++ post)) ->
          blanks pre -> blanks post -> trimmed core ->
          count_rule "Page title not descriptive" added
          = (if (String.length core <? 5)%nat then 1 else 0)%nat)
    /\ (forall t,
          soup_title soup = Some (Some t) ->
          exists pre core post,
            t = pre +++ core +++ post /\ blanks pre /\ blanks post /\ trimmed core).
Proof.
  intros link s soup styles s1 H.
  pose proof (load_page_unchanged link s) as L.
  rewrite H in L. simpl in L.
  destruct (rule_title_spec link soup s1) as (s2 & R & I2).
  destruct (later_rules_adds link soup styles s2) as (l2 & E2 & F2).
  set (tf := if (String.length (page_title soup) <? 5)%nat
             then [title_finding link (shot_name (w_uuid w (S (clock s1))) "title")]
             else []) in *.
  assert (N2 : Forall (fun f => rule_name f <> "Page title not descriptive") l2).
  { eapply Forall_impl; [|exact F2]. intros f.
    apply in_table_not_named, later_rules_table_no_title. }
  assert (B : page_body link s = later_rules link soup styles s2).
  { unfold page_body, bind. rewrite H. simpl. unfold run_rules, bind. now rewrite R. }
  assert (S : exists l3,
             issues (snd (scan_page link s)) = issues s2 ++ l2 ++ l3
             /\ Forall (fun f => rule_name f <> "Page title not descriptive") l3).
  { unfold scan_page, try_except. rewrite B.
    destruct (later_rules link soup styles s2) as [[[]|e] s3]; simpl in *.
    - exists []. rewrite app_nil_r. split; [exact E2|constructor].
    - exists [page_load_error link e]. rewrite E2, app_assoc.
      split; [reflexivity|]. constructor; [discriminate|constructor]. }
  destruct S as (l3 & E3 & N3).
  assert (C : count_rule "Page title not descriptive" (tf ++ l2 ++ l3)
              = (if (String.length (page_title soup) <? 5)%nat then 1 else 0)%nat).
  { rewrite !count_rule_app, (count_rule_none _ l2 N2), (count_rule_none _ l3 N3).
    subst tf. destruct (String.length (page_title soup) <? 5)%nat; reflexivity. }
  exists (tf ++ l2 ++ l3). split; [|split; [|split; [|split]]].
  - rewrite E3, I2, L. now rewrite <- !app_assoc.
  - apply Forall_app. split.
    + subst tf. destruct (String.length (page_title soup) <? 5)%nat; repeat constructor.
    + apply Forall_app. split; (eapply Forall_impl; [|eassumption]);
        intros f Hf Hn; contradiction.
  - intros M. rewrite C. unfold page_title. destruct M as [-> | ->]; reflexivity.
  - intros pre core post Ht B1 B2 T. rewrite C.
    now rewrite (page_title_core soup pre core post Ht B1 B2 T).
  - intros t _. apply title_core_exists.
Qed.

(** ** Evidence *)

Lemma grows_refl : forall s, grows s s.
Proof. intros s. split; [lia|apply incl_refl]. Qed.

Lemma grows_trans : forall s1 s2 s3, grows s1 s2 -> grows s2 s3 -> grows s1 s3.
Proof.
  intros s1 s2 s3 [C1 F1] [C2 F2]. split; [lia|].
  eapply incl_tran; eassumption.
Qed.

Lemma evidence_ok_mono : forall s s' f, grows s s' -> evidence_ok s f -> evidence_ok s' f.
Proof.
  intros s s' f [C F] H. unfold evidence_ok in *.
  destruct (evidence_ref f) as [name|]; [|exact I].
  destruct H as (t & key & E & T & W).
  exists t, key. split; [exact E|]. split; [lia|]. intros Hs. apply F, W, Hs.
Qed.

(** A step that leaves [issues] alone keeps the evidence as it was. *)
Lemma evidence_step_frame : forall s s',
  issues s' = issues s -> grows s s' -> evidence_step s s'.
Proof.
  intros s s' E G. split; [exact G|]. unfold evidence_inv. rewrite E.
  intros H. eapply Forall_impl; [|exact H]. intros f. now apply evidence_ok_mono.
Qed.

Lemma evidence_step_append : forall s s' f,
  grows s s' -> evidence_ok s' f -> issues s' = issues s ++ [f] -> evidence_step s s'.
Proof.
  intros s s' f G Hf E. split; [exact G|]. unfold evidence_inv. rewrite E.
  intros H. apply Forall_app. split.
  - eapply Forall_impl; [|exact H]. intros f0. now apply evidence_ok_mono.
  - constructor; [exact Hf|constructor].
Qed.

Lemma grows_after_capture : forall s p, grows s (after_capture s p).
Proof.
  intros s p. unfold after_capture. split; simpl; [lia|].
  destruct (w_save w (S (S (clock s))) p) as [[]|]; try apply incl_refl.
  apply incl_appl, incl_refl.
Qed.

#[local] Instance evidence_rel : StepRel evidence_step (fun _ _ => True).
Proof.
  constructor.
  - intros s. apply evidence_step_frame; [reflexivity|apply grows_refl].
  - intros s1 s2 s3 [G1 I1] [G2 I2]. split; [eapply grows_trans; eassumption|auto].
  - intros s. apply evidence_step_frame; [reflexivity|]. split; simpl; [lia|apply incl_refl].
  - intros s p. apply evidence_step_frame; [reflexivity|].
    split; simpl; [lia|apply incl_appl, incl_refl].
  - intros s k v. apply evidence_step_frame; [reflexivity|].
    split; simpl; [lia|apply incl_refl].
  - intros s k v. apply evidence_step_frame; [reflexivity|].
    split; simpl; [lia|apply incl_refl].
  - intros s p. apply evidence_step_frame; [reflexivity|].
    split; simpl; [lia|apply incl_refl].
  - intros s key name link desc sev _.
    set (shot := shot_name (w_uuid w (S (clock s))) key).
    eapply evidence_step_append with (f := mkFinding name link desc sev (Some shot));
      [apply (grows_after_capture s (path_join screenshots_dir shot))| |reflexivity].
    unfold evidence_ok. simpl. exists (S (clock s)), key.
    split; [reflexivity|]. split; [lia|].
    intros Hs. rewrite Hs. apply in_or_app. right. now left.
  - intros s name link desc sev _.
    eapply evidence_step_append with (f := mkFinding name link desc sev None);
      [split; simpl; [lia|apply incl_refl]|exact I|reflexivity].
Qed.

Lemma scan_evidence : forall urls s, evidence_inv s -> evidence_inv (snd (scan urls s)).
Proof.
  intros urls s H.
  assert (S : steps evidence_step (scan urls)).
  { apply scan_steps. intros n sv _. exact I. }
  now apply (S s).
Qed.

(** C2, as the code has it. A finding's [evidence_ref], when present, is the
    file name made by the [capture_rule_screenshot] call that precedes the
    append, and the file is in the screenshot directory by the time the
    finding is appended whenever [save_screenshot] answered [True]. A write
    that fails does not clear it: [report] records the name all the same. *)
Theorem evidence_names_the_capture : forall urls,
  (forall rects key label name link desc sev s,
     let shot := shot_name (w_uuid w (S (clock s))) key in
     let path := path_join screenshots_dir shot in
     let s' := snd (report rects key label name link desc sev s) in
     issues s' = issues s ++ [mkFinding name link desc sev (Some shot)]
     /\ (w_save w (S (S (clock s))) path = Val true -> In path (files s'))
     /\ (w_save w (S (S (clock s))) path <> Val true -> files s' = files s))
  /\ (let s := snd (scan urls init_state) in
      forall f name,
        In f (issues s) -> evidence_ref f = Some name ->
        exists t key,
          name = shot_name (w_uuid w t) key
          /\ (S t < clock s)%nat
          /\ (w_save w (S t) (path_join screenshots_dir name) = Val true ->
              In (path_join screenshots_dir name) (files s))).
Proof.
  intros urls. split.
  - intros. subst s'. rewrite report_spec. fold shot. fold path. simpl.
    split; [reflexivity|].
    destruct (w_save w (S (S (clock s))) path) as [[]|]; split; intros H;
      try discriminate; try reflexivity; try congruence.
    apply in_or_app. right. now left.
  - intros s f name Hin Hev.
    assert (H : evidence_inv s).
    { apply scan_evidence. constructor. }
    unfold evidence_inv in H. rewrite Forall_forall in H.
    specialize (H f Hin). unfold evidence_ok in H. now rewrite Hev in H.
Qed.

(** ** Unparsable colours *)

Lemma contrast_black_black : contrast_ratio black black = Val 1.
Proof. vm_compute. reflexivity. Qed.

(** [None] and the empty string are unparsable. *)
Lemma unparsable_none_and_empty : unparsable None /\ unparsable (Some "").
Proof.
  split; intros str E; [discriminate|]. inversion E; subst.
  intros (a & d1 & w1 & w2 & d2 & w3 & w4 & d3 & rest & H & _). discriminate.
Qed.

(** C9. A colour text that is not parseable as [rgb(...)] / [rgba(...)],
    [None] and the empty string included, parses to black [(0, 0, 0)]; a
    style sample whose colours are unparsable is not skipped by the contrast
    rule: it is measured as black on black (ratio 1) and recorded. *)
Theorem unparsable_colour_is_black : forall s,
  unparsable s ->
  parse_rgb s = black
  /\ (forall item,
        st_color item = s -> unparsable (st_bg item) ->
        contrast_loop [item] [] None
        = Val ([item_rect item ("Contrast " +++ format_float ".2f" 1 +++ ":1")],
               Some ("Contrast " +++ format_float ".2f" 1 +++ ":1 below 4.5:1 for text '"
                     +++ opt_str (st_text item) +++ "'."))).
Proof.
  intros s H. split; [now apply parse_rgb_default|].
  intros item Hc Hb. simpl. rewrite Hc.
  rewrite (parse_rgb_default s H), (parse_rgb_default _ Hb), contrast_black_black.
  reflexivity.
Qed.

(** ** Readability *)

(** For a positive font size the condition is the truth value of the
    ratio: 1.2 plays no part. *)
Lemma tight_condition_positive : forall lh fs,
  (0 <? fs) = true -> tight_condition lh fs = PyFloat.truthy (lh / fs).
Proof. intros lh fs H. unfold tight_condition. now rewrite H. Qed.

(** C1, on the code. The element of [roomy_item] has a line height of 24px
    for a font size of 16px, a ratio of 1.5, and the rule reports "Tight
    line spacing" for it all the same: the condition is the truth value of
    [lh / fs], not its comparison with 1.2. *)
Theorem tight_line_spacing_fires_at_ratio_1_5 : forall link s,
  font_size Examples.roomy_item = 16
  /\ line_height Examples.roomy_item 16 = 24
  /\ (24 / 16 <? 1.2) = false
  /\ rule_readability link [Examples.roomy_item] s
     = (Val tt,
        with_issue
          (after_capture s (path_join screenshots_dir
                              (shot_name (w_uuid w (S (clock s))) "readability")))
          (mkFinding "Tight line spacing" link
             "Use line-height ≈ 1.4 for comfortable reading." "Low"
             (Some (shot_name (w_uuid w (S (clock s))) "readability")))).
Proof.
  intros link s.
  assert (F : font_size Examples.roomy_item = 16) by (vm_compute; reflexivity).
  assert (L : line_height Examples.roomy_item 16 = 24) by (vm_compute; reflexivity).
  split; [exact F|]. split; [exact L|]. split; [vm_compute; reflexivity|].
  unfold rule_readability, for_each. cbv zeta. rewrite F, L.
  change (16 <? 12) with false. change (tight_condition 24 16) with true.
  cbv iota. unfold bind. rewrite report_spec. reflexivity.
Qed.

(** ** Cross-page checks *)

Lemma flat_map_filter : forall A B (c : A -> bool) (f : A -> B) l,
  flat_map (fun a => if c a then [f a] else []) l = map f (filter c l).
Proof.
  intros A B c f l. induction l as [|a l IH]; simpl; [reflexivity|].
  destruct (c a); simpl; now rewrite IH.
Qed.

Lemma mem_filter : forall (P : string -> bool) x l,
  PyStr.mem x (filter P l) = P x && PyStr.mem x l.
Proof.
  intros P x l. unfold PyStr.mem. induction l as [|y l IH]; simpl.
  - now rewrite andb_false_r.
  - destruct (String.eqb x y) eqn:E.
    + apply String.eqb_eq in E. subst y.
      destruct (P x) eqn:Px; simpl; [now rewrite String.eqb_refl|exact IH].
    + destruct (P y); simpl; rewrite ?E; exact IH.
Qed.

Lemma filter_nothing : forall A (c : A -> bool) l,
  (forall a, c a = false) -> filter c l = [].
Proof.
  intros A c l H. induction l as [|a l IH]; simpl; [reflexivity|]. now rewrite H.
Qed.

Lemma mem_In : forall x l, In x l -> PyStr.mem x l = true.
Proof.
  intros x l H. unfold PyStr.mem. apply existsb_exists. exists x.
  split; [exact H|apply String.eqb_refl].
Qed.

Lemma count_short : forall x l, (List.length l <= 1)%nat -> (2 <=? count x l)%nat = false.
Proof.
  intros x l H. apply Nat.leb_gt. unfold count.
  pose proof (filter_length_le (String.eqb x) l). lia.
Qed.

Lemma title_flag_condition : forall tm pt,
  In pt tm ->
  PyStr.mem (snd pt) (dup_titles (dict_values tm)) = shares_title tm pt.
Proof.
  intros tm pt H. unfold dup_titles, shares_title. rewrite mem_filter.
  rewrite (mem_In (snd pt) (dict_values tm)) by (apply in_map, H).
  rewrite andb_true_r. reflexivity.
Qed.

Lemma flat_map_ext_in : forall A B (f g : A -> list B) l,
  (forall a, In a l -> f a = g a) -> flat_map f l = flat_map g l.
Proof.
  intros A B f g l H. induction l as [|a l IH]; simpl; [reflexivity|].
  rewrite H by now left. f_equal. apply IH. intros b Hb. apply H. now right.
Qed.

Lemma duplicate_title_findings_filter : forall tm,
  duplicate_title_findings tm
  = map (fun pt => non_unique_title (fst pt)) (filter (shares_title tm) tm).
Proof.
  intros tm. unfold duplicate_title_findings.
  destruct (1 <? List.length tm)%nat eqn:E.
  - rewrite <- flat_map_filter. apply flat_map_ext_in. intros pt H.
    now rewrite title_flag_condition.
  - apply Nat.ltb_ge in E. rewrite filter_nothing; [reflexivity|].
    intros pt. unfold shares_title. rewrite count_short; [apply andb_false_r|].
    unfold dict_values. rewrite length_map. lia.
Qed.

(** Findings made page by page from the entries of a dict that pass a
    test: which pages are in, and each at most once. *)
Lemma NoDup_map_filter : forall A B (f : A -> B) (c : A -> bool) l,
  NoDup (map f l) -> NoDup (map f (filter c l)).
Proof.
  intros A B f c l. induction l as [|a l IH]; simpl; intros H; [constructor|].
  inversion H as [|x xs Hn Hd]; subst.
  destruct (c a); simpl; [|now apply IH].
  constructor; [|now apply IH].
  intros I. apply Hn. apply in_map_iff in I. destruct I as (b & E & Hb).
  apply filter_In in Hb. apply in_map_iff. exists b. split; [exact E|apply Hb].
Qed.

Lemma NoDup_map_inj : forall A B (f : A -> B) l,
  (forall p q, f p = f q -> p = q) -> NoDup l -> NoDup (map f l).
Proof.
  intros A B f l Inj H. induction H as [|a l Hn Hd IH]; simpl; constructor; [|exact IH].
  intros I. apply in_map_iff in I. destruct I as (b & E & Hb).
  apply Inj in E. now subst b.
Qed.

Lemma flagged_pages : forall (mk : string -> Finding) (c : string * string -> bool) (d : dict),
  (forall p q, mk p = mk q -> p = q) ->
  (forall page,
     In (mk page) (map (fun pt => mk (fst pt)) (filter c d))
     <-> exists t, In (page, t) d /\ c (page, t) = true)
  /\ (NoDup (map fst d) -> NoDup (map (fun pt => mk (fst pt)) (filter c d))).
Proof.
  intros mk c d Inj. split.
  - intros page. rewrite in_map_iff. split.
    + intros ([p t] & E & H). apply Inj in E. simpl in E. subst p.
      apply filter_In in H. now exists t.
    + intros (t & H & C). exists (page, t). split; [reflexivity|].
      apply filter_In. now split.
  - intros H. rewrite <- (map_map fst mk).
    apply NoDup_map_inj; [exact Inj|]. now apply NoDup_map_filter.
Qed.

Lemma non_unique_title_inj : forall p q, non_unique_title p = non_unique_title q -> p = q.
Proof. intros p q H. now inversion H. Qed.

Lemma inconsistent_navigation_inj : forall p q,
  inconsistent_navigation p = inconsistent_navigation q -> p = q.
Proof. intros p q H. now inversion H. Qed.

Lemma truthy_iff : forall s, PyStr.truthy s = true <-> s <> "".
Proof. intros [|c s]; simpl; split; congruence. Qed.

Lemma shares_title_iff : forall tm page t,
  shares_title tm (page, t) = true
  <-> t <> "" /\ (2 <= count t (dict_values tm))%nat.
Proof.
  intros. unfold shares_title. cbn [snd].
  now rewrite andb_true_iff, truthy_iff, Nat.leb_le.
Qed.

Lemma off_majority_iff : forall maj page sig,
  off_majority maj (page, sig) = true <-> sig <> "" /\ maj <> "" /\ sig <> maj.
Proof.
  intros. unfold off_majority. cbn [snd].
  rewrite !andb_true_iff, !truthy_iff, negb_true_iff, String.eqb_neq.
  split; [intros [[H1 H2] H3]|intros (H1 & H2 & H3)]; auto.
Qed.

(** The keys of a dict stay distinct. *)
Lemma dict_set_keys : forall k v d,
  map fst (dict_set k v d)
  = if PyStr.mem k (map fst d) then map fst d else map fst d ++ [k].
Proof.
  intros k v d. unfold PyStr.mem. induction d as [|[k' v'] d IH]; simpl; [reflexivity|].
  destruct (String.eqb k k'); simpl; [reflexivity|]. rewrite IH.
  now destruct (existsb (String.eqb k) (map fst d)).
Qed.

Lemma dict_set_NoDup : forall k v d,
  NoDup (map fst d) -> NoDup (map fst (dict_set k v d)).
Proof.
  intros k v d H. rewrite dict_set_keys.
  destruct (PyStr.mem k (map fst d)) eqn:E; [exact H|].
  apply NoDup_app; [exact H|repeat constructor; intros []|].
  intros x Hx [E1|[]]. subst x. rewrite (mem_In k _ Hx) in E. discriminate.
Qed.

(** C6, as the code has it. The duplicate-title check reports, in the order
    of [title_map] and each with one "Medium" finding, exactly the pages
    whose title is non-empty and borne by at least two pages; pages with an
    empty title are never reported, and nothing is reported for a single
    page. For pages A and B with one non-empty title and a page C with
    another title, the findings are those of A and B only. *)
Theorem duplicate_titles_flagged : forall tm,
  duplicate_title_findings tm
  = map (fun pt => non_unique_title (fst pt)) (filter (shares_title tm) tm)
  /\ (forall page,
        In (non_unique_title page) (duplicate_title_findings tm)
        <-> exists t, In (page, t) tm /\ t <> "" /\ (2 <= count t (dict_values tm))%nat)
  /\ (NoDup (map fst tm) -> NoDup (duplicate_title_findings tm))
  /\ (forall page, severity (non_unique_title page) = "Medium"
                   /\ rule_name (non_unique_title page) = "Non-unique page title"
                   /\ evidence_ref (non_unique_title page) = None)
  /\ (forall a b c t u,
        t <> "" -> u <> t ->
        duplicate_title_findings [(a, t); (b, t); (c, u)]
        = [non_unique_title a; non_unique_title b]).
Proof.
  intros tm.
  destruct (flagged_pages non_unique_title (shares_title tm) tm non_unique_title_inj)
    as [Hin Hnd].
  split; [apply duplicate_title_findings_filter|]. split; [|split; [|split]].
  - intros page. rewrite duplicate_title_findings_filter, Hin.
    split; intros (t & H & C); exists t; (split; [exact H|]);
      [exact (proj1 (shares_title_iff tm page t) C)
      |exact (proj2 (shares_title_iff tm page t) C)].
  - rewrite duplicate_title_findings_filter. exact Hnd.
  - now repeat split.
  - intros a b c t u Ht Hu. rewrite duplicate_title_findings_filter.
    unfold shares_title, count, dict_values. simpl.
    rewrite String.eqb_refl.
    assert (Eu : String.eqb u t = false) by now apply String.eqb_neq.
    assert (Et : String.eqb t u = false) by (apply String.eqb_neq; congruence).
    rewrite Eu, Et. simpl.
    destruct t as [|ch t']; [contradiction|]. simpl.
    rewrite String.eqb_refl. simpl. now rewrite andb_false_r.
Qed.

(** [max] with a key returns the first element whose key is the largest. *)
Lemma fold_max_first : forall (key : string -> nat) l best,
  let m := fold_left (fun b y => if (key b <? key y)%nat then y else b) l best in
  (key best <= key m)%nat
  /\ (forall y, In y l -> (key y <= key m)%nat)
  /\ exists pre post,
       best :: l = pre ++ m :: post
       /\ Forall (fun y => (key y < key m)%nat) pre.
Proof.
  intros key l. induction l as [|y l IH]; intros best; simpl.
  - split; [lia|]. split; [contradiction|]. exists [], []. now split.
  - destruct (key best <? key y)%nat eqn:E.
    + apply Nat.ltb_lt in E.
      destruct (IH y) as (Hb & Hl & pre & post & Ep & Fp).
      split; [lia|]. split.
      * intros z [<-|Hz]; [exact Hb|now apply Hl].
      * exists (best :: pre), post. split; [simpl; congruence|].
        constructor; [lia|exact Fp].
    + apply Nat.ltb_ge in E.
      destruct (IH best) as (Hb & Hl & pre & post & Ep & Fp).
      split; [exact Hb|]. split.
      * intros z [<-|Hz]; [lia|now apply Hl].
      * destruct pre as [|p pre'].
        -- simpl in Ep. injection Ep as Hm Hp.
           exists [], (y :: l). split; [simpl; congruence|constructor].
        -- simpl in Ep. injection Ep as Hm Hp. subst p.
           exists (best :: y :: pre'), post. split; [simpl; congruence|].
           pose proof (Forall_inv Fp) as F1. pose proof (Forall_inv_tail Fp) as F2.
           simpl in F1. constructor; [exact F1|]. constructor; [lia|exact F2].
Qed.

Lemma filter_nothing_in : forall A (c : A -> bool) l,
  (forall a, In a l -> c a = false) -> filter c l = [].
Proof.
  intros A c l H. induction l as [|a l IH]; simpl; [reflexivity|].
  rewrite H by now left. apply IH. intros b Hb. apply H. now right.
Qed.

Lemma count_absent : forall x l, ~ In x l -> count x l = 0%nat.
Proof.
  intros x l H. unfold count. induction l as [|y l IH]; simpl; [reflexivity|].
  destruct (String.eqb x y) eqn:E.
  - apply String.eqb_eq in E. subst y. exfalso. apply H. now left.
  - apply IH. intros Hx. apply H. now right.
Qed.

Section SetOrder.

(** What iterating over [set(l)] is taken to give: the elements of [l], in
    some order. *)
Hypothesis set_iter_members : forall l x, In x (set_iter l) <-> In x l.

Lemma majority_spec : forall sigs,
  sigs <> [] ->
  exists maj pre post,
    majority sigs = Val maj
    /\ set_iter sigs = pre ++ maj :: post
    /\ Forall (fun x => (count x sigs < count maj sigs)%nat) pre
    /\ (forall x, (count x sigs <= count maj sigs)%nat).
Proof.
  intros sigs H. unfold majority.
  destruct sigs as [|s0 sigs']; [contradiction|].
  set (sigs := s0 :: sigs') in *.
  destruct (set_iter sigs) as [|x l] eqn:E.
  - exfalso. assert (I : In s0 (set_iter sigs)) by (apply set_iter_members; now left).
    rewrite E in I. contradiction.
  - unfold max_key.
    destruct (fold_max_first (fun y => count y sigs) l x) as (Hb & Hl & pre & post & Ep & Fp).
    eexists. exists pre, post. split; [reflexivity|]. split; [exact Ep|].
    split; [exact Fp|].
    intros y. destruct (in_dec string_dec y sigs) as [Hy|Hy].
    + apply set_iter_members in Hy. rewrite E in Hy.
      destruct Hy as [<-|Hy]; [exact Hb|now apply Hl].
    + rewrite (count_absent y sigs Hy). lia.
Qed.

(** C3, as the code has it. With more than one page, the navigation check
    takes as majority a signature of largest count, the first such in the
    iteration order of the set of signatures (an order of the set, not of
    first appearance); it reports, with one "Low" finding each and in the
    order of [nav_signatures], exactly the pages whose signature is
    non-empty and differs from a non-empty majority. Pages with an empty
    signature are exempt; nothing is reported when the majority is empty or
    when all pages share one signature. *)
Theorem inconsistent_navigation_by_majority : forall ns,
  (1 < List.length ns)%nat ->
  exists maj pre post,
    majority (dict_values ns) = Val maj
    /\ set_iter (dict_values ns) = pre ++ maj :: post
    /\ Forall (fun x => (count x (dict_values ns) < count maj (dict_values ns))%nat) pre
    /\ (forall x, (count x (dict_values ns) <= count maj (dict_values ns))%nat)
    /\ inconsistent_nav_findings ns
       = Val (map (fun ps => inconsistent_navigation (fst ps)) (filter (off_majority maj) ns))
    /\ (forall page,
          In (inconsistent_navigation page)
             (map (fun ps => inconsistent_navigation (fst ps)) (filter (off_majority maj) ns))
          <-> exists sig, In (page, sig) ns /\ sig <> "" /\ maj <> "" /\ sig <> maj)
    /\ (NoDup (map fst ns) ->
        NoDup (map (fun ps => inconsistent_navigation (fst ps)) (filter (off_majority maj) ns)))
    /\ (forall page, severity (inconsistent_navigation page) = "Low"
                     /\ evidence_ref (inconsistent_navigation page) = None)
    /\ (maj = "" -> inconsistent_nav_findings ns = Val [])
    /\ ((forall ps ps', In ps ns -> In ps' ns -> snd ps = snd ps') ->
        inconsistent_nav_findings ns = Val []).
Proof.
  intros ns H.
  assert (N : dict_values ns <> []).
  { destruct ns; simpl in *; [lia|discriminate]. }
  destruct (majority_spec (dict_values ns) N) as (maj & pre & post & M & Ep & Fp & Hmax).
  assert (F : inconsistent_nav_findings ns
              = Val (map (fun ps => inconsistent_navigation (fst ps))
                         (filter (off_majority maj) ns))).
  { unfold inconsistent_nav_findings. apply Nat.ltb_lt in H. rewrite H, M. simpl.
    now rewrite <- flat_map_filter. }
  destruct (flagged_pages inconsistent_navigation (off_majority maj) ns
              inconsistent_navigation_inj) as [Hin Hnd].
  exists maj, pre, post.
  repeat (split; [first [exact M|exact Ep|exact Fp|exact Hmax|exact F]|]).
  split; [|split; [exact Hnd|split; [now split|split]]].
  - intros page. rewrite Hin.
    split; intros (sig & Hs & C); exists sig; (split; [exact Hs|]);
      [exact (proj1 (off_majority_iff maj page sig) C)
      |exact (proj2 (off_majority_iff maj page sig) C)].
  - intros ->. rewrite F, filter_nothing; [reflexivity|].
    intros ps. unfold off_majority. simpl. now rewrite andb_false_r.
  - intros Hall. rewrite F, filter_nothing_in; [reflexivity|].
    intros ps Hps. unfold off_majority.
    assert (Hm : In maj (dict_values ns)).
    { apply set_iter_members. rewrite Ep. apply in_or_app. right. now left. }
    apply in_map_iff in Hm. destruct Hm as (ps' & Em & Hps').
    rewrite <- Em, (Hall ps ps' Hps Hps'), String.eqb_refl. simpl.
    now rewrite andb_false_r.
Qed.

End SetOrder.

(** Every page keeps a single entry in each dict all along a scan. *)
#[local] Instance keys_rel : StepRel keys_step (fun _ _ => True).
Proof.
  constructor; unfold keys_step, keys_distinct; simpl; auto.
  - intros s k v [H1 H2]. split; [now apply dict_set_NoDup|exact H2].
  - intros s k v [H1 H2]. split; [exact H1|now apply dict_set_NoDup].
Qed.

Lemma scan_pages_keys_distinct : forall urls s,
  keys_distinct s -> keys_distinct (snd (scan_pages urls s)).
Proof.
  intros urls s H.
  assert (S : steps keys_step (scan_pages urls)).
  { apply scan_pages_steps. intros n sv _. exact I. }
  now apply (S s).
Qed.

(** The cross-page checks append their findings to what the pages gave. *)
Lemma append_issues_spec : forall l s,
  append_issues l s
  = (Val tt, mkState (issues s ++ l) (page_screenshots s) (title_map s)
                     (nav_signatures s) (files s) (clock s)).
Proof.
  induction l as [|f l IH]; intros s; simpl.
  - rewrite app_nil_r. now destruct s.
  - unfold bind, append_issue. rewrite IH. simpl. now rewrite <- app_assoc.
Qed.

Lemma cross_page_spec : forall s,
  issues (snd (cross_page s))
  = issues s ++ duplicate_title_findings (title_map s)
    ++ match inconsistent_nav_findings (nav_signatures s) with
       | Val l => l
       | Raise _ => []
       end.
Proof.
  intros s. unfold cross_page, bind, get_state, lift. rewrite append_issues_spec. simpl.
  destruct (inconsistent_nav_findings (nav_signatures s)) as [l|e]; simpl.
  - rewrite append_issues_spec. simpl. now rewrite app_assoc.
  - now rewrite app_nil_r.
Qed.

(** ** Dead links *)

Lemma link_text_check_returns : forall link text s,
  fst (link_text_check link text s) = Val tt.
Proof.
  intros. unfold link_text_check, when.
  destruct (PyStr.truthy text && PyStr.mem (PyStr.lower text) generic_link_texts);
    [|reflexivity].
  unfold try_except, bind, ask.
  destruct (w_rect w (clock s) (JsLinkText text)) as [r|e]; simpl; [|reflexivity].
  now rewrite report_spec.
Qed.

Lemma for_each_break : forall A (body : A -> M flow) x rest s s',
  body x s = (Val Break, s') -> for_each (x :: rest) body s = (Val tt, s').
Proof. intros A body x rest s s' H. simpl. unfold bind. now rewrite H. Qed.

Lemma urlopen_2xx : forall t url status,
  urlopen w t url = Val status -> (200 <= status < 300)%Z.
Proof.
  intros t url status. unfold urlopen.
  destruct (w_http w t url) as [[st reason]|e]; [|discriminate].
  destruct ((200 <=? st)%Z && (st <? 300)%Z) eqn:E; [|discriminate].
  intros H. inversion H; subst. apply andb_true_iff in E. lia.
Qed.

Lemma urlopen_answer : forall t url status reason,
  w_http w t url = Val (status, reason) ->
  ((200 <= status < 300)%Z -> urlopen w t url = Val status)
  /\ ((status < 200 \/ 300 <= status)%Z ->
      urlopen w t url = Raise (http_error status reason)).
Proof.
  intros t url status reason H. unfold urlopen. rewrite H. split; intros R.
  - replace ((200 <=? status)%Z && (status <? 300)%Z) with true; [reflexivity|].
    symmetry. apply andb_true_iff. lia.
  - replace ((200 <=? status)%Z && (status <? 300)%Z) with false; [reflexivity|].
    symmetry. apply andb_false_iff. lia.
Qed.

(** The handler of the liveness check, when the locating script answers. *)
Lemma link_liveness_failed : forall link href s abs_url e r,
  urljoin link href = Val abs_url ->
  urlopen w (clock s) abs_url = Raise e ->
  w_rect w (S (clock s)) (JsAnchorByHref href) = Val r ->
  link_liveness link href s
  = (Val Break,
     with_issue
       (after_capture (tick (tick s))
          (path_join screenshots_dir (shot_name (w_uuid w (3 + clock s)) "links")))
       (mkFinding "Broken link detected" link ("Failed to open: " +++ href) "High"
          (Some (shot_name (w_uuid w (3 + clock s)) "links")))).
Proof.
  intros link href s abs_url e r U O Rk.
  unfold link_liveness, try_except, bind, lift, ask. rewrite U, O.
  cbn [fst snd clock tick]. rewrite Rk. rewrite report_spec. reflexivity.
Qed.

(** C8. The liveness check never reports a status. [urlopen] does not
    return an answer of 400 or more, it raises, so the branch under
    [int(status) >= 400] is never taken: for such an answer the handler
    runs and, when the script that locates the anchor answers, appends the
    "High" finding "Broken link detected" with the description "Failed to
    open: <href>", as it does for a fetch that fails or times out and for a
    URL that cannot be resolved; the loop over the anchors ends there.
    Whatever the network and the scripts do, the check appends at most one
    finding and "Failed to open: <href>" is its description. *)
Theorem dead_link_status_not_reported : forall link href s,
  (forall abs_url status reason r,
     urljoin link href = Val abs_url ->
     w_http w (clock s) abs_url = Val (status, reason) ->
     (400 <= status)%Z ->
     w_rect w (S (clock s)) (JsAnchorByHref href) = Val r ->
     link_liveness link href s
     = (Val Break,
        with_issue
          (after_capture (tick (tick s))
             (path_join screenshots_dir (shot_name (w_uuid w (3 + clock s)) "links")))
          (mkFinding "Broken link detected" link ("Failed to open: " +++ href) "High"
             (Some (shot_name (w_uuid w (3 + clock s)) "links")))))
  /\ (forall abs_url e r,
        urljoin link href = Val abs_url ->
        w_http w (clock s) abs_url = Raise e ->
        w_rect w (S (clock s)) (JsAnchorByHref href) = Val r ->
        link_liveness link href s
        = (Val Break,
           with_issue
             (after_capture (tick (tick s))
                (path_join screenshots_dir (shot_name (w_uuid w (3 + clock s)) "links")))
             (mkFinding "Broken link detected" link ("Failed to open: " +++ href) "High"
                (Some (shot_name (w_uuid w (3 + clock s)) "links")))))
  /\ (forall e r,
        urljoin link href = Raise e ->
        w_rect w (clock s) (JsAnchorByHref href) = Val r ->
        link_liveness link href s
        = (Val Break,
           with_issue
             (after_capture (tick s)
                (path_join screenshots_dir (shot_name (w_uuid w (2 + clock s)) "links")))
             (mkFinding "Broken link detected" link ("Failed to open: " +++ href) "High"
                (Some (shot_name (w_uuid w (2 + clock s)) "links")))))
  /\ (exists l,
        issues (snd (link_liveness link href s)) = issues s ++ l
        /\ (List.length l <= 1)%nat
        /\ Forall (fun f => description f = "Failed to open: " +++ href) l)
  /\ (forall a,
        a_href a = Some href -> PyStr.truthy href = true ->
        PyStr.mem href noop_hrefs = false ->
        check_anchor link a s
        = link_liveness link href (snd (link_text_check link (PyStr.strip (a_text a)) s)))
  /\ (forall a rest s',
        check_anchor link a s = (Val Break, s') ->
        for_each (a :: rest) (check_anchor link) s = (Val tt, s')).
Proof.
  intros link href s. split; [|split; [|split; [|split; [|split]]]].
  - intros abs_url status reason r U O S4 Rk.
    destruct (urlopen_answer _ _ _ _ O) as [_ E].
    apply (link_liveness_failed link href s abs_url _ r U (E ltac:(lia)) Rk).
  - intros abs_url e r U O Rk.
    apply (link_liveness_failed link href s abs_url e r U); [|exact Rk].
    unfold urlopen. now rewrite O.
  - intros e r U Rk.
    unfold link_liveness, try_except, bind, lift, ask. rewrite U.
    rewrite Rk. rewrite report_spec. reflexivity.
  - unfold link_liveness, try_except, bind, lift, ask.
    destruct (urljoin link href) as [abs_url|e]; cbn [fst snd clock tick].
    + destruct (urlopen w (clock s) abs_url) as [status|e] eqn:O; cbn [fst snd clock tick].
      * apply urlopen_2xx in O.
        replace (400 <=? status)%Z with false by (symmetry; apply Z.leb_gt; lia).
        exists []. rewrite app_nil_r. split; [reflexivity|]. split; [cbn; lia|constructor].
      * destruct (w_rect w (S (clock s)) (JsAnchorByHref href)) as [r|e'];
          cbn [fst snd clock tick].
        -- rewrite report_spec. eexists [_]. split; [reflexivity|].
           split; [cbn; lia|]. now repeat constructor.
        -- exists []. rewrite app_nil_r. split; [reflexivity|]. split; [cbn; lia|constructor].
    + destruct (w_rect w (clock s) (JsAnchorByHref href)) as [r|e'];
        cbn [fst snd clock tick].
      * rewrite report_spec. eexists [_]. split; [reflexivity|].
        split; [cbn; lia|]. now repeat constructor.
      * exists []. rewrite app_nil_r. split; [reflexivity|]. split; [cbn; lia|constructor].
  - intros a Ha Ht Hn. unfold check_anchor. rewrite Ha. cbn [opt_truthy opt_str].
    rewrite Ht, Hn. cbn [negb orb]. unfold bind.
    pose proof (link_text_check_returns link (PyStr.strip (a_text a)) s) as L.
    destruct (link_text_check link (PyStr.strip (a_text a)) s) as [[[]|e] s1];
      simpl in *; [reflexivity|discriminate].
  - intros a rest s' H. now apply for_each_break.
Qed.

(** ** The order of the findings of a page *)

Lemma advance_ge : forall names lo b, advance lo names = Some b -> (lo <= b)%nat.
Proof.
  induction names as [|n rest IH]; simpl; intros lo b H.
  - inversion H. lia.
  - destruct (lo <=? rule_rank n)%nat eqn:E; [|discriminate].
    apply Nat.leb_le in E. apply IH in H. destruct (repeatable n); lia.
Qed.

Lemma advance_earlier : forall names lo lo' b,
  advance lo names = Some b -> (lo' <= lo)%nat ->
  exists b', advance lo' names = Some b' /\ (b' <= b)%nat.
Proof.
  intros [|n rest] lo lo' b H L; simpl in *.
  - inversion H; subst. exists lo'. now split.
  - destruct (lo <=? rule_rank n)%nat eqn:E; [|discriminate].
    apply Nat.leb_le in E.
    assert (E' : (lo' <=? rule_rank n)%nat = true) by (apply Nat.leb_le; lia).
    rewrite E'. exists b. now split.
Qed.

Lemma advance_app : forall a b lo,
  advance lo (a ++ b)
  = match advance lo a with Some m => advance m b | None => None end.
Proof.
  induction a as [|n a IH]; simpl; intros b lo; [reflexivity|].
  destruct (lo <=? rule_rank n)%nat; [apply IH|reflexivity].
Qed.

Lemma between_nil : forall lo hi, (lo <= hi)%nat -> between lo hi [] = true.
Proof. intros lo hi H. unfold between. simpl. now apply Nat.leb_le. Qed.

Lemma between_le : forall lo hi names, between lo hi names = true -> (lo <= hi)%nat.
Proof.
  intros lo hi names H. unfold between in H.
  destruct (advance lo names) as [b|] eqn:E; [|discriminate].
  apply Nat.leb_le in H. apply advance_ge in E. lia.
Qed.

Lemma between_app : forall lo mid hi a b,
  between lo mid a = true -> between mid hi b = true -> between lo hi (a ++ b) = true.
Proof.
  intros lo mid hi a b Ha Hb. unfold between in *. rewrite advance_app.
  destruct (advance lo a) as [m|]; [|discriminate]. apply Nat.leb_le in Ha.
  destruct (advance mid b) as [e|] eqn:E; [|discriminate].
  destruct (advance_earlier b mid m e E Ha) as (e' & E' & L).
  rewrite E'. apply Nat.leb_le in Hb. apply Nat.leb_le. lia.
Qed.

Lemma between_wider : forall lo hi lo' hi' names,
  between lo hi names = true -> (lo' <= lo)%nat -> (hi <= hi')%nat ->
  between lo' hi' names = true.
Proof.
  intros lo hi lo' hi' names H L U. unfold between in *.
  destruct (advance lo names) as [b|] eqn:E; [|discriminate].
  destruct (advance_earlier names lo lo' b E L) as (b' & E' & Lb).
  rewrite E'. apply Nat.leb_le in H. apply Nat.leb_le. lia.
Qed.

(** A name that is not repeatable occurs at most once in a list in rule
    order, not at all when the reading starts past its position, and so do
    two names of one group together. *)
Lemma advance_once : forall names lo b k,
  advance lo names = Some b ->
  let hits := filter (fun n => (rule_rank n =? k)%nat && negb (repeatable n)) names in
  (List.length hits <= 1)%nat /\ ((k < lo)%nat -> hits = []).
Proof.
  induction names as [|n rest IH]; simpl; intros lo b k H; [split; [lia|reflexivity]|].
  destruct (lo <=? rule_rank n)%nat eqn:E; [|discriminate].
  apply Nat.leb_le in E.
  destruct (IH _ b k H) as [L Z].
  destruct (rule_rank n =? k)%nat eqn:K; simpl.
  - apply Nat.eqb_eq in K. destruct (repeatable n) eqn:Rp; simpl.
    + split; [exact L|]. intros Hk. lia.
    + rewrite Z by lia. split; [simpl; lia|]. intros Hk. lia.
  - apply Nat.eqb_neq in K. split; [exact L|]. intros Hk. apply Z.
    destruct (repeatable n); lia.
Qed.

(** ** What the rule blocks do to the scan state *)

Lemma page_effect_intro : forall link lo hi s s' l,
  issues s' = issues s ++ l ->
  Forall (fun f => page_url f = link) l ->
  between lo hi (map rule_name l) = true ->
  page_screenshots s' = page_screenshots s ->
  title_map s' = title_map s ->
  nav_signatures s' = nav_signatures s ->
  page_effect link lo hi s s'.
Proof.
  intros link lo hi s s' l I F B P T N. unfold page_effect. rewrite P, T, N.
  split; [now exists l|]. split; [reflexivity|].
  split; apply incl_tl, incl_refl.
Qed.

Lemma page_effect_trans : forall link lo mid hi s1 s2 s3,
  page_effect link lo mid s1 s2 -> page_effect link mid hi s2 s3 ->
  page_effect link lo hi s1 s3.
Proof.
  intros link lo mid hi s1 s2 s3
    ((l1 & I1 & F1 & B1) & P1 & T1 & N1) ((l2 & I2 & F2 & B2) & P2 & T2 & N2).
  split; [|split; [congruence|split]].
  - exists (l1 ++ l2). rewrite I2, I1, app_assoc. split; [reflexivity|].
    split; [apply Forall_app; now split|].
    rewrite map_app. now apply between_app with mid.
  - intros x Hx. apply T2 in Hx. destruct Hx as [<-|Hx]; [now left|now apply T1].
  - intros x Hx. apply N2 in Hx. destruct Hx as [<-|Hx]; [now left|now apply N1].
Qed.

Lemma page_effect_wider : forall link lo hi lo' hi' s s',
  page_effect link lo hi s s' -> (lo' <= lo)%nat -> (hi <= hi')%nat ->
  page_effect link lo' hi' s s'.
Proof.
  intros link lo hi lo' hi' s s' ((l & I & F & B) & R) L U.
  split; [|exact R]. exists l. split; [exact I|]. split; [exact F|].
  now apply between_wider with lo hi.
Qed.

Lemma page_effect_le : forall link lo hi s s', page_effect link lo hi s s' -> (lo <= hi)%nat.
Proof. intros link lo hi s s' ((l & _ & _ & B) & _). now apply between_le in B. Qed.

(** One step of running a block on a state: the next call into the world
    answers or raises, the next test goes one way or the other, the next
    [report] does what [report_spec] says. *)
Ltac run_step :=
  first
    [ rewrite report_spec
    | match goal with
      | |- context [if ?c then _ else _] => destruct c eqn:?
      end
    | match goal with
      | |- context [match ?x with Val _ => _ | Raise _ => _ end] =>
          destruct x eqn:?
      end ];
  cbn [fst snd].

(** The state reached is explicit: its findings are those of the start
    followed by a known list. *)
Ltac page_effect_done :=
  eapply page_effect_intro;
  [ cbn [issues with_issue after_capture tick]; rewrite <- ?app_assoc;
    first [reflexivity | symmetry; apply app_nil_r]
  | cbn [app]; repeat constructor
  | reflexivity
  | reflexivity | reflexivity | reflexivity ].

Lemma rule_viewport_effect : forall link soup,
  steps (page_effect link 4 6) (rule_viewport link soup).
Proof.
  intros link soup s. unfold rule_viewport, bind, ask, when, ret.
  repeat run_step; page_effect_done.
Qed.

Lemma page_effect_set_title : forall link lo hi s s1 v,
  page_effect link lo hi s s1 -> page_effect link lo hi s (snd (set_title link v s1)).
Proof.
  intros link lo hi s s1 v (I & P & T & N). unfold page_effect. cbn.
  split; [exact I|]. split; [exact P|]. split; [|exact N].
  rewrite dict_set_keys. destruct (PyStr.mem link (map fst (title_map s1))); [exact T|].
  intros x Hx. apply in_app_or in Hx. destruct Hx as [Hx|[<-|[]]]; [now apply T|now left].
Qed.

Lemma page_effect_set_nav : forall link lo hi s s1 v,
  page_effect link lo hi s s1 -> page_effect link lo hi s (snd (set_nav link v s1)).
Proof.
  intros link lo hi s s1 v (I & P & T & N). unfold page_effect. cbn.
  split; [exact I|]. split; [exact P|]. split; [exact T|].
  rewrite dict_set_keys. destruct (PyStr.mem link (map fst (nav_signatures s1))); [exact N|].
  intros x Hx. apply in_app_or in Hx. destruct Hx as [Hx|[<-|[]]]; [now apply N|now left].
Qed.

Lemma steps_effect_bind : forall A B link lo mid hi (m : M A) (f : A -> M B),
  (mid <= hi)%nat ->
  steps (page_effect link lo mid) m ->
  (forall a, steps (page_effect link mid hi) (f a)) ->
  steps (page_effect link lo hi) (bind m f).
Proof.
  intros A B link lo mid hi m f L Hm Hf s. unfold bind. specialize (Hm s).
  destruct (m s) as [[a|e] s1]; cbn [snd] in *.
  - eapply page_effect_trans; [exact Hm|apply Hf].
  - eapply page_effect_wider; [exact Hm|lia|exact L].
Qed.

(** A loop that ends at its first finding. *)
Lemma for_each_effect : forall A link lo hi (body : A -> M flow) l,
  (lo <= hi)%nat ->
  (forall x s, body_effect link lo hi s (body x s)) ->
  steps (page_effect link lo hi) (for_each l body).
Proof.
  intros A link lo hi body l L H. induction l as [|x l IH]; intros s; simpl.
  - apply page_effect_intro with (l := []); try reflexivity;
      [symmetry; apply app_nil_r|constructor|now apply between_nil].
  - unfold bind. destruct (H x s) as [E N].
    destruct (body x s) as [[[]|e] s1]; cbn [fst snd] in *; try exact E.
    eapply page_effect_trans; [now apply N|apply IH].
Qed.

Ltac body_effect_done :=
  split; cbn [fst snd]; [page_effect_done|first [discriminate|intros _; page_effect_done]].

Lemma rule_title_effect : forall link soup,
  steps (page_effect link 0 1) (rule_title link soup).
Proof.
  intros link soup s. unfold rule_title, bind, when, ret.
  repeat run_step; apply page_effect_set_title; page_effect_done.
Qed.

Lemma one_h1_at_most : forall levels,
  negb (existsb (Z.eqb 1) levels) = true ->
  (1 <? List.length (filter (Z.eqb 1) levels))%nat = false.
Proof.
  intros levels H. apply negb_true_iff in H.
  rewrite filter_nothing_in; [reflexivity|].
  intros a Ha. destruct (Z.eqb 1 a) eqn:E; [|reflexivity].
  assert (X : existsb (Z.eqb 1) levels = true) by (apply existsb_exists; now exists a).
  congruence.
Qed.

Lemma heading_skip_effect : forall link pairs,
  steps (page_effect link 2 3)
    (for_each pairs (fun pc : Z * Z =>
       let '(prev, cur) := pc in
       if (1 <? cur - prev)%Z then
         hs_rect <- ask (fun t => w_rect w t JsHeadingSkip) ;;
         report (opt_list hs_rect) "headings" (Some "Heading skip") "Heading level skips" link
           "Use hierarchical headings without skipping levels (e.g., h2 then h3)." "Low" ;;;
         ret Break
       else ret Next)).
Proof.
  intros link pairs. apply for_each_effect; [lia|].
  intros [prev cur] s. unfold bind, ask, ret.
  repeat run_step; body_effect_done.
Qed.

Lemma rule_headings_effect : forall link soup,
  steps (page_effect link 1 3) (rule_headings link soup).
Proof.
  intros link soup s. unfold rule_headings.
  set (loop := for_each _ _).
  assert (L : steps (page_effect link 2 3) loop) by apply heading_skip_effect.
  unfold bind, ask, when, ret.
  destruct (negb (existsb (Z.eqb 1) (soup_headings soup))) eqn:H1.
  - rewrite (one_h1_at_most _ H1). rewrite report_spec. cbn [fst snd].
    eapply page_effect_trans; [|apply L]. page_effect_done.
  - repeat run_step;
      first [ eapply page_effect_trans; [|apply L]; page_effect_done
            | page_effect_done ].
Qed.

Lemma rule_alt_effect : forall link soup,
  steps (page_effect link 3 4) (rule_alt link soup).
Proof.
  intros link soup. unfold rule_alt. apply for_each_effect; [lia|].
  intros img s. unfold bind, ask, ret.
  repeat run_step; body_effect_done.
Qed.

Lemma rule_links_effect : forall link soup,
  steps (page_effect link 6 8) (rule_links link soup).
Proof.
  intros link soup. unfold rule_links. apply for_each_effect; [lia|].
  intros a s.
  unfold check_anchor, link_text_check, link_liveness, try_except, bind, ask, lift, when, ret.
  repeat run_step; body_effect_done.
Qed.

Lemma rule_contrast_effect : forall link styles,
  steps (page_effect link 8 9) (rule_contrast link styles).
Proof.
  intros link styles s. unfold rule_contrast, bind, lift, ret.
  destruct (contrast_loop styles [] None) as [[rects desc]|e]; cbn [fst snd].
  - destruct rects; [|rewrite report_spec]; page_effect_done.
  - page_effect_done.
Qed.

Lemma rule_keyboard_effect : forall link,
  steps (page_effect link 9 11) (rule_keyboard link).
Proof.
  intros link s. unfold rule_keyboard, bind, ask, when, ret.
  repeat run_step; page_effect_done.
Qed.

Lemma rule_forms_effect : forall link soup,
  steps (page_effect link 11 11) (rule_forms link soup).
Proof.
  intros link soup. unfold rule_forms. apply for_each_effect; [lia|].
  intros inputs s. set (inner := for_each inputs _).
  assert (I : steps (page_effect link 11 11) inner).
  { apply for_each_effect; [lia|]. intros inp s0.
    unfold try_except, bind, ask, ret.
    repeat run_step; body_effect_done. }
  unfold bind, ret. specialize (I s).
  destruct (inner s) as [[[]|e] s1]; cbn [fst snd] in *; split; cbn [fst snd]; auto.
Qed.

Lemma rule_nav_effect : forall link soup,
  steps (page_effect link 12 12) (rule_nav link soup).
Proof.
  intros link soup s. unfold rule_nav. apply page_effect_set_nav. page_effect_done.
Qed.

Lemma rule_feedback_effect : forall link soup,
  steps (page_effect link 12 13) (rule_feedback link soup).
Proof.
  intros link soup s. unfold rule_feedback, when, ret.
  repeat run_step; page_effect_done.
Qed.

Lemma rule_readability_effect : forall link styles,
  steps (page_effect link 13 14) (rule_readability link styles).
Proof.
  intros link styles. unfold rule_readability. apply for_each_effect; [lia|].
  intros item s. cbv zeta. unfold bind, ret.
  repeat run_step; body_effect_done.
Qed.

Lemma rule_performance_effect : forall link,
  steps (page_effect link 14 15) (rule_performance link).
Proof.
  intros link s. unfold rule_performance, bind, ask, when, ret.
  repeat run_step; page_effect_done.
Qed.

Lemma rule_images_effect : forall link soup,
  steps (page_effect link 15 16) (rule_images link soup).
Proof.
  intros link soup. unfold rule_images. apply for_each_effect; [lia|].
  intros img s. unfold try_except, bind, ask, lift, ret.
  repeat run_step; body_effect_done.
Qed.

Lemma later_rules_effect : forall link soup styles,
  steps (page_effect link 1 16) (later_rules link soup styles).
Proof.
  intros link soup styles. unfold later_rules.
  apply steps_effect_bind with 3%nat; [lia|apply rule_headings_effect|intros _].
  apply steps_effect_bind with 4%nat; [lia|apply rule_alt_effect|intros _].
  apply steps_effect_bind with 6%nat; [lia|apply rule_viewport_effect|intros _].
  apply steps_effect_bind with 8%nat; [lia|apply rule_links_effect|intros _].
  apply steps_effect_bind with 9%nat; [lia|apply rule_contrast_effect|intros _].
  apply steps_effect_bind with 11%nat; [lia|apply rule_keyboard_effect|intros _].
  apply steps_effect_bind with 11%nat; [lia|apply rule_forms_effect|intros _].
  apply steps_effect_bind with 12%nat; [lia| |intros _].
  { intros s. eapply page_effect_wider; [apply rule_nav_effect|lia|lia]. }
  apply steps_effect_bind with 13%nat; [lia|apply rule_feedback_effect|intros _].
  apply steps_effect_bind with 14%nat; [lia|apply rule_readability_effect|intros _].
  apply steps_effect_bind with 15%nat; [lia|apply rule_performance_effect|intros _].
  apply rule_images_effect.
Qed.

Lemma run_rules_effect : forall link soup styles,
  steps (page_effect link 0 16) (run_rules link soup styles).
Proof.
  intros link soup styles. unfold run_rules.
  apply steps_effect_bind with 1%nat; [lia|apply rule_title_effect|intros _].
  apply later_rules_effect.
Qed.

(** ** One page, then all of them *)

Lemma steps_grows : forall A (m : M A), steps evidence_step m -> forall s, grows s (snd (m s)).
Proof. intros A m H s. apply (H s). Qed.

Lemma run_rules_grows : forall link soup styles s,
  grows s (snd (run_rules link soup styles s)).
Proof.
  intros link soup styles. apply steps_grows, run_rules_steps. intros n sv _. exact I.
Qed.

Lemma scan_pages_grows : forall urls s, grows s (snd (scan_pages urls s)).
Proof.
  intros urls. apply steps_grows, scan_pages_steps. intros n sv _. exact I.
Qed.

Lemma page_shot_ok_later : forall s s' p, grows s s' -> page_shot_ok s p -> page_shot_ok s' p.
Proof.
  intros s s' p [C F] (t & b & E & T & Sv & Fi).
  exists t, b. split; [exact E|]. split; [lia|]. split; [exact Sv|].
  intros Hb. apply F, Fi, Hb.
Qed.

(** Navigation and signal extraction leave the findings and the dicts
    alone, and record the page screenshot when the request to write it
    answers. *)
Lemma load_page_effect : forall link s,
  let s' := snd (load_page link s) in
  let name := shot_name (w_uuid w (S (clock s))) "page" in
  issues s' = issues s
  /\ title_map s' = title_map s
  /\ nav_signatures s' = nav_signatures s
  /\ grows s s'
  /\ (page_screenshots s' = page_screenshots s
      \/ page_screenshots s' = page_screenshots s ++ [(link, name)]
         /\ page_shot_ok s' (link, name)).
Proof.
  intros link s. cbv zeta.
  unfold load_page, try_except, bind, ask, save_screenshot, append_page_shot, ret.
  repeat run_step;
    (split; [reflexivity|]); (split; [reflexivity|]); (split; [reflexivity|]);
    (split; [split; cbn; [lia|first [apply incl_refl|apply incl_appl, incl_refl]]|]);
    cbn [page_screenshots tick add_file];
    first [left; reflexivity|right; split; [reflexivity|]].
  all: unfold page_shot_ok; cbn [snd]; eexists; eexists;
    (split; [reflexivity|]); (split; [cbn; lia|]); (split; [eassumption|]).
  all: cbn; intros Hb; first [discriminate|apply in_or_app; right; now left].
Qed.

Lemma scan_page_effect_holds : forall link s,
  scan_page_effect link s (snd (scan_page link s)).
Proof.
  intros link s. unfold scan_page, try_except, page_body, bind.
  destruct (load_page_effect link s) as (I0 & T0 & N0 & G0 & P0).
  destruct (load_page link s) as [[[soup styles]|e] s0]; cbn [fst snd] in *.
  - pose proof (run_rules_effect link soup styles s0) as ((l & I1 & F1 & B1) & P1 & T1 & N1).
    pose proof (run_rules_grows link soup styles s0) as G1.
    set (out := run_rules link soup styles s0) in *.
    assert (E : exists s1 l1,
               snd (let (r, s') := out in
                    match r with
                    | Val a => (Val a, s')
                    | Raise e => append_issue (page_load_error link e) s'
                    end) = s1
               /\ issues s1 = issues (snd out) ++ l1
               /\ Forall (fun f => page_url f = link) l1
               /\ between 16 17 (map rule_name l1) = true
               /\ page_screenshots s1 = page_screenshots (snd out)
               /\ title_map s1 = title_map (snd out)
               /\ nav_signatures s1 = nav_signatures (snd out)
               /\ files s1 = files (snd out) /\ clock s1 = clock (snd out)).
    { destruct out as [[[]|e] s1]; cbn [snd].
      - exists s1, []. rewrite app_nil_r. repeat split; constructor.
      - eexists. exists [page_load_error link e]. repeat split. repeat constructor. }
    destruct E as (s1 & l1 & -> & I2 & F2 & B2 & P2 & T2 & N2 & Fi2 & C2).
    assert (G2 : grows s s1).
    { apply grows_trans with s0; [exact G0|].
      destruct G1 as [Gc Gf]. split; [lia|now rewrite Fi2]. }
    split; [|split; [|split; [|split]]].
    + exists (l ++ l1). rewrite I2, I1, I0, app_assoc. split; [reflexivity|].
      split; [apply Forall_app; now split|].
      unfold in_rule_order. rewrite map_app. now apply between_app with 16%nat.
    + rewrite P2, P1. destruct P0 as [P0|[P0 K]].
      * exists []. rewrite app_nil_r. split; [exact P0|]. split; [now left|constructor].
      * eexists. split; [exact P0|]. split; [right; now eexists|].
        constructor; [|constructor].
        apply page_shot_ok_later with s0; [|exact K].
        destruct G1 as [Gc Gf]. split; [lia|now rewrite Fi2].
    + now rewrite T2, <- T0.
    + now rewrite N2, <- N0.
    + exact G2.
  - split; [|split; [|split; [|split]]].
    + exists [page_load_error link e]. rewrite <- I0. split; [reflexivity|].
      split; repeat constructor.
    + destruct P0 as [P0|[P0 K]].
      * exists []. rewrite app_nil_r. split; [exact P0|]. split; [now left|constructor].
      * eexists. split; [exact P0|]. split; [right; now eexists|].
        constructor; [|constructor]. exact K.
    + cbn. rewrite T0. apply incl_tl, incl_refl.
    + cbn. rewrite N0. apply incl_tl, incl_refl.
    + exact G0.
Qed.

Lemma scan_pages_returns : forall urls s, fst (scan_pages urls s) = Val tt.
Proof.
  induction urls as [|link rest IH]; intros s; [reflexivity|].
  rewrite scan_pages_cons. apply IH.
Qed.

Lemma scan_pages_effect : forall urls s,
  let s' := snd (scan_pages urls s) in
  exists blocks shots,
    issues s' = issues s ++ List.concat blocks
    /\ Forall2 (fun link block =>
                  Forall (fun f => page_url f = link) block /\ in_rule_order block)
               urls blocks
    /\ page_screenshots s' = page_screenshots s ++ shots
    /\ subseq (map fst shots) urls
    /\ Forall (page_shot_ok s') shots
    /\ incl (map fst (title_map s')) (urls ++ map fst (title_map s))
    /\ incl (map fst (nav_signatures s')) (urls ++ map fst (nav_signatures s)).
Proof.
  induction urls as [|link rest IH]; intros s; cbv zeta.
  - exists [], []. cbn. rewrite !app_nil_r.
    repeat split; try constructor; apply incl_refl.
  - rewrite scan_pages_cons.
    destruct (scan_page_effect_holds link s)
      as ((l & I1 & F1 & O1) & (sh & P1 & Sh & K1) & T1 & N1 & G1).
    set (s1 := snd (scan_page link s)) in *.
    destruct (IH s1) as (blocks & shots & I2 & F2 & P2 & S2 & K2 & T2 & N2).
    pose proof (scan_pages_grows rest s1) as G2.
    set (s2 := snd (scan_pages rest s1)) in *.
    exists (l :: blocks), (sh ++ shots).
    split; [cbn; rewrite I2, I1; now rewrite app_assoc|].
    split; [constructor; [now split|exact F2]|].
    split; [rewrite P2, P1; now rewrite app_assoc|].
    split; [|split; [|split]].
    + destruct Sh as [->|[name ->]]; cbn; [now apply subseq_skip|now apply subseq_take].
    + apply Forall_app. split; [|exact K2].
      eapply Forall_impl; [|exact K1]. intros p. now apply page_shot_ok_later.
    + intros x Hx. apply T2 in Hx. apply in_app_or in Hx. destruct Hx as [Hx|Hx].
      * right. apply in_or_app. now left.
      * apply T1 in Hx. destruct Hx as [<-|Hx]; [now left|].
        right. apply in_or_app. now right.
    + intros x Hx. apply N2 in Hx. apply in_app_or in Hx. destruct Hx as [Hx|Hx].
      * right. apply in_or_app. now left.
      * apply N1 in Hx. destruct Hx as [<-|Hx]; [now left|].
        right. apply in_or_app. now right.
Qed.

(** The scan, step by step: the session starts or the scan ends there; the
    pages never end it; the cross-page checks and the end of the session
    may. *)
Lemma scan_unfold : forall urls,
  scan urls init_state
  = match w_start w 0 with
    | Raise e => (Raise e, tick init_state)
    | Val _ =>
        let s1 := snd (scan_pages urls (tick (tick init_state))) in
        match cross_page s1 with
        | (Val _, s2) => (w_quit w (clock s2), tick s2)
        | (Raise e, s2) => (Raise e, s2)
        end
    end.
Proof.
  intros urls. unfold scan, swallow, try_except, bind, ask, ret. cbn [init_state clock].
  destruct (w_start w 0) as [[]|e]; [|reflexivity]. cbn [tick clock].
  destruct (w_set_window_size w _) as [[]|e]; cbn [fst snd];
    pose proof (scan_pages_returns urls (tick (tick init_state))) as R;
    destruct (scan_pages urls (tick (tick init_state))) as [[[]|e'] s1];
    cbn [fst snd] in R |- *; try discriminate;
    destruct (cross_page s1) as [[[]|e'] s2]; reflexivity.
Qed.

(** ** The findings of a whole scan *)

Lemma cross_page_state : forall s,
  snd (cross_page s)
  = mkState (issues s ++ duplicate_title_findings (title_map s)
               ++ match inconsistent_nav_findings (nav_signatures s) with
                  | Val l => l
                  | Raise _ => []
                  end)
            (page_screenshots s) (title_map s) (nav_signatures s) (files s) (clock s).
Proof.
  intros s. unfold cross_page, bind, get_state, lift. rewrite append_issues_spec. cbn.
  destruct (inconsistent_nav_findings (nav_signatures s)) as [l|e]; cbn.
  - rewrite append_issues_spec. cbn. now rewrite app_assoc.
  - now rewrite app_nil_r.
Qed.

Lemma duplicate_title_findings_cross : forall tm urls,
  incl (map fst tm) urls ->
  Forall (cross_page_finding urls) (duplicate_title_findings tm).
Proof.
  intros tm urls H. rewrite duplicate_title_findings_filter.
  apply Forall_forall. intros f Hf. apply in_map_iff in Hf.
  destruct Hf as ([page t] & <- & Hp). apply filter_In in Hp. destruct Hp as [Hp _].
  split; [|split; [reflexivity|now left]].
  apply H. cbn. apply in_map_iff. now exists (page, t).
Qed.

Lemma inconsistent_nav_findings_cross : forall ns urls l,
  incl (map fst ns) urls ->
  inconsistent_nav_findings ns = Val l ->
  Forall (cross_page_finding urls) l.
Proof.
  intros ns urls l H. unfold inconsistent_nav_findings.
  destruct (1 <? List.length ns)%nat; [|intros E; inversion E; constructor].
  destruct (majority (dict_values ns)) as [maj|e]; cbn; [|discriminate].
  intros E. inversion E; subst. clear E.
  apply Forall_forall. intros f Hf. apply in_flat_map in Hf.
  destruct Hf as ([page sig] & Hp & Hf). cbn in Hf.
  destruct (_ && _ && _); [|contradiction]. destruct Hf as [<-|[]].
  split; [|split; [reflexivity|now right]].
  apply H. cbn. apply in_map_iff. now exists (page, sig).
Qed.

Lemma Forall2_nothing : forall A B (P : A -> list B -> Prop) (l : list A),
  (forall a, P a []) -> Forall2 P l (map (fun _ => []) l) /\ List.concat (map (fun _ : A => @nil B) l) = [].
Proof.
  intros A B P l H. induction l as [|a l [IH1 IH2]]; cbn; split;
    try constructor; auto.
Qed.

(** The state a scan ends in: that of the start, or that of the cross-page
    checks with one more tick when the session could be ended. *)
Lemma scan_end : forall urls,
  let s := snd (scan urls init_state) in
  let s1 := snd (scan_pages urls (tick (tick init_state))) in
  (s = tick init_state /\ exists e, w_start w 0 = Raise e)
  \/ ((s = snd (cross_page s1) \/ s = tick (snd (cross_page s1)))
      /\ exists u, w_start w 0 = Val u).
Proof.
  intros urls. cbv zeta. rewrite scan_unfold.
  destruct (w_start w 0) as [u|e]; [right|left; split; [reflexivity|now exists e]].
  split; [|now exists u]. cbv zeta.
  destruct (cross_page _) as [[[]|e] s2]; cbn; auto.
Qed.

Lemma scan_pages_from_start : forall urls,
  let s1 := snd (scan_pages urls (tick (tick init_state))) in
  exists blocks,
    issues s1 = List.concat blocks
    /\ Forall2 (fun link block =>
                  Forall (fun f => page_url f = link) block /\ in_rule_order block)
               urls blocks
    /\ subseq (map fst (page_screenshots s1)) urls
    /\ Forall (page_shot_ok s1) (page_screenshots s1)
    /\ incl (map fst (title_map s1)) urls
    /\ incl (map fst (nav_signatures s1)) urls.
Proof.
  intros urls. cbv zeta.
  destruct (scan_pages_effect urls (tick (tick init_state)))
    as (blocks & shots & I & F & P & S & K & T & N).
  cbn in I, P, T, N. rewrite app_nil_r in T, N.
  exists blocks. rewrite P. now repeat split.
Qed.

(** X1. The findings of a scan are grouped by page: one block per URL, in
    the order of [urls], whose findings are about that URL and in rule
    order; after the blocks come the findings of the cross-page checks,
    without evidence and about URLs of the list. *)
Theorem findings_grouped_by_page : forall urls,
  exists blocks cross,
    issues (snd (scan urls init_state)) = List.concat blocks ++ cross
    /\ Forall2 (fun link block =>
                  Forall (fun f => page_url f = link) block /\ in_rule_order block)
               urls blocks
    /\ Forall (cross_page_finding urls) cross.
Proof.
  intros urls.
  destruct (scan_end urls) as [[E _]|[E _]].
  - rewrite E.
    destruct (Forall2_nothing string Finding
                (fun link block => Forall (fun f => page_url f = link) block
                                   /\ in_rule_order block) urls) as [F C].
    { intros a. split; constructor. }
    eexists. exists []. rewrite C. repeat split; [exact F|constructor].
  - destruct (scan_pages_from_start urls) as (blocks & I & F & _ & _ & T & N).
    set (s1 := snd (scan_pages urls (tick (tick init_state)))) in *.
    assert (Ei : issues (snd (scan urls init_state)) = issues (snd (cross_page s1))).
    { destruct E as [->| ->]; reflexivity. }
    rewrite Ei, cross_page_state. cbn [issues]. rewrite I.
    exists blocks. eexists. split; [reflexivity|]. split; [exact F|].
    apply Forall_app. split; [now apply duplicate_title_findings_cross|].
    destruct (inconsistent_nav_findings (nav_signatures s1)) as [l|e] eqn:En; [|constructor].
    now apply inconsistent_nav_findings_cross with (nav_signatures s1).
Qed.

(** X2. The page screenshots a scan records follow the URL list: at most
    one entry per scanned URL, in scan order, each named
    [screenshot_<id>_page.png] after a request to write the file that
    answered, and whose file is there when the answer was [True]. *)
Theorem page_screenshots_follow_urls : forall urls,
  let s := snd (scan urls init_state) in
  subseq (map fst (page_screenshots s)) urls
  /\ Forall (page_shot_ok s) (page_screenshots s).
Proof.
  intros urls. cbv zeta.
  destruct (scan_end urls) as [[E _]|[E _]].
  - rewrite E. cbn. split; [|constructor].
    clear E. induction urls; now constructor.
  - destruct (scan_pages_from_start urls) as (blocks & _ & _ & S & K & _ & _).
    set (s1 := snd (scan_pages urls (tick (tick init_state)))) in *.
    assert (G : grows s1 (snd (scan urls init_state))
                /\ page_screenshots (snd (scan urls init_state)) = page_screenshots s1).
    { destruct E as [->| ->]; rewrite cross_page_state; cbn;
        (split; [split; cbn; [lia|apply incl_refl]|reflexivity]). }
    destruct G as [G Ep]. rewrite Ep. split; [exact S|].
    eapply Forall_impl; [|exact K]. intros p. now apply page_shot_ok_later.
Qed.

Lemma advance_ranks : forall names lo b,
  advance lo names = Some b ->
  Forall (fun n => repeatable n = false -> (rule_rank n < b)%nat) names.
Proof.
  induction names as [|n rest IH]; cbn [advance]; intros lo b H; [constructor|].
  destruct (lo <=? rule_rank n)%nat; [|discriminate].
  constructor; [|eapply IH; exact H].
  intros Rp. rewrite Rp in H. apply advance_ge in H. lia.
Qed.

Lemma in_rule_order_not_cross : forall l,
  in_rule_order l ->
  Forall (fun f => rule_name f <> "Non-unique page title"
                   /\ rule_name f <> "Inconsistent navigation") l.
Proof.
  intros l H. unfold in_rule_order, between in H.
  destruct (advance 0 (map rule_name l)) as [b|] eqn:E; [|discriminate].
  apply Nat.leb_le in H. apply advance_ranks in E.
  rewrite Forall_map in E. eapply Forall_impl; [|exact E].
  intros f Hf. cbv beta in Hf.
  split; intros N; rewrite N in Hf; specialize (Hf eq_refl);
    vm_compute in Hf; lia.
Qed.

Lemma count_rule_group : forall n added,
  repeatable n = false ->
  (count_rule n added
   <= List.length (filter (fun m => (rule_rank m =? rule_rank n)%nat && negb (repeatable m))
                          (map rule_name added)))%nat.
Proof.
  intros n added Rp. unfold count_rule.
  induction added as [|f added IH]; cbn [filter map List.length]; [lia|].
  destruct (String.eqb (rule_name f) n) eqn:E.
  - apply String.eqb_eq in E. rewrite E, Nat.eqb_refl, Rp. cbn. lia.
  - destruct (_ && _); cbn; lia.
Qed.

Lemma count_rule_pair : forall n1 n2 added,
  n1 <> n2 -> rule_rank n2 = rule_rank n1 ->
  repeatable n1 = false -> repeatable n2 = false ->
  (count_rule n1 added + count_rule n2 added
   <= List.length (filter (fun m => (rule_rank m =? rule_rank n1)%nat && negb (repeatable m))
                          (map rule_name added)))%nat.
Proof.
  intros n1 n2 added D K R1 R2. unfold count_rule.
  induction added as [|f added IH]; cbn [filter map List.length]; [lia|].
  destruct (String.eqb (rule_name f) n1) eqn:E1.
  - apply String.eqb_eq in E1. rewrite E1, Nat.eqb_refl, R1.
    assert (E2 : String.eqb n1 n2 = false) by now apply String.eqb_neq.
    rewrite E2. cbn. lia.
  - destruct (String.eqb (rule_name f) n2) eqn:E2.
    + apply String.eqb_eq in E2. rewrite E2, K, Nat.eqb_refl, R2. cbn. lia.
    + destruct (_ && _); cbn; lia.
Qed.

Lemma in_rule_order_group : forall l k,
  in_rule_order l ->
  (List.length (filter (fun m => (rule_rank m =? k)%nat && negb (repeatable m))
                       (map rule_name l)) <= 1)%nat.
Proof.
  intros l k H. unfold in_rule_order, between in H.
  destruct (advance 0 (map rule_name l)) as [b|] eqn:E; [|discriminate].
  apply (advance_once _ _ _ k E).
Qed.

Lemma scan_page_added : forall link s,
  exists added,
    issues (snd (scan_page link s)) = issues s ++ added
    /\ Forall (fun f => page_url f = link) added
    /\ in_rule_order added.
Proof. intros link s. apply (scan_page_effect_holds link s). Qed.

Lemma repeatable_rank : forall n,
  repeatable n = true -> (6 <= rule_rank n < 12)%nat.
Proof.
  intros n H. unfold repeatable, PyStr.mem in H. cbn [existsb] in H.
  rewrite orb_false_r in H. apply orb_true_iff in H.
  destruct H as [H|H]; apply String.eqb_eq in H; subst n; vm_compute; lia.
Qed.

Lemma advance_next : forall n rest lo b,
  advance lo (n :: rest) = Some b ->
  (lo <= rule_rank n)%nat
  /\ (rule_rank n <= b)%nat
  /\ (repeatable n = false -> (rule_rank n < b)%nat)
  /\ advance (if repeatable n then rule_rank n else S (rule_rank n)) rest = Some b.
Proof.
  intros n rest lo b H. cbn [advance] in H.
  destruct (lo <=? rule_rank n)%nat eqn:E; [|discriminate].
  apply Nat.leb_le in E. pose proof (advance_ge _ _ _ H) as G.
  split; [exact E|].
  destruct (repeatable n); (split; [lia|]); (split; [intros; first [discriminate|lia]|]);
    exact H.
Qed.

(** X3. The findings the scan of one page appends are about that page and
    follow the order of the rule blocks, from the title to the broken
    images: a title finding comes first and the "Page load error" of the
    page, if any, comes last. *)
Theorem page_findings_in_rule_order : forall link s,
  exists added,
    issues (snd (scan_page link s)) = issues s ++ added
    /\ Forall (fun f => page_url f = link) added
    /\ in_rule_order added
    /\ (forall before f after,
          added = before ++ f :: after ->
          rule_name f = "Page load error" -> after = [])
    /\ (forall before f after,
          added = before ++ f :: after ->
          rule_name f = "Page title not descriptive" -> before = []).
Proof.
  intros link s. destruct (scan_page_added link s) as (added & I & F & O).
  exists added. split; [exact I|]. split; [exact F|]. split; [exact O|].
  unfold in_rule_order, between in O.
  destruct (advance 0 (map rule_name added)) as [b|] eqn:A; [|discriminate].
  apply Nat.leb_le in O. split.
  - intros before f after -> N. rewrite map_app, advance_app in A.
    destruct (advance 0 (map rule_name before)) as [m|]; [|discriminate].
    cbn [map] in A. apply advance_next in A.
    destruct A as (_ & _ & _ & A). rewrite N in A.
    change (repeatable "Page load error") with false in A.
    change (rule_rank "Page load error") with 16%nat in A.
    destruct after as [|g after]; [reflexivity|]. exfalso.
    cbn [map] in A. apply advance_next in A. destruct A as (G1 & G2 & G3 & _).
    destruct (repeatable (rule_name g)) eqn:Rp.
    + apply repeatable_rank in Rp. lia.
    + specialize (G3 eq_refl). lia.
  - intros before f after -> N. rewrite map_app, advance_app in A.
    destruct before as [|g before]; [reflexivity|]. exfalso.
    destruct (advance 0 (map rule_name (g :: before))) as [m|] eqn:B; [|discriminate].
    cbn [map] in A, B. apply advance_next in A. destruct A as (A & _).
    rewrite N in A. change (rule_rank "Page title not descriptive") with 0%nat in A.
    apply advance_next in B. destruct B as (_ & G2 & G3 & _).
    destruct (repeatable (rule_name g)) eqn:Rp.
    + apply repeatable_rank in Rp. lia.
    + specialize (G3 eq_refl). lia.
Qed.

(** X4. In the scan of one page every rule reports at most once, apart
    from the link-text rule (once per anchor) and the form-label rule (once
    per form); the findings that exclude each other come at most once
    together: a missing and a multiple H1, an empty and a dead link, a small
    font and a tight line spacing. *)
Theorem page_rules_report_once : forall link s,
  exists added,
    issues (snd (scan_page link s)) = issues s ++ added
    /\ (forall n, n <> "Link text not descriptive" -> n <> "Form field missing label" ->
                  (count_rule n added <= 1)%nat)
    /\ (count_rule "Missing H1 heading" added
        + count_rule "Multiple H1 headings" added <= 1)%nat
    /\ (count_rule "Empty or broken link" added
        + count_rule "Broken link detected" added <= 1)%nat
    /\ (count_rule "Small font size" added
        + count_rule "Tight line spacing" added <= 1)%nat.
Proof.
  intros link s. destruct (scan_page_added link s) as (added & I & _ & O).
  exists added. split; [exact I|].
  split; [|split; [|split]].
  - intros n N1 N2.
    assert (Rp : repeatable n = false).
    { unfold repeatable, PyStr.mem. cbn [existsb]. rewrite orb_false_r.
      apply orb_false_iff. split; now apply String.eqb_neq. }
    eapply Nat.le_trans; [now apply count_rule_group|now apply in_rule_order_group].
  - eapply Nat.le_trans; [|exact (in_rule_order_group added 1 O)].
    apply (count_rule_pair "Missing H1 heading" "Multiple H1 headings");
      [discriminate|vm_compute; reflexivity..].
  - eapply Nat.le_trans; [|exact (in_rule_order_group added 7 O)].
    apply (count_rule_pair "Empty or broken link" "Broken link detected");
      [discriminate|vm_compute; reflexivity..].
  - eapply Nat.le_trans; [|exact (in_rule_order_group added 13 O)].
    apply (count_rule_pair "Small font size" "Tight line spacing");
      [discriminate|vm_compute; reflexivity..].
Qed.

Lemma NoDup_all_equal : forall (l : list string),
  NoDup l -> (forall u v, In u l -> In v l -> u = v) -> (List.length l <= 1)%nat.
Proof.
  intros l H E. destruct H as [|x l Hx Hl]; cbn; [lia|].
  destruct l as [|y l]; cbn; [lia|]. exfalso. apply Hx.
  rewrite (E x y); [now left|now left|right; now left].
Qed.

Lemma Forall_concat_blocks : forall (P : Finding -> Prop) (Q : string -> list Finding -> Prop)
    urls blocks,
  (forall link block, Q link block -> Forall P block) ->
  Forall2 Q urls blocks -> Forall P (List.concat blocks).
Proof.
  intros P Q urls blocks H F. induction F as [|link block urls blocks Hq F IH]; cbn.
  - constructor.
  - apply Forall_app. split; [now apply H with link|exact IH].
Qed.

Lemma single_entry_no_findings : forall d,
  (List.length d <= 1)%nat ->
  duplicate_title_findings d = [] /\ inconsistent_nav_findings d = Val [].
Proof.
  intros d H. unfold duplicate_title_findings, inconsistent_nav_findings.
  assert (E : (1 <? List.length d)%nat = false) by (apply Nat.ltb_ge; lia).
  now rewrite E.
Qed.

(** X5. A URL listed several times is one page for the cross-page checks:
    when the URLs of the list are all the same, the scan gives no
    "Non-unique page title" and no "Inconsistent navigation" finding, however
    often the page was scanned. *)
Theorem repeated_url_is_one_page : forall urls,
  (forall u v, In u urls -> In v urls -> u = v) ->
  Forall (fun f => rule_name f <> "Non-unique page title"
                   /\ rule_name f <> "Inconsistent navigation")
         (issues (snd (scan urls init_state))).
Proof.
  intros urls Same.
  destruct (scan_end urls) as [[E _]|[E _]]; [rewrite E; constructor|].
  destruct (scan_pages_from_start urls) as (blocks & I & F & _ & _ & T & N).
  pose proof (scan_pages_keys_distinct urls (tick (tick init_state))) as K.
  set (s1 := snd (scan_pages urls (tick (tick init_state)))) in *.
  destruct K as [K1 K2]; [split; constructor|].
  assert (Ei : issues (snd (scan urls init_state)) = issues (snd (cross_page s1))).
  { destruct E as [->| ->]; reflexivity. }
  assert (L1 : (List.length (title_map s1) <= 1)%nat).
  { rewrite <- (length_map fst). apply NoDup_all_equal; [exact K1|].
    intros u v Hu Hv. apply Same; now apply T. }
  assert (L2 : (List.length (nav_signatures s1) <= 1)%nat).
  { rewrite <- (length_map fst). apply NoDup_all_equal; [exact K2|].
    intros u v Hu Hv. apply Same; now apply N. }
  rewrite Ei, cross_page_state. cbn [issues].
  rewrite (proj1 (single_entry_no_findings _ L1)), (proj2 (single_entry_no_findings _ L2)).
  rewrite !app_nil_r, I.
  eapply Forall_concat_blocks; [|exact F].
  intros link block [_ O]. now apply in_rule_order_not_cross.
Qed.

Section WholeScan.

(** Iterating over [set(l)] gives the elements of [l], in some order. *)
Hypothesis set_members : forall l x, In x (set_iter l) <-> In x l.

Lemma inconsistent_nav_findings_returns : forall ns,
  exists l, inconsistent_nav_findings ns = Val l.
Proof.
  intros ns. unfold inconsistent_nav_findings.
  destruct (1 <? List.length ns)%nat eqn:E; [|now eexists].
  apply Nat.ltb_lt in E.
  assert (N : dict_values ns <> []).
  { destruct ns; cbn in *; [lia|discriminate]. }
  destruct (majority_spec set_members (dict_values ns) N) as (maj & _ & _ & M & _).
  rewrite M. cbn. now eexists.
Qed.

Lemma cross_page_returns : forall s, fst (cross_page s) = Val tt.
Proof.
  intros s. unfold cross_page, bind, get_state, lift. rewrite append_issues_spec.
  destruct (inconsistent_nav_findings_returns (nav_signatures s)) as [l E].
  cbn. rewrite E. now rewrite append_issues_spec.
Qed.

(** X6. A scan ends with an exception only when the browser session cannot
    be started or cannot be ended: no page and no cross-page check ends it.
    When ending the session raises, the findings collected are lost with
    it. *)
Theorem run_scan_raises_only_at_start_or_quit : forall urls,
  let s2 := snd (cross_page (snd (scan_pages urls (tick (tick init_state))))) in
  (forall e, w_start w 0 = Raise e -> run_scan urls = Raise e)
  /\ (forall u e, w_start w 0 = Val u -> w_quit w (clock s2) = Raise e ->
                  run_scan urls = Raise e)
  /\ (forall u v, w_start w 0 = Val u -> w_quit w (clock s2) = Val v ->
                  run_scan urls = Val (issues s2, page_screenshots s2)).
Proof.
  intros urls. cbv zeta. unfold run_scan. rewrite scan_unfold. cbv zeta.
  pose proof (cross_page_returns (snd (scan_pages urls (tick (tick init_state))))) as R.
  destruct (cross_page _) as [[[]|e'] s2]; cbn [fst snd] in *; [|discriminate].
  split; [|split].
  - intros e ->. reflexivity.
  - intros u e -> ->. reflexivity.
  - intros u v -> ->. reflexivity.
Qed.

End WholeScan.

(** ** The findings of the markup rules *)

Lemma always_ret : forall A (a : A), always (ret a) a [].
Proof. intros A a s. exists s, []. now rewrite app_nil_r. Qed.

Lemma always_report : forall rects key label name link desc sev,
  always (report rects key label name link desc sev) tt [name].
Proof.
  intros. intros s. rewrite report_spec. eexists. eexists.
  split; [reflexivity|]. split; reflexivity.
Qed.

Lemma always_bind : forall A B (m : M A) (f : A -> M B) a b n1 n2,
  always m a n1 -> always (f a) b n2 -> always (bind m f) b (n1 ++ n2).
Proof.
  intros A B m f a b n1 n2 Hm Hf s.
  destruct (Hm s) as (s1 & l1 & E1 & I1 & N1).
  destruct (Hf s1) as (s2 & l2 & E2 & I2 & N2).
  exists s2, (l1 ++ l2). unfold bind. rewrite E1, E2.
  split; [reflexivity|]. split; [now rewrite I2, I1, app_assoc|].
  now rewrite map_app, N1, N2.
Qed.

Lemma always_ask : forall A B (q : nat -> res A) (f : A -> M B) b names,
  (forall t, exists r, q t = Val r) ->
  (forall r, always (f r) b names) ->
  always (bind (ask q) f) b names.
Proof.
  intros A B q f b names Hq Hf s. destruct (Hq (clock s)) as [r Er].
  destruct (Hf r (tick s)) as (s2 & l & E & I & N).
  exists s2, l. unfold bind, ask. rewrite Er. now split.
Qed.

Lemma always_when : forall c (m : M unit) names,
  always m tt names -> always (when c m) tt (if c then names else []).
Proof. intros [] m names H; [exact H|apply always_ret]. Qed.

Lemma always_try_except : forall A (m : M A) h a names,
  always m a names -> always (try_except m h) a names.
Proof.
  intros A m h a names H s. destruct (H s) as (s' & l & E & I & N).
  exists s', l. unfold try_except. now rewrite E.
Qed.

(** A loop that ends at the first element that passes the test [c]. *)
Lemma always_for_each : forall A (body : A -> M flow) (c : A -> bool) names l,
  (forall x, c x = true -> always (body x) Break names) ->
  (forall x, c x = false -> always (body x) Next []) ->
  always (for_each l body) tt (if existsb c l then names else []).
Proof.
  intros A body c names l Hit Miss. induction l as [|x l IH]; cbn [for_each existsb].
  - apply always_ret.
  - destruct (c x) eqn:C; cbn [orb].
    + rewrite <- (app_nil_r names).
      apply always_bind with Break; [now apply Hit|apply always_ret].
    + change (if existsb c l then names else []) with ([] ++ if existsb c l then names else []).
      apply always_bind with Next; [now apply Miss|exact IH].
Qed.

Section Answering.

Hypothesis answers : scripts_answer.

Lemma rect_answers : forall q t, exists r, w_rect w t q = Val r.
Proof. intros q t. apply (proj1 answers). Qed.

Lemma rects_answer : forall q t, exists r, w_rects w t q = Val r.
Proof. intros q t. apply (proj2 answers). Qed.

(** X10. The heading rule, when the locating scripts answer: "Missing H1
    heading" exactly when no heading is an [h1], "Multiple H1 headings"
    exactly when more than one is, never both; then "Heading level skips",
    once, exactly when some heading lies more than one level below the
    heading before it. Going back up by any number of levels is no skip. *)
Theorem heading_findings : forall link soup,
  let levels := soup_headings soup in
  always (rule_headings link soup) tt
    ((if existsb (Z.eqb 1) levels then [] else ["Missing H1 heading"])
     ++ (if (1 <? List.length (filter (Z.eqb 1) levels))%nat
         then ["Multiple H1 headings"] else [])
     ++ (if existsb skips_level (combine levels (tl levels))
         then ["Heading level skips"] else []))
  /\ (existsb (Z.eqb 1) levels = false ->
      (1 <? List.length (filter (Z.eqb 1) levels))%nat = false)
  /\ (Forall (fun pc => (snd pc <= fst pc + 1)%Z) (combine levels (tl levels)) ->
      existsb skips_level (combine levels (tl levels)) = false).
Proof.
  intros link soup levels. split; [|split].
  - unfold rule_headings. fold levels.
    apply always_bind with tt.
    { replace (if existsb (Z.eqb 1) levels then [] else ["Missing H1 heading"])
        with (if negb (existsb (Z.eqb 1) levels) then ["Missing H1 heading"] else [])
        by now destruct (existsb (Z.eqb 1) levels).
      apply always_when, always_report. }
    apply always_bind with tt.
    { apply always_when. apply always_ask; [apply rects_answer|].
      intros mh. apply always_report. }
    apply always_for_each with (c := skips_level).
    + intros [prev cur] C. unfold skips_level in C. cbn [fst snd] in C. rewrite C.
      apply always_ask; [apply rect_answers|]. intros r.
      change ["Heading level skips"] with (["Heading level skips"] ++ []).
      apply always_bind with tt; [apply always_report|apply always_ret].
    + intros [prev cur] C. unfold skips_level in C. cbn [fst snd] in C. rewrite C.
      apply always_ret.
  - intros H. apply one_h1_at_most. now rewrite H.
  - intros H. apply not_true_is_false. intros E. apply existsb_exists in E.
    destruct E as (pc & Hp & Sk). rewrite Forall_forall in H. specialize (H pc Hp).
    unfold skips_level in Sk. apply Z.ltb_lt in Sk. lia.
Qed.


Lemma always_quiet_bind : forall A B (m : M A) (f : A -> M B) b names,
  (forall s, exists a s', m s = (Val a, s') /\ issues s' = issues s) ->
  (forall a, always (f a) b names) ->
  always (bind m f) b names.
Proof.
  intros A B m f b names Hm Hf s. destruct (Hm s) as (a & s1 & E1 & I1).
  destruct (Hf a s1) as (s2 & l & E2 & I2 & N).
  exists s2, l. unfold bind. rewrite E1, E2.
  split; [reflexivity|]. split; [now rewrite I2, I1|exact N].
Qed.

(** A loop that visits every element. *)
Lemma always_for_each_all : forall A (body : A -> M flow) (names : A -> list string) l,
  (forall x, always (body x) Next (names x)) ->
  always (for_each l body) tt (flat_map names l).
Proof.
  intros A body names l H. induction l as [|x l IH]; cbn [for_each flat_map].
  - apply always_ret.
  - apply always_bind with Next; [apply H|exact IH].
Qed.

Hypothesis found : elements_found.

(** X12. The form rule, when elements are found and the locating scripts
    answer: one "Form field missing label" finding for every form that has
    a control without a label, in the order of the forms, and none for a form
    whose controls are all labelled; so never more findings than forms. *)
Theorem form_findings : forall link soup,
  let names :=
    flat_map (fun inputs => if existsb (fun inp => negb (labelled inp)) inputs
                            then ["Form field missing label"] else [])
             (soup_forms soup) in
  always (rule_forms link soup) tt names
  /\ (List.length names <= List.length (soup_forms soup))%nat
  /\ (Forall (fun inputs => forallb labelled inputs = true) (soup_forms soup) -> names = []).
Proof.
  intros link soup names. split; [|split].
  - unfold rule_forms. apply always_for_each_all. intros inputs.
    rewrite <- (app_nil_r (if existsb _ inputs then _ else _)).
    apply always_bind with tt; [|apply always_ret].
    apply always_for_each with (c := fun inp => negb (labelled inp)).
    + intros inp C. apply negb_true_iff in C. unfold labelled in C. cbv zeta. rewrite C.
      apply always_ask; [intros t; apply found|]. intros el.
      apply always_ask; [apply rect_answers|]. intros rect.
      apply always_quiet_bind.
      * intros s. unfold try_except, ask, ret.
        destruct (opt_truthy (inp_id inp)); [|now eexists; eexists].
        destruct (w_rect w (clock s) _); eexists; eexists; split; reflexivity.
      * intros rect'.
        change ["Form field missing label"] with (["Form field missing label"] ++ []).
        apply always_bind with tt; [apply always_report|apply always_ret].
    + intros inp C. apply negb_false_iff in C. unfold labelled in C. cbv zeta. rewrite C.
      apply always_ret.
  - subst names. induction (soup_forms soup) as [|inputs forms IH]; cbn [flat_map List.length];
      [lia|].
    rewrite length_app. destruct (existsb _ inputs); cbn [List.length]; lia.
  - intros H. subst names. induction H as [|inputs forms Hi Hf IH]; cbn [flat_map];
      [reflexivity|].
    rewrite IH, app_nil_r.
    destruct (existsb (fun inp => negb (labelled inp)) inputs) eqn:E; [|reflexivity].
    apply existsb_exists in E. destruct E as (inp & Hin & N).
    rewrite forallb_forall in Hi. rewrite (Hi inp Hin) in N. discriminate.
Qed.

End Answering.

(** ** Empty links and broken images *)

Lemma no_target_empty : forall a, no_target a <-> empty_href a = true.
Proof.
  intros a. unfold no_target, empty_href. split.
  - intros [H|[H|[H|H]]]; rewrite H; reflexivity.
  - intros He. destruct (a_href a) as [h|]; [|now left]. right.
    cbn [opt_truthy opt_str] in He. destruct h as [|c h]; [now left|right].
    cbn [PyStr.truthy negb orb] in He. unfold PyStr.mem, noop_hrefs in He.
    cbn [existsb] in He. rewrite orb_false_r in He.
    apply orb_true_iff in He. destruct He as [E|E].
    + apply String.eqb_eq in E. left. now rewrite E.
    + apply orb_true_iff in E. destruct E as [E|E]; [discriminate|].
      apply String.eqb_eq in E. right. now rewrite E.
Qed.

(** A loop never goes past an element at which its body breaks or raises. *)
Lemma for_each_stops : forall A (body : A -> M flow) before x rest s,
  (forall s0, fst (body x s0) <> Val Next) ->
  for_each (before ++ x :: rest) body s = for_each (before ++ [x]) body s.
Proof.
  intros A body before x rest s Hx. revert s.
  induction before as [|y before IH]; intros s; cbn [app for_each]; unfold bind.
  - specialize (Hx s). destruct (body x s) as [[[]|e] s1]; cbn [fst] in Hx;
      [contradiction|reflexivity|reflexivity].
  - destruct (body y s) as [[[]|e] s1]; [apply IH|reflexivity|reflexivity].
Qed.

Lemma iter_tick_shift : forall n s, Nat.iter n tick (tick s) = tick (Nat.iter n tick s).
Proof.
  induction n as [|n IH]; intros s; [reflexivity|].
  rewrite !Nat.iter_succ. now rewrite IH.
Qed.

Lemma for_each_passed : forall A (body : A -> M flow) before rest s,
  (forall x s0, In x before -> body x s0 = (Val Next, tick s0)) ->
  for_each (before ++ rest) body s
  = for_each rest body (Nat.iter (List.length before) tick s).
Proof.
  intros A body before rest. induction before as [|y before IH]; intros s H;
    cbn [app for_each List.length]; [reflexivity|].
  unfold bind. rewrite (H y s (or_introl eq_refl)).
  rewrite IH by (intros x s0 Hin; apply H; now right).
  now rewrite iter_tick_shift, Nat.iter_succ.
Qed.

(** An anchor with a target, a text of its own and a page behind it costs
    one fetch and leaves no trace. *)
Lemma passes_quietly_next : forall link a s,
  passes_quietly link a -> check_anchor link a s = (Val Next, tick s).
Proof.
  intros link a s (N & G & href & abs_url & Ha & U & Live).
  assert (E : empty_href a = false).
  { destruct (empty_href a) eqn:E; [|reflexivity].
    exfalso. apply N. now apply no_target_empty. }
  unfold empty_href in E. unfold generic_text in G.
  unfold check_anchor. rewrite E. unfold link_text_check, when. rewrite G.
  unfold link_liveness, try_except, bind, lift, ask, ret. rewrite Ha. cbn [opt_str].
  rewrite U. destruct (Live (clock s)) as (status & reason & O & R).
  destruct (urlopen_answer _ _ _ _ O) as [V _]. rewrite (V R).
  replace (400 <=? status)%Z with false by (symmetry; apply Z.leb_gt; lia).
  reflexivity.
Qed.

(** X13. An anchor without a target (no [href], or an [href] that is empty,
    [#] or [javascript:void(0)]) ends the link loop wherever it stands: the
    anchors after it are never examined. When the anchors before it have
    been passed in silence and the locating script answers, the page gets
    one "Empty or broken link" finding of severity "Medium"; when the script
    raises, the exception leaves the rule. An anchor with a target never
    takes that branch: it goes to the text check and the liveness check. *)
Theorem empty_link_ends_the_loop : forall link soup before a rest s,
  soup_anchors soup = before ++ a :: rest ->
  no_target a ->
  (forall soup',
     soup_anchors soup' = before ++ [a] ->
     rule_links link soup s = rule_links link soup' s)
  /\ (Forall (passes_quietly link) before ->
      let s1 := Nat.iter (List.length before) tick s in
      (forall r,
         w_rect w (clock s1) JsBadAnchor = Val r ->
         rule_links link soup s
         = (Val tt,
            with_issue
              (after_capture (tick s1)
                 (path_join screenshots_dir (shot_name (w_uuid w (2 + clock s1)) "links")))
              (mkFinding "Empty or broken link" link
                 "Provide valid href and meaningful link text." "Medium"
                 (Some (shot_name (w_uuid w (2 + clock s1)) "links")))))
      /\ (forall e,
            w_rect w (clock s1) JsBadAnchor = Raise e ->
            rule_links link soup s = (Raise e, tick s1)))
  /\ (forall x href s0,
        a_href x = Some href -> ~ no_target x ->
        check_anchor link x s0
        = link_liveness link href (snd (link_text_check link (PyStr.strip (a_text x)) s0))).
Proof.
  intros link soup before a rest s Ha Hn.
  assert (He : empty_href a = true) by now apply no_target_empty.
  unfold empty_href in He.
  split; [|split].
  - intros soup' Hs. unfold rule_links. rewrite Ha, Hs. apply for_each_stops.
    intros s0. unfold check_anchor. rewrite He. unfold bind, ask.
    destruct (w_rect w (clock s0) JsBadAnchor) as [r|e]; cbn [fst snd];
      [rewrite report_spec|]; discriminate.
  - intros Hq s1. unfold rule_links. rewrite Ha.
    rewrite for_each_passed
      by (intros x s0 Hin; apply passes_quietly_next;
          rewrite Forall_forall in Hq; now apply Hq).
    fold s1. cbn [for_each]. unfold check_anchor. rewrite He. unfold bind, ask. split.
    + intros r Hr. rewrite Hr. rewrite report_spec. reflexivity.
    + intros e Hr. rewrite Hr. reflexivity.
  - intros x href s0 Hx Nx.
    assert (E : empty_href x = false).
    { destruct (empty_href x) eqn:E; [|reflexivity].
      exfalso. apply Nx. now apply no_target_empty. }
    unfold empty_href in E. unfold check_anchor. rewrite E, Hx. cbn [opt_str]. unfold bind.
    pose proof (link_text_check_returns link (PyStr.strip (a_text x)) s0) as L.
    destruct (link_text_check link (PyStr.strip (a_text x)) s0) as [[[]|e] s2];
      cbn [fst snd] in *; [reflexivity|discriminate].
Qed.

(** X14. The image check never reports a status. An image without [src],
    or with an empty one, is passed over without a fetch. For an image with
    a [src]: an answer within 200..299 gives nothing and the loop goes on
    with the next image; an answer of 400 or more, which [urlopen] raises,
    and a fetch that fails give, when the locating script answers, one "Low"
    finding "Broken image source" with the description "Failed to load
    image: <src>", and the loop ends there. Whatever the network and the
    scripts do, the rule appends at most one finding and its description is
    "Failed to load image: <src>" for the [src] of an image of the page. *)
Theorem broken_image_reported : forall link soup img rest s,
  soup_imgs soup = img :: rest ->
  (img_src img = None \/ img_src img = Some "" ->
   forall soup', soup_imgs soup' = rest ->
   rule_images link soup s = rule_images link soup' s)
  /\ (forall src abs_img status reason,
        img_src img = Some src -> src <> "" ->
        urljoin link src = Val abs_img ->
        w_http w (clock s) abs_img = Val (status, reason) ->
        ((200 <= status < 300)%Z ->
         forall soup', soup_imgs soup' = rest ->
         rule_images link soup s = rule_images link soup' (tick s))
        /\ ((400 <= status)%Z ->
            forall r, w_rect w (S (clock s)) (JsImgBySrc src) = Val r ->
            rule_images link soup s
            = (Val tt,
               with_issue
                 (after_capture (tick (tick s))
                    (path_join screenshots_dir (shot_name (w_uuid w (3 + clock s)) "images")))
                 (mkFinding "Broken image source" link ("Failed to load image: " +++ src)
                    "Low" (Some (shot_name (w_uuid w (3 + clock s)) "images"))))))
  /\ (forall src abs_img e r,
        img_src img = Some src -> src <> "" ->
        urljoin link src = Val abs_img ->
        urlopen w (clock s) abs_img = Raise e ->
        w_rect w (S (clock s)) (JsImgBySrc src) = Val r ->
        rule_images link soup s
        = (Val tt,
           with_issue
             (after_capture (tick (tick s))
                (path_join screenshots_dir (shot_name (w_uuid w (3 + clock s)) "images")))
             (mkFinding "Broken image source" link ("Failed to load image: " +++ src)
                "Low" (Some (shot_name (w_uuid w (3 + clock s)) "images")))))
  /\ (exists l,
        issues (snd (rule_images link soup s)) = issues s ++ l
        /\ (List.length l <= 1)%nat
        /\ Forall (fun f => exists im src,
                     In im (soup_imgs soup) /\ img_src im = Some src
                     /\ description f = "Failed to load image: " +++ src) l).
Proof.
  intros link soup img rest s Hi.
  assert (Failed : forall src abs_img e r,
            img_src img = Some src -> src <> "" ->
            urljoin link src = Val abs_img ->
            urlopen w (clock s) abs_img = Raise e ->
            w_rect w (S (clock s)) (JsImgBySrc src) = Val r ->
            rule_images link soup s
            = (Val tt,
               with_issue
                 (after_capture (tick (tick s))
                    (path_join screenshots_dir (shot_name (w_uuid w (3 + clock s)) "images")))
                 (mkFinding "Broken image source" link ("Failed to load image: " +++ src)
                    "Low" (Some (shot_name (w_uuid w (3 + clock s)) "images"))))).
  { intros src abs_img e r Hs N U O Hr. unfold rule_images. rewrite Hi. cbn [for_each].
    assert (T : opt_truthy (img_src img) = true) by (rewrite Hs; now apply truthy_iff).
    unfold bind, try_except, lift, ask, ret. rewrite T, Hs. cbn [negb opt_str].
    rewrite U, O. cbn [fst snd clock tick]. rewrite Hr. rewrite report_spec. reflexivity. }
  split; [|split; [|split]].
  - intros T soup' Hs. unfold rule_images. rewrite Hi, Hs. cbn [for_each].
    unfold bind, ret. now destruct T as [-> | ->].
  - intros src abs_img status reason Hs N U O.
    destruct (urlopen_answer _ _ _ _ O) as [V E]. split.
    + intros R soup' Hr. unfold rule_images. rewrite Hi, Hr. cbn [for_each].
      assert (T : opt_truthy (img_src img) = true) by (rewrite Hs; now apply truthy_iff).
      unfold bind, try_except, lift, ask, ret. rewrite T, Hs. cbn [negb opt_str].
      rewrite U, (V R).
      replace (400 <=? status)%Z with false by (symmetry; apply Z.leb_gt; lia).
      reflexivity.
    + intros L r Hr. apply (Failed src abs_img _ r Hs N U (E ltac:(lia)) Hr).
  - exact Failed.
  - clear Failed Hi img rest. unfold rule_images.
    match goal with |- context [for_each _ ?b] => set (body := b) end.
    assert (B : forall im s0,
              (exists s1, body im s0 = (Val Next, s1) /\ issues s1 = issues s0)
              \/ (fst (body im s0) <> Val Next
                  /\ (issues (snd (body im s0)) = issues s0
                      \/ exists src shot,
                           img_src im = Some src
                           /\ issues (snd (body im s0))
                              = issues s0
                                ++ [mkFinding "Broken image source" link
                                      ("Failed to load image: " +++ src) "Low" shot]))).
    { intros im s0. subst body. cbv beta zeta.
      destruct (img_src im) as [src|] eqn:Hs; cbn [opt_truthy opt_str negb];
        [|left; now exists s0].
      destruct (PyStr.truthy src) eqn:T; cbn [negb]; [|left; now exists s0].
      unfold try_except, bind, lift, ask, ret.
      destruct (urljoin link src) as [abs_img|e]; cbn [fst snd clock tick].
      - destruct (urlopen w (clock s0) abs_img) as [status|e] eqn:O;
          cbn [fst snd clock tick].
        + apply urlopen_2xx in O.
          replace (400 <=? status)%Z with false by (symmetry; apply Z.leb_gt; lia).
          left. now exists (tick s0).
        + right. destruct (w_rect w (S (clock s0)) (JsImgBySrc src)) as [r|e'];
            cbn [fst snd clock tick].
          * rewrite report_spec. split; [discriminate|]. right. now eexists src, _.
          * split; [discriminate|now left].
      - right. destruct (w_rect w (clock s0) (JsImgBySrc src)) as [r|e'];
          cbn [fst snd clock tick].
        + rewrite report_spec. split; [discriminate|]. right. now eexists src, _.
        + split; [discriminate|now left]. }
    clearbody body. generalize (soup_imgs soup) as imgs. intros imgs. revert s.
    induction imgs as [|im imgs IH]; intros s0.
    + exists []. rewrite app_nil_r. split; [reflexivity|]. split; [cbn; lia|constructor].
    + cbn [for_each]. unfold bind.
      destruct (B im s0) as [(s1 & E & I1)|[N [I1|(src & shot & Hs & I1)]]].
      * rewrite E. destruct (IH s1) as (l & El & Ll & Fl). exists l.
        rewrite El, I1. split; [reflexivity|]. split; [exact Ll|].
        eapply Forall_impl; [|exact Fl]. intros f (im' & src & Hin & Hs & Hd).
        exists im', src. split; [now right|now split].
      * exists []. rewrite app_nil_r. split; [|split; [cbn; lia|constructor]].
        destruct (body im s0) as [[[]|e] s1]; cbn [fst snd] in *;
          [contradiction|exact I1|exact I1].
      * exists [mkFinding "Broken image source" link ("Failed to load image: " +++ src)
                  "Low" shot].
        split; [|split; [cbn; lia|]].
        -- destruct (body im s0) as [[[]|e] s1]; cbn [fst snd] in *;
             [contradiction|exact I1|exact I1].
        -- constructor; [|constructor]. exists im, src. split; [now left|now split].
Qed.

(** ** The contrast rule *)

Lemma contrast_loop_inv : forall items acc d rects desc,
  contrast_loop items acc d = Val (rects, desc) ->
  (List.length acc < 3)%nat ->
  (acc = [] <-> d = None) ->
  (forall x, d = Some x -> PyStr.truthy x = true) ->
  (List.length rects <= 3)%nat
  /\ (rects = [] <-> desc = None)
  /\ (forall x, desc = Some x -> PyStr.truthy x = true)
  /\ (rects = [] <-> acc = [] /\ Forall contrast_passes items).
Proof.
  induction items as [|item items IH]; intros acc d rects desc H L A T.
  - cbn in H. inversion H; subst. split; [lia|]. split; [exact A|]. split; [exact T|].
    split; [intros E; now split|now intros [E _]].
  - cbn [contrast_loop] in H.
    destruct (contrast_ratio (parse_rgb (st_color item)) (parse_rgb (st_bg item)))
      as [ratio|e] eqn:R; cbn [res_bind] in H; [|discriminate].
    destruct (ratio <? 4.5)%float eqn:Lt.
    + set (acc' := acc ++ [_]) in H. set (d' := match d with None => _ | Some x => Some x end) in H.
      assert (N : acc' <> []) by (subst acc'; now destruct acc).
      assert (Nd : d' <> None) by (subst d'; now destruct d).
      assert (Td : forall x, d' = Some x -> PyStr.truthy x = true).
      { subst d'. destruct d as [x0|]; intros x E; inversion E; subst; auto. }
      assert (Fail : ~ contrast_passes item).
      { intros (r & Er & Hr). rewrite R in Er. inversion Er; subst. congruence. }
      destruct (3 <=? List.length acc')%nat eqn:Full.
      * inversion H; subst rects desc. subst acc'. rewrite length_app in *. cbn in *.
        split; [lia|]. split; [split; intros E; contradiction|]. split; [exact Td|].
        split; [intros E; destruct acc; discriminate|].
        intros [_ F]. inversion F; subst. contradiction.
      * apply Nat.leb_gt in Full.
        destruct (IH acc' d' rects desc H Full) as (I1 & I2 & I3 & I4);
          [split; intros E; contradiction|exact Td|].
        split; [exact I1|]. split; [exact I2|]. split; [exact I3|].
        split; [intros E; apply I4 in E; destruct E as [E _]; contradiction|].
        intros [_ F]. inversion F; subst. contradiction.
    + destruct (IH acc d rects desc H L A T) as (I1 & I2 & I3 & I4).
      split; [exact I1|]. split; [exact I2|]. split; [exact I3|].
      rewrite I4. split; intros [E F]; (split; [exact E|]).
      * constructor; [|exact F]. now exists ratio.
      * now inversion F.
Qed.

Lemma contrast_loop_keeps_desc : forall items acc x rects desc,
  contrast_loop items acc (Some x) = Val (rects, desc) -> desc = Some x.
Proof.
  induction items as [|item items IH]; intros acc x rects desc H; cbn [contrast_loop] in H.
  - now inversion H.
  - destruct (contrast_ratio _ _) as [ratio|e]; cbn [res_bind] in H; [|discriminate].
    destruct (ratio <? 4.5)%float; [|now apply IH with acc rects].
    destruct (3 <=? _)%nat; [now inversion H|]. now apply IH in H.
Qed.

Lemma contrast_loop_first : forall items rects desc,
  contrast_loop items [] None = Val (rects, desc) ->
  rects <> [] ->
  exists pre item post ratio,
    items = pre ++ item :: post
    /\ Forall contrast_passes pre
    /\ contrast_ratio (parse_rgb (st_color item)) (parse_rgb (st_bg item)) = Val ratio
    /\ (ratio <? 4.5)%float = true
    /\ desc = Some ("Contrast " +++ format_float ".2f" ratio +++ ":1 below 4.5:1 for text '"
                    +++ opt_str (st_text item) +++ "'.").
Proof.
  induction items as [|item items IH]; intros rects desc H N; cbn [contrast_loop] in H.
  - inversion H; subst. contradiction.
  - destruct (contrast_ratio (parse_rgb (st_color item)) (parse_rgb (st_bg item)))
      as [ratio|e] eqn:R; cbn [res_bind] in H; [|discriminate].
    destruct (ratio <? 4.5)%float eqn:Lt.
    + exists [], item, items, ratio. split; [reflexivity|]. split; [constructor|].
      split; [exact R|]. split; [exact Lt|].
      cbn [app List.length] in H. change (3 <=? 1)%nat with false in H.
      now apply contrast_loop_keeps_desc in H.
    + destruct (IH rects desc H N) as (pre & it & post & r & E & F & Hr & Hl & Hd).
      exists (item :: pre), it, post, r. split; [now rewrite E|].
      split; [constructor; [now exists ratio|exact F]|]. now split.
Qed.

(** X15. The contrast rule marks at most three samples. Whenever the
    measuring of the samples ends without an exception, nothing is marked
    exactly when every sample measures 4.5:1 or more, and then the rule
    reports nothing; otherwise it reports once, "High", with the description
    made for the first failing sample: the stock description "Insufficient
    colour contrast detected." is never used. *)
Theorem contrast_marks_at_most_three : forall link items rects desc s,
  contrast_loop items [] None = Val (rects, desc) ->
  (List.length rects <= 3)%nat
  /\ (rects = [] <-> Forall contrast_passes items)
  /\ (rects = [] -> rule_contrast link items s = (Val tt, s))
  /\ (rects <> [] ->
      exists pre item post ratio,
        items = pre ++ item :: post
        /\ Forall contrast_passes pre
        /\ contrast_ratio (parse_rgb (st_color item)) (parse_rgb (st_bg item)) = Val ratio
        /\ (ratio <? 4.5)%float = true
        /\ rule_contrast link items s
           = (Val tt,
              with_issue
                (after_capture s
                   (path_join screenshots_dir (shot_name (w_uuid w (S (clock s))) "contrast")))
                (mkFinding "Insufficient colour contrast" link
                   ("Contrast " +++ format_float ".2f" ratio +++ ":1 below 4.5:1 for text '"
                    +++ opt_str (st_text item) +++ "'.")
                   "High" (Some (shot_name (w_uuid w (S (clock s))) "contrast"))))).
Proof.
  intros link items rects desc s H.
  destruct (contrast_loop_inv items [] None rects desc H) as (I1 & _ & _ & I4);
    [cbn; lia|split; reflexivity|discriminate|].
  split; [exact I1|]. split; [|split].
  - rewrite I4. split; [now intros [_ F]|now split].
  - intros ->. unfold rule_contrast, bind, lift. now rewrite H.
  - intros N.
    destruct (contrast_loop_first items rects desc H N)
      as (pre & item & post & ratio & E & F & R & Lt & D).
    exists pre, item, post, ratio. repeat (split; [assumption|]).
    unfold rule_contrast, bind, lift. rewrite H, D.
    destruct rects as [|r rects]; [contradiction|].
    rewrite report_spec. reflexivity.
Qed.

(** ** Link texts *)

(** X18. The link-text check never raises. For a text that is one of
    "click here", "here", "read more", "learn more", "more" in any case, it
    appends one "Low" finding "Link text not descriptive" that quotes the
    text when the locating script answers; when the script raises, the
    exception is dropped and nothing is recorded. Any other text, the empty
    one included, leaves the state as it was. *)
Theorem generic_link_text_reported : forall link text s,
  fst (link_text_check link text s) = Val tt
  /\ (generic_text text = false -> link_text_check link text s = (Val tt, s))
  /\ (generic_text text = true ->
      (forall e, w_rect w (clock s) (JsLinkText text) = Raise e ->
                 link_text_check link text s = (Val tt, tick s))
      /\ (forall r, w_rect w (clock s) (JsLinkText text) = Val r ->
                    link_text_check link text s
                    = (Val tt,
                       with_issue
                         (after_capture (tick s)
                            (path_join screenshots_dir
                               (shot_name (w_uuid w (2 + clock s)) "links")))
                         (mkFinding "Link text not descriptive" link
                            ("Use descriptive link text instead of '" +++ text +++ "'.") "Low"
                            (Some (shot_name (w_uuid w (2 + clock s)) "links"))))))
  /\ (forall word, In word generic_link_texts ->
                   PyStr.lower text = word -> generic_text text = true).
Proof.
  intros link text s. unfold generic_text.
  split; [|split; [|split]].
  - unfold link_text_check, when, try_except, bind, ask.
    destruct (_ && _); [|reflexivity].
    destruct (w_rect w (clock s) (JsLinkText text)); [|reflexivity].
    now rewrite report_spec.
  - intros G. unfold link_text_check, when. now rewrite G.
  - intros G. unfold link_text_check, when, try_except, bind, ask. rewrite G. split.
    + intros e ->. reflexivity.
    + intros r ->. rewrite report_spec. reflexivity.
  - intros word Hw L. rewrite L, (mem_In word _ Hw), andb_true_r.
    destruct text; [|reflexivity]. cbn in L. subst word.
    cbn in Hw. repeat (destruct Hw as [Hw|Hw]; [discriminate|]). contradiction.
Qed.

(** ** Font sizes *)

Lemma keep_numeric_dots : forall raw,
  no_digit raw -> PyStr.str_all (Ascii.eqb ".") (keep_numeric raw) = true.
Proof.
  unfold no_digit. induction raw as [|c raw IH]; cbn [PyStr.str_all keep_numeric];
    intros H; [reflexivity|].
  apply andb_true_iff in H. destruct H as [Hc Hr]. apply negb_true_iff in Hc.
  rewrite Hc. cbn [orb]. destruct (Ascii.eqb c ".") eqn:E; [|now apply IH].
  cbn [PyStr.str_all]. apply Ascii.eqb_eq in E. subst c. now rewrite IH.
Qed.

Lemma of_decimal_dots : forall t,
  PyStr.str_all (Ascii.eqb ".") t = true -> exists e, PyFloat.of_decimal t = Raise e.
Proof.
  intros t H. unfold PyFloat.of_decimal.
  destruct t as [|c t]; [now eexists|].
  cbn [PyStr.str_all] in H. apply andb_true_iff in H. destruct H as [Hc Ht].
  apply Ascii.eqb_eq in Hc. subst c.
  change (PyStr.span PyStr.is_digit (String "." t)) with (EmptyString, String "." t).
  cbv iota beta. cbn [String.append].
  destruct t as [|d t]; [now eexists|].
  cbn [PyStr.str_all] in Ht. apply andb_true_iff in Ht. destruct Ht as [Hd _].
  apply Ascii.eqb_eq in Hd. subst d.
  change (PyStr.str_all PyStr.is_digit (String "." t)) with false.
  now eexists.
Qed.

(** X19. The font size of a sample: 12 when the sample has no font size
    or one without a digit (such as "medium"), so such a sample is never
    reported as small; and the line height falls back to 1.2 times the font
    size in the same cases. A first sample whose font size is below 12 gives
    one "Low" finding "Small font size" that quotes the size, and ends the
    loop. *)
Theorem small_font_reported : forall link item rest s,
  (st_fontSize item = None -> font_size item = 12%float)
  /\ (forall raw, st_fontSize item = Some raw -> no_digit raw -> font_size item = 12%float)
  /\ (forall fs, st_lineHeight item = None -> line_height item fs = (fs * 1.2)%float)
  /\ (forall fs raw, st_lineHeight item = Some raw -> no_digit raw ->
                     line_height item fs = (fs * 1.2)%float)
  /\ ((font_size item <? 12)%float = true ->
      rule_readability link (item :: rest) s
      = (Val tt,
         with_issue
           (after_capture s
              (path_join screenshots_dir (shot_name (w_uuid w (S (clock s))) "readability")))
           (mkFinding "Small font size" link
              ("Increase font size to ≥ 12px. Found " +++ format_float "" (font_size item)
               +++ "px.")
              "Low" (Some (shot_name (w_uuid w (S (clock s))) "readability")))))
  /\ (font_size item = 12%float -> (font_size item <? 12)%float = false).
Proof.
  intros link item rest s.
  split; [|split; [|split; [|split; [|split]]]].
  - intros H. unfold font_size. now rewrite H.
  - intros raw H N. unfold font_size. rewrite H.
    destruct (of_decimal_dots _ (keep_numeric_dots raw N)) as [e ->]. reflexivity.
  - intros fs H. unfold line_height. now rewrite H.
  - intros fs raw H N. unfold line_height. rewrite H.
    destruct (of_decimal_dots _ (keep_numeric_dots raw N)) as [e ->]. reflexivity.
  - intros H. unfold rule_readability. cbn [for_each]. cbv zeta. unfold bind.
    rewrite H, report_spec. reflexivity.
  - intros ->. reflexivity.
Qed.

End Scan.

(** * Findings and screenshots *)

Section TwoWorlds.

Variable pow : float -> float -> res float.
Variable format_float : string -> float -> string.
Variable urljoin : string -> string -> res string.
Variable set_iter : list string -> list string.
Variables w1 w2 : World.
Variables dir1 dir2 : string.

Hypothesis same : same_but_screenshots w1 w2.

Lemma sim_ret : forall A (a : A), sim (ret a) (ret a).
Proof. intros A a s1 s2 H. now split. Qed.

Lemma sim_lift : forall A (r : res A), sim (lift r) (lift r).
Proof. intros A r s1 s2 H. now split. Qed.

Lemma sim_ask : forall A (q1 q2 : nat -> res A),
  (forall t, q1 t = q2 t) -> sim (ask q1) (ask q2).
Proof.
  intros A q1 q2 Hq s1 s2 (I & T & N & C). unfold ask. cbn [fst snd].
  rewrite C, Hq. split; [reflexivity|]. repeat split; cbn; congruence.
Qed.

Lemma sim_bind : forall A B (m1 m2 : M A) (f1 f2 : A -> M B),
  sim m1 m2 -> (forall a, sim (f1 a) (f2 a)) -> sim (bind m1 f1) (bind m2 f2).
Proof.
  intros A B m1 m2 f1 f2 Hm Hf s1 s2 H. unfold bind.
  destruct (Hm s1 s2 H) as [E V].
  destruct (m1 s1) as [[a1|e1] t1], (m2 s2) as [[a2|e2] t2]; cbn [fst snd] in *;
    try discriminate.
  - inversion E; subst. exact (Hf a2 t1 t2 V).
  - inversion E; subst. now split.
Qed.

Lemma sim_try_except : forall A (m1 m2 : M A) (h1 h2 : string -> M A),
  sim m1 m2 -> (forall e, sim (h1 e) (h2 e)) -> sim (try_except m1 h1) (try_except m2 h2).
Proof.
  intros A m1 m2 h1 h2 Hm Hh s1 s2 H. unfold try_except.
  destruct (Hm s1 s2 H) as [E V].
  destruct (m1 s1) as [[a1|e1] t1], (m2 s2) as [[a2|e2] t2]; cbn [fst snd] in *;
    try discriminate.
  - cbn [fst snd]. now split.
  - inversion E; subst. exact (Hh e2 t1 t2 V).
Qed.

Lemma sim_when : forall c (m1 m2 : M unit), sim m1 m2 -> sim (when c m1) (when c m2).
Proof. intros [] m1 m2 H; [exact H|apply sim_ret]. Qed.

Lemma sim_for_each : forall A (l : list A) (b1 b2 : A -> M flow),
  (forall x, sim (b1 x) (b2 x)) -> sim (for_each l b1) (for_each l b2).
Proof.
  intros A l b1 b2 H. induction l as [|x l IH]; cbn [for_each]; [apply sim_ret|].
  apply sim_bind; [apply H|]. intros []; [exact IH|apply sim_ret].
Qed.

Lemma sim_set_title : forall k v, sim (set_title k v) (set_title k v).
Proof.
  intros k v s1 s2 (I & T & N & C). split; [reflexivity|].
  repeat split; cbn; congruence.
Qed.

Lemma sim_set_nav : forall k v, sim (set_nav k v) (set_nav k v).
Proof.
  intros k v s1 s2 (I & T & N & C). split; [reflexivity|].
  repeat split; cbn; congruence.
Qed.

Lemma sim_append_issue : forall f, sim (append_issue f) (append_issue f).
Proof.
  intros f s1 s2 (I & T & N & C). split; [reflexivity|].
  repeat split; cbn; congruence.
Qed.

(** Reporting a finding: the evidence is named alike in both worlds,
    whether or not the screenshot is written. *)
Lemma sim_report : forall rects key label name link desc sev,
  sim (report w1 dir1 rects key label name link desc sev)
      (report w2 dir2 rects key label name link desc sev).
Proof.
  intros rects key label name link desc sev s1 s2 (I & T & N & C).
  rewrite !report_spec. cbn [fst snd]. split; [reflexivity|].
  destruct same as (_ & _ & _ & _ & _ & _ & _ & _ & _ & _ & _ & U & _).
  repeat split; cbn; rewrite ?C, ?U; congruence.
Qed.

(** One step of a proof that follows the text of a rule block in both
    worlds. *)
Ltac sim_step :=
  first
    [ apply sim_ret
    | apply sim_lift
    | apply sim_report
    | apply sim_set_title
    | apply sim_set_nav
    | apply sim_ask;
      let t := fresh "t" in
      intros t; first [solve [apply same] | f_equal; solve [apply same]]
    | apply sim_when
    | apply sim_bind; [|intros ?]
    | apply sim_try_except; [|intros ?]
    | apply sim_for_each; intros ?
    | match goal with
      | |- sim (if ?b then _ else _) _ => destruct b
      | |- sim (match ?x with _ => _ end) _ => destruct x
      end ].

Lemma sim_rule_title : forall link soup,
  sim (rule_title w1 dir1 link soup) (rule_title w2 dir2 link soup).
Proof. intros. unfold rule_title. repeat sim_step. Qed.

Lemma sim_rule_headings : forall link soup,
  sim (rule_headings w1 dir1 link soup) (rule_headings w2 dir2 link soup).
Proof. intros. unfold rule_headings. repeat sim_step. Qed.

Lemma sim_rule_alt : forall link soup,
  sim (rule_alt w1 dir1 link soup) (rule_alt w2 dir2 link soup).
Proof. intros. unfold rule_alt. repeat sim_step. Qed.

Lemma sim_rule_viewport : forall link soup,
  sim (rule_viewport w1 dir1 link soup) (rule_viewport w2 dir2 link soup).
Proof. intros. unfold rule_viewport. repeat sim_step. Qed.

Lemma sim_rule_links : forall link soup,
  sim (rule_links urljoin w1 dir1 link soup) (rule_links urljoin w2 dir2 link soup).
Proof.
  intros. unfold rule_links, check_anchor, link_text_check, link_liveness.
  repeat sim_step.
Qed.

Lemma sim_rule_contrast : forall link styles,
  sim (rule_contrast pow format_float w1 dir1 link styles)
      (rule_contrast pow format_float w2 dir2 link styles).
Proof. intros. unfold rule_contrast. repeat sim_step. Qed.

Lemma sim_rule_keyboard : forall link,
  sim (rule_keyboard w1 dir1 link) (rule_keyboard w2 dir2 link).
Proof. intros. unfold rule_keyboard. repeat sim_step. Qed.

Lemma sim_rule_forms : forall link soup,
  sim (rule_forms w1 dir1 link soup) (rule_forms w2 dir2 link soup).
Proof. intros. unfold rule_forms. repeat sim_step. Qed.

Lemma sim_rule_feedback : forall link soup,
  sim (rule_feedback w1 dir1 link soup) (rule_feedback w2 dir2 link soup).
Proof. intros. unfold rule_feedback. repeat sim_step. Qed.

Lemma sim_rule_readability : forall link styles,
  sim (rule_readability format_float w1 dir1 link styles)
      (rule_readability format_float w2 dir2 link styles).
Proof. intros. unfold rule_readability. repeat sim_step. Qed.

Lemma sim_rule_performance : forall link,
  sim (rule_performance format_float w1 dir1 link)
      (rule_performance format_float w2 dir2 link).
Proof. intros. unfold rule_performance. repeat sim_step. Qed.

Lemma sim_rule_images : forall link soup,
  sim (rule_images urljoin w1 dir1 link soup) (rule_images urljoin w2 dir2 link soup).
Proof. intros. unfold rule_images. repeat sim_step. Qed.

Lemma sim_run_rules : forall link soup styles,
  sim (run_rules pow format_float urljoin w1 dir1 link soup styles)
      (run_rules pow format_float urljoin w2 dir2 link soup styles).
Proof.
  intros. unfold run_rules, later_rules, rule_nav.
  repeat (apply sim_bind;
          [first [ apply sim_rule_title | apply sim_rule_headings | apply sim_rule_alt
                 | apply sim_rule_viewport | apply sim_rule_links | apply sim_rule_contrast
                 | apply sim_rule_keyboard | apply sim_rule_forms | apply sim_set_nav
                 | apply sim_rule_feedback | apply sim_rule_readability
                 | apply sim_rule_performance ]
          |intros _]).
  apply sim_rule_images.
Qed.

(** Loading a page: whether or not the page screenshot is written, the
    signals read afterwards are the same. *)
Lemma sim_load_page : forall link, sim (load_page w1 dir1 link) (load_page w2 dir2 link).
Proof.
  intros link s1 s2 (I & T & N & C).
  destruct same as (_ & _ & G & So & St & _ & _ & _ & _ & _ & _ & U & _).
  unfold load_page, try_except, bind, ask, save_screenshot, append_page_shot, ret.
  cbn [fst snd clock tick]. rewrite C, G.
  destruct (w_get w2 (clock s2) link) as [[]|e]; cbn [fst snd];
    [|split; [reflexivity|repeat split; cbn; congruence]].
  cbn [clock tick].
  destruct (w_save w1 (S (S (clock s2))) _) as [[]|e1];
    destruct (w_save w2 (S (S (clock s2))) _) as [[]|e2]; cbn [fst snd clock tick add_file];
    rewrite <- ?C, ?So, ?St; rewrite ?C, ?So, ?St;
    destruct (w_source w2 _ link) as [soup|e]; cbn [fst snd clock tick];
    rewrite <- ?C, ?St; rewrite ?C, ?St;
    try destruct (w_styles w2 _ link) as [styles|e']; cbn [fst snd];
    (split; [reflexivity|repeat split; cbn; congruence]).
Qed.

Lemma sim_scan_page : forall link,
  sim (scan_page pow format_float urljoin w1 dir1 link)
      (scan_page pow format_float urljoin w2 dir2 link).
Proof.
  intros link. unfold scan_page, page_body.
  apply sim_try_except; [|intros e; apply sim_append_issue].
  apply sim_bind; [apply sim_load_page|]. intros signals. apply sim_run_rules.
Qed.

Lemma sim_scan_pages : forall urls,
  sim (scan_pages pow format_float urljoin w1 dir1 urls)
      (scan_pages pow format_float urljoin w2 dir2 urls).
Proof.
  induction urls as [|link rest IH]; cbn [scan_pages]; [apply sim_ret|].
  apply sim_bind; [apply sim_scan_page|intros _; exact IH].
Qed.

Lemma sim_cross_page : sim (cross_page set_iter) (cross_page set_iter).
Proof.
  intros s1 s2 (I & T & N & C). split.
  - unfold cross_page, bind, get_state, lift. rewrite !append_issues_spec. cbn [fst snd].
    rewrite N. destruct (inconsistent_nav_findings set_iter (nav_signatures s2)); cbn;
      [now rewrite !append_issues_spec|reflexivity].
  - rewrite !cross_page_state. repeat split; cbn; rewrite ?I, ?T, ?N; congruence.
Qed.

Lemma sim_scan : forall urls,
  sim (scan pow format_float urljoin set_iter w1 dir1 urls)
      (scan pow format_float urljoin set_iter w2 dir2 urls).
Proof.
  intros urls. unfold scan, swallow.
  apply sim_bind; [sim_step|intros _].
  apply sim_bind; [repeat sim_step|intros _].
  apply sim_bind; [apply sim_scan_pages|intros _].
  apply sim_bind; [apply sim_cross_page|intros _].
  sim_step.
Qed.

(** X20. What a scan finds does not depend on the overlays and the
    screenshots: two worlds that differ only in what happens when an
    overlay is injected, a screenshot is written or the overlay is removed,
    scanned into any two directories, give the same findings, evidence names
    included, and [run_scan] ends alike in both: with the same exception, or
    with the same list of issues. *)
Theorem findings_do_not_depend_on_screenshots : forall urls,
  issues (snd (scan pow format_float urljoin set_iter w1 dir1 urls init_state))
  = issues (snd (scan pow format_float urljoin set_iter w2 dir2 urls init_state))
  /\ match run_scan pow format_float urljoin set_iter w1 dir1 urls,
           run_scan pow format_float urljoin set_iter w2 dir2 urls with
     | Val (found1, _), Val (found2, _) => found1 = found2
     | Raise e1, Raise e2 => e1 = e2
     | _, _ => False
     end.
Proof.
  intros urls.
  assert (V : same_verdict init_state init_state) by (repeat split).
  destruct (sim_scan urls init_state init_state V) as [E (I & _)].
  split; [exact I|]. unfold run_scan.
  destruct (scan pow format_float urljoin set_iter w1 dir1 urls init_state) as [[[]|e1] t1],
           (scan pow format_float urljoin set_iter w2 dir2 urls init_state) as [[[]|e2] t2];
    cbn [fst snd] in *; try discriminate; [exact I|now inversion E].
Qed.

End TwoWorlds.

(** * The web front end *)

(** ** The upload filter *)

Lemma contains_app : forall c a b,
  PyStr.contains c (a +++ b) = PyStr.contains c a || PyStr.contains c b.
Proof.
  intros c a b. unfold PyStr.contains. induction a as [|d a IH]; cbn; [reflexivity|].
  rewrite IH. now rewrite orb_assoc.
Qed.

Lemma rsplit1_whole : forall c s, PyStr.contains c s = false -> PyStr.rsplit1 c s = [s].
Proof.
  intros c s. unfold PyStr.contains. induction s as [|d s IH]; cbn; intros H; [reflexivity|].
  apply orb_false_iff in H. destruct H as [Hd Hs]. rewrite (IH Hs).
  rewrite Ascii.eqb_sym, Hd. reflexivity.
Qed.

Lemma rsplit1_last : forall c stem ext,
  PyStr.contains c ext = false ->
  PyStr.rsplit1 c (stem +++ String c ext) = [stem; ext].
Proof.
  intros c stem ext H. induction stem as [|d stem IH]; cbn.
  - rewrite (rsplit1_whole c ext H), Ascii.eqb_refl. reflexivity.
  - now rewrite IH.
Qed.

(** X7. [allowed_file] never raises: the index into the split name is
    guarded by the test for a dot. A name without a dot is refused; for a
    name with a dot only what follows the last dot counts, whatever its
    case, and it must be [html] or [htm]. *)
Theorem allowed_file_last_extension : forall filename,
  (exists b, allowed_file filename = Val b)
  /\ (PyStr.contains "." filename = false -> allowed_file filename = Val false)
  /\ (forall stem ext,
        filename = stem +++ "." +++ ext -> PyStr.contains "." ext = false ->
        allowed_file filename = Val (PyStr.mem (PyStr.lower ext) ALLOWED_EXTENSIONS)).
Proof.
  intros filename.
  assert (L : forall stem ext,
            filename = stem +++ "." +++ ext -> PyStr.contains "." ext = false ->
            allowed_file filename = Val (PyStr.mem (PyStr.lower ext) ALLOWED_EXTENSIONS)).
  { intros stem ext -> H. unfold allowed_file.
    rewrite contains_app. cbn [String.append]. 
    replace (PyStr.contains "." (String "." ext)) with true by reflexivity.
    rewrite orb_true_r. now rewrite (rsplit1_last "." stem ext H). }
  assert (N : PyStr.contains "." filename = false -> allowed_file filename = Val false).
  { intros H. unfold allowed_file. now rewrite H. }
  split; [|split; [exact N|exact L]].
  destruct (PyStr.contains "." filename) eqn:C; [|now eexists; apply N].
  assert (S : exists stem ext, filename = stem +++ "." +++ ext
                               /\ PyStr.contains "." ext = false).
  { clear L N. unfold PyStr.contains in *.
    induction filename as [|d s IH]; [discriminate|].
    destruct (existsb (Ascii.eqb ".") (list_ascii_of_string s)) eqn:Cs.
    - destruct (IH eq_refl) as (stem & ext & -> & He). exists (String d stem), ext.
      now split.
    - cbn [list_ascii_of_string existsb] in C. rewrite Cs, orb_false_r in C.
      apply Ascii.eqb_eq in C. subst d.
      exists "", s. now split. }
  destruct S as (stem & ext & E & He). eexists. exact (L stem ext E He).
Qed.

(** ** The URL form *)

Lemma rstrip_idem : forall s, PyStr.rstrip (PyStr.rstrip s) = PyStr.rstrip s.
Proof.
  induction s as [|c s IH]; [reflexivity|]. rewrite rstrip_step.
  destruct (PyStr.rstrip s) as [|d t] eqn:E.
  - destruct (PyStr.is_space c) eqn:Sc; [reflexivity|].
    rewrite rstrip_step. cbn [PyStr.rstrip]. now rewrite Sc.
  - rewrite rstrip_step, IH. reflexivity.
Qed.

Lemma strip_head : forall s,
  PyStr.strip s = ""
  \/ exists c t, PyStr.strip s = String c t /\ PyStr.is_space c = false.
Proof.
  intros s. unfold PyStr.strip.
  destruct (lstrip_head s) as [->|(c & t & -> & Sc)]; [now left|].
  right. rewrite (rstrip_cons c t Sc). now exists c, (PyStr.rstrip t).
Qed.

Lemma lstrip_nonspace : forall c t,
  PyStr.is_space c = false -> PyStr.lstrip (String c t) = String c t.
Proof. intros c t H. cbn [PyStr.lstrip]. now rewrite H. Qed.

(** Stripping twice is stripping once. *)
Lemma strip_idem : forall s, PyStr.strip (PyStr.strip s) = PyStr.strip s.
Proof.
  intros s. destruct (strip_head s) as [E|(c & t & E & Sc)].
  - now rewrite E.
  - unfold PyStr.strip at 1. rewrite E, (lstrip_nonspace c t Sc), <- E.
    unfold PyStr.strip. apply rstrip_idem.
Qed.

Lemma rstrip_prefix : forall p x,
  PyStr.str_all (fun c => negb (PyStr.is_space c)) p = true ->
  PyStr.rstrip (p +++ x) = p +++ PyStr.rstrip x.
Proof.
  induction p as [|c p IH]; intros x H; [reflexivity|].
  cbn [PyStr.str_all] in H. apply andb_true_iff in H. destruct H as [Hc Hp].
  apply negb_true_iff in Hc. cbn [String.append].
  now rewrite (rstrip_cons _ _ Hc), (IH x Hp).
Qed.

Lemma with_scheme_has_scheme : forall url,
  PyStr.startswith "http://" (with_scheme url) || PyStr.startswith "https://" (with_scheme url)
  = true.
Proof.
  intros url. unfold with_scheme.
  destruct (PyStr.startswith "http://" url) eqn:H1; cbn [negb andb]; [now rewrite H1|].
  destruct (PyStr.startswith "https://" url) eqn:H2; cbn [negb]; [now rewrite H2, orb_true_r|].
  unfold PyStr.startswith. rewrite (lit_complete "https://" url). apply orb_true_r.
Qed.

Lemma with_scheme_idem : forall url, with_scheme (with_scheme url) = with_scheme url.
Proof.
  intros url. pose proof (with_scheme_has_scheme url) as H.
  unfold with_scheme at 1. apply orb_true_iff in H.
  destruct H as [-> | ->]; [reflexivity|]. now rewrite andb_false_r.
Qed.

Lemma with_scheme_strip : forall url,
  url <> "" -> PyStr.strip url = url ->
  with_scheme url <> "" /\ PyStr.strip (with_scheme url) = with_scheme url.
Proof.
  intros url N E. unfold with_scheme.
  destruct (_ && _); [|now split]. split; [discriminate|].
  unfold PyStr.strip.
  change (PyStr.lstrip ("https://" +++ url)) with ("https://" +++ url).
  rewrite rstrip_prefix by reflexivity. f_equal.
  destruct (strip_head url) as [E0|(c & t & E1 & Sc)]; [congruence|].
  rewrite E in E1. rewrite <- E at 2. unfold PyStr.strip.
  now rewrite E1, (lstrip_nonspace c t Sc).
Qed.

Lemma process_urls_from : forall urls acc,
  fold_left
    (fun processed_urls url =>
       let url := PyStr.strip url in
       if PyStr.truthy url then processed_urls ++ [with_scheme url]
       else processed_urls)
    urls acc
  = acc ++ map with_scheme (filter PyStr.truthy (map PyStr.strip urls)).
Proof.
  induction urls as [|u urls IH]; intros acc; cbn [fold_left map filter].
  - now rewrite app_nil_r.
  - rewrite IH. destruct (PyStr.truthy (PyStr.strip u)); [|reflexivity].
    now rewrite <- app_assoc.
Qed.

Lemma process_urls_pass : forall urls,
  process_urls urls = map with_scheme (filter PyStr.truthy (map PyStr.strip urls)).
Proof. intros urls. unfold process_urls. now rewrite process_urls_from. Qed.

Lemma processed_url_fixed : forall u,
  PyStr.truthy (PyStr.strip u) = true ->
  let p := with_scheme (PyStr.strip u) in
  PyStr.strip p = p /\ PyStr.truthy p = true /\ with_scheme p = p.
Proof.
  intros u T. cbv zeta. apply truthy_iff in T.
  destruct (with_scheme_strip (PyStr.strip u) T (strip_idem u)) as [N E].
  split; [exact E|]. split; [now apply truthy_iff|apply with_scheme_idem].
Qed.

(** X8. The URLs [url_test] hands to the scan are the submitted ones in
    their order, duplicates included, stripped of surrounding white space,
    without the blank ones, each with [https://] put before it unless it
    starts with [http://] or [https://]. So every one of them starts with
    a scheme and has no surrounding white space, and processing the list
    again changes nothing. *)
Theorem processed_urls_have_a_scheme : forall urls,
  process_urls urls = map with_scheme (filter PyStr.truthy (map PyStr.strip urls))
  /\ Forall (fun u => PyStr.startswith "http://" u || PyStr.startswith "https://" u = true
                      /\ PyStr.strip u = u /\ u <> "")
            (process_urls urls)
  /\ process_urls (process_urls urls) = process_urls urls.
Proof.
  intros urls. split; [apply process_urls_pass|].
  assert (F : Forall (fun p => PyStr.strip p = p /\ PyStr.truthy p = true /\ with_scheme p = p)
                     (process_urls urls)).
  { rewrite process_urls_pass. apply Forall_forall. intros p Hp.
    apply in_map_iff in Hp. destruct Hp as (x & <- & Hx).
    apply filter_In in Hx. destruct Hx as [Hx T].
    apply in_map_iff in Hx. destruct Hx as (u & <- & _).
    now apply processed_url_fixed. }
  split.
  - eapply Forall_impl; [|exact F]. intros p (E & T & W).
    split; [rewrite <- W; apply with_scheme_has_scheme|].
    split; [exact E|now apply truthy_iff].
  - rewrite (process_urls_pass (process_urls urls)).
    induction F as [|p l (E & T & W) F IH]; [reflexivity|].
    cbn [map filter]. rewrite E, T. cbn [map]. now rewrite W, IH.
Qed.

Lemma process_urls_nil : forall urls,
  process_urls urls = [] <-> Forall (fun u => PyStr.strip u = "") urls.
Proof.
  intros urls. rewrite process_urls_pass. induction urls as [|u urls IH]; cbn [map filter].
  - split; constructor.
  - destruct (PyStr.truthy (PyStr.strip u)) eqn:T.
    + split; [discriminate|]. intros H. inversion H; subst.
      apply truthy_iff in T. contradiction.
    + rewrite IH. split; intros H.
      * constructor; [|exact H]. destruct (PyStr.strip u); [reflexivity|discriminate].
      * now inversion H.
Qed.

Lemma any_truthy : forall urls,
  existsb PyStr.truthy urls = false <-> Forall (fun u => u = "") urls.
Proof.
  induction urls as [|u urls IH]; cbn [existsb]; [split; constructor|].
  rewrite orb_false_iff, IH. split.
  - intros [T H]. constructor; [|exact H]. now destruct u.
  - intros H. inversion H; subst. now split.
Qed.

Lemma some_truthy : forall urls,
  existsb PyStr.truthy urls = true <-> Exists (fun u => u <> "") urls.
Proof.
  intros urls. rewrite existsb_exists, Exists_exists.
  split; intros (u & Hu & T); exists u; (split; [exact Hu|]); now apply truthy_iff.
Qed.

Lemma url_test_urls_cases : forall urls,
  url_test_urls urls
  = if existsb PyStr.truthy urls
    then match process_urls urls with
         | [] => Flashed "Please enter at least one valid URL"
         | processed_urls => Accepted processed_urls
         end
    else Flashed "Please enter at least one URL".
Proof.
  intros urls. unfold url_test_urls.
  destruct urls as [|u l]; [reflexivity|]. cbn [orb].
  now destruct (existsb PyStr.truthy (u :: l)).
Qed.

(** X9. What [url_test] answers to a POST: "Please enter at least one URL"
    exactly when no field holds a character; "Please enter at least one
    valid URL" exactly when some field holds characters and all fields are
    blank; otherwise the scan is asked for the processed URLs, of which
    there is at least one. *)
Theorem url_test_refuses_blank_forms : forall urls,
  (url_test_urls urls = Flashed "Please enter at least one URL"
   <-> Forall (fun u => u = "") urls)
  /\ (url_test_urls urls = Flashed "Please enter at least one valid URL"
      <-> Exists (fun u => u <> "") urls /\ Forall (fun u => PyStr.strip u = "") urls)
  /\ (forall processed_urls,
        url_test_urls urls = Accepted processed_urls
        <-> processed_urls = process_urls urls /\ processed_urls <> []
            /\ Exists (fun u => u <> "") urls).
Proof.
  intros urls. rewrite url_test_urls_cases.
  destruct (existsb PyStr.truthy urls) eqn:A.
  - assert (E : Exists (fun u => u <> "") urls) by now apply some_truthy.
    assert (N : ~ Forall (fun u => u = "") urls).
    { intros H. apply any_truthy in H. congruence. }
    destruct (process_urls urls) as [|p ps] eqn:P.
    + assert (B : Forall (fun u => PyStr.strip u = "") urls) by now apply process_urls_nil.
      split; [split; [discriminate|intros H; contradiction]|].
      split; [split; [now split|reflexivity]|].
      intros q. split; [discriminate|]. intros (-> & Hq & _). contradiction.
    + assert (B : ~ Forall (fun u => PyStr.strip u = "") urls).
      { intros H. apply process_urls_nil in H. congruence. }
      split; [split; [discriminate|intros H; contradiction]|].
      split; [split; [discriminate|intros [_ H]; contradiction]|].
      intros q. split.
      * intros H. inversion H; subst. split; [reflexivity|]. split; [discriminate|exact E].
      * intros (-> & _). reflexivity.
  - assert (F : Forall (fun u => u = "") urls) by now apply any_truthy.
    assert (N : ~ Exists (fun u => u <> "") urls).
    { intros H. apply some_truthy in H. congruence. }
    split; [split; [intros _; exact F|reflexivity]|].
    split; [split; [discriminate|intros [H _]; contradiction]|].
    intros q. split; [discriminate|]. intros (_ & _ & H). contradiction.
Qed.

(** ** The PDF report *)

Section ReportFacts.

Variable lib : Lib.
Variable app_dir : string.

Lemma paragraph_inv : forall text style p,
  paragraph lib text style = Val p ->
  lib_markup lib text = None /\ p = Paragraph text style.
Proof.
  intros text style p H. unfold paragraph in H.
  destruct (lib_markup lib text); [discriminate|]. inversion H. now split.
Qed.

Lemma thumb_inv : forall t shot th,
  thumb lib app_dir t shot = Val th -> th = thumb_of lib app_dir t shot.
Proof.
  intros t shot th H. unfold thumb, thumb_of, image in *.
  destruct (paragraph lib "N/A" "CellStyle") as [na|e] eqn:P; cbn [res_bind] in H;
    [|discriminate].
  apply paragraph_inv in P. destruct P as [_ ->]. cbv zeta.
  destruct (opt_truthy shot); cbn [andb]; [|now inversion H].
  destruct (lib_exists lib t _); cbn [andb]; [|now inversion H].
  destruct (lib_image lib t _); now inversion H.
Qed.

Lemma issue_row_inv : forall t issue row,
  issue_row lib app_dir t issue = Val row ->
  row = row_of lib app_dir t issue /\ texts_accepted lib issue.
Proof.
  intros t issue row H. unfold issue_row in H.
  destruct (thumb lib app_dir t (evidence_ref issue)) as [th|e] eqn:T; cbn [res_bind] in H;
    [|discriminate].
  apply thumb_inv in T.
  destruct (paragraph lib (rule_name issue) "CellStyle") as [c1|e] eqn:P1;
    cbn [res_bind] in H; [|discriminate].
  destruct (paragraph lib (page_url issue) "CellStyle") as [c2|e] eqn:P2;
    cbn [res_bind] in H; [|discriminate].
  destruct (paragraph lib (description issue) "CellStyle") as [c3|e] eqn:P3;
    cbn [res_bind] in H; [|discriminate].
  destruct (paragraph lib (severity issue) "CellStyle") as [c4|e] eqn:P4;
    cbn [res_bind] in H; [|discriminate].
  apply paragraph_inv in P1, P2, P3, P4.
  destruct P1 as [A1 ->], P2 as [A2 ->], P3 as [A3 ->], P4 as [A4 ->].
  inversion H. subst th. split; [reflexivity|]. now repeat split.
Qed.

Lemma issue_rows_inv : forall issues t data data',
  issue_rows lib app_dir t issues data = Val data' ->
  data' = data ++ rows_from lib app_dir t issues /\ Forall (texts_accepted lib) issues.
Proof.
  intros l. induction l as [|issue rest IH]; intros t data data' H;
    cbn [issue_rows rows_from] in *.
  - inversion H. rewrite app_nil_r. split; [reflexivity|constructor].
  - destruct (issue_row lib app_dir t issue) as [row|e] eqn:R; cbn [res_bind] in H;
      [|discriminate].
    apply issue_row_inv in R. destruct R as [-> A].
    apply IH in H. destruct H as [-> F]. rewrite <- app_assoc.
    split; [reflexivity|now constructor].
Qed.

Lemma rows_from_length : forall issues t,
  List.length (rows_from lib app_dir t issues) = List.length issues.
Proof. intros l. induction l as [|i r IH]; intros t; cbn; [reflexivity|now rewrite IH]. Qed.

Lemma screenshot_elements_extends : forall shots t elements elements',
  screenshot_elements lib app_dir t shots elements = Val elements' ->
  exists more, elements' = elements ++ more.
Proof.
  induction shots as [|[link shot] rest IH]; intros t elements elements' H;
    cbn [screenshot_elements] in H.
  - inversion H. exists []. now rewrite app_nil_r.
  - destruct (paragraph lib ("Page: " +++ link) "Normal") as [p|e]; cbn [res_bind] in H;
      [|discriminate].
    destruct (lib_exists lib t _).
    + destruct (image lib t _ 300 200) as [im|e]; cbn [res_bind] in H; [|discriminate].
      apply IH in H. destruct H as [more ->]. eexists. rewrite <- !app_assoc. reflexivity.
    + cbn [res_bind] in H. apply IH in H. destruct H as [more ->].
      eexists. rewrite <- !app_assoc. reflexivity.
Qed.

Lemma report_elements_inv : forall issues shots elements,
  report_elements lib app_dir issues shots = Val elements ->
  Forall (texts_accepted lib) issues
  /\ match issues with
     | [] => exists before, elements = before ++ [Paragraph "No major issues found!" "Normal"]
     | _ =>
         exists before widths,
           elements
           = before ++ [Paragraph "Detected Issues:" "Heading2";
                        Table (table_header :: rows_from lib app_dir (List.length shots) issues)
                              widths table_style]
     end.
Proof.
  intros l shots elements H. unfold report_elements in H.
  destruct (paragraph lib "Usability Testing Report" "Title") as [title|e];
    cbn [res_bind] in H; [|discriminate].
  destruct (paragraph lib "Screenshots of Tested Pages:" "Heading2") as [heading|e];
    cbn [res_bind] in H; [|discriminate].
  destruct (screenshot_elements lib app_dir 0 shots _) as [els|e]; cbn [res_bind] in H;
    [|discriminate].
  destruct l as [|issue rest].
  - destruct (paragraph lib "No major issues found!" "Normal") as [p|e] eqn:P;
      cbn [res_bind] in H; [|discriminate].
    apply paragraph_inv in P. destruct P as [_ ->]. inversion H.
    split; [constructor|now eexists].
  - destruct (paragraph lib "Detected Issues:" "Heading2") as [p|e] eqn:P;
      cbn [res_bind] in H; [|discriminate].
    apply paragraph_inv in P. destruct P as [_ ->].
    destruct (issue_rows lib app_dir (List.length shots) (issue :: rest) [table_header])
      as [data|e] eqn:D; cbn [res_bind] in H; [|discriminate].
    apply issue_rows_inv in D. destruct D as [-> F]. inversion H.
    split; [exact F|]. eexists. eexists. rewrite <- app_assoc. reflexivity.
Qed.

(** X16. The issue table of the report, whenever the elements of the
    report are made: after the heading "Detected Issues:" comes one table,
    the last element, with the header row and one row per issue in the
    order of the issues, holding the issue's four texts and its screenshot
    cell; the cell shows the image only when the issue names a screenshot
    whose file is there and whose image can be made, and "N/A" otherwise, so
    always "N/A" for an issue without evidence. Without issues the last
    element is the paragraph "No major issues found!". *)
Theorem report_table_has_a_row_per_issue : forall issues shots elements,
  report_elements lib app_dir issues shots = Val elements ->
  let rows := rows_from lib app_dir (List.length shots) issues in
  (issues = [] ->
   exists before, elements = before ++ [Paragraph "No major issues found!" "Normal"])
  /\ (issues <> [] ->
      exists before widths,
        elements = before ++ [Paragraph "Detected Issues:" "Heading2";
                              Table (table_header :: rows) widths table_style])
  /\ List.length rows = List.length issues
  /\ (forall t issue,
        evidence_ref issue = None \/ evidence_ref issue = Some "" ->
        thumb_of lib app_dir t (evidence_ref issue) = Paragraph "N/A" "CellStyle")
  /\ (forall t issue shot,
        evidence_ref issue = Some shot ->
        lib_exists lib t (static_screenshot app_dir shot) = false ->
        thumb_of lib app_dir t (evidence_ref issue) = Paragraph "N/A" "CellStyle").
Proof.
  intros l shots elements H rows.
  destruct (report_elements_inv l shots elements H) as [_ S].
  split; [|split; [|split; [|split]]].
  - intros ->. exact S.
  - intros N. destruct l; [contradiction|exact S].
  - apply rows_from_length.
  - intros t issue [E|E]; unfold thumb_of; now rewrite E.
  - intros t issue shot E X. unfold thumb_of. rewrite E. cbn [opt_str]. rewrite X.
    now rewrite andb_false_r.
Qed.

Lemma paragraph_ok : forall text style,
  lib_markup lib text = None -> paragraph lib text style = Val (Paragraph text style).
Proof. intros text style H. unfold paragraph. now rewrite H. Qed.

Section Accepted.

Hypothesis accepts : forall text, lib_markup lib text = None.

Lemma thumb_ok : forall t shot,
  thumb lib app_dir t shot = Val (thumb_of lib app_dir t shot).
Proof.
  intros t shot. unfold thumb, thumb_of, image. rewrite paragraph_ok by apply accepts.
  cbn [res_bind]. cbv zeta.
  destruct (opt_truthy shot); cbn [andb]; [|reflexivity].
  destruct (lib_exists lib t _); cbn [andb]; [|reflexivity].
  now destruct (lib_image lib t _).
Qed.

Lemma issue_rows_ok : forall issues t data,
  issue_rows lib app_dir t issues data = Val (data ++ rows_from lib app_dir t issues).
Proof.
  intros l. induction l as [|issue rest IH]; intros t data; cbn [issue_rows rows_from].
  - now rewrite app_nil_r.
  - unfold issue_row. rewrite thumb_ok. cbn [res_bind].
    rewrite !paragraph_ok by apply accepts. cbn [res_bind].
    rewrite IH, <- app_assoc. reflexivity.
Qed.

Lemma screenshot_elements_ok : forall shots t elements,
  (forall t' path, (t <= t' < t + List.length shots)%nat -> lib_image lib t' path = None) ->
  exists elements', screenshot_elements lib app_dir t shots elements = Val elements'.
Proof.
  induction shots as [|[link shot] rest IH]; intros t elements Im; cbn [screenshot_elements].
  - now eexists.
  - rewrite paragraph_ok by apply accepts. cbn [res_bind].
    assert (Im' : forall t' path,
              (S t <= t' < S t + List.length rest)%nat -> lib_image lib t' path = None).
    { intros t' path Ht. apply Im. cbn [List.length]. lia. }
    destruct (lib_exists lib t _).
    + unfold image. rewrite Im by (cbn [List.length]; lia). cbn [res_bind]. now apply IH.
    + cbn [res_bind]. now apply IH.
Qed.

End Accepted.

(** X17. What [generate_pdf_report] answers. When every text it sets is
    accepted as markup and the images of the page screenshots can be made,
    it does not raise: it returns [output_path] when the document builds and
    [None] when building raises, whatever happens to the screenshot of an
    issue. A text of an issue that is refused as markup is not turned into
    [None]: the exception leaves the function. *)
Theorem generate_pdf_report_outcome : forall issues shots output_path,
  ((forall text, lib_markup lib text = None) ->
   (forall t path, (t < List.length shots)%nat -> lib_image lib t path = None) ->
   exists elements,
     report_elements lib app_dir issues shots = Val elements
     /\ (forall u, lib_build lib output_path elements = Val u ->
                   generate_pdf_report lib app_dir issues shots output_path
                   = Val (Some output_path))
     /\ (forall e, lib_build lib output_path elements = Raise e ->
                   generate_pdf_report lib app_dir issues shots output_path = Val None))
  /\ (forall issue,
        In issue issues -> ~ texts_accepted lib issue ->
        exists e, generate_pdf_report lib app_dir issues shots output_path = Raise e).
Proof.
  intros l shots output_path. split.
  - intros A Im.
    assert (E : exists elements, report_elements lib app_dir l shots = Val elements).
    { unfold report_elements. rewrite !paragraph_ok by apply A. cbn [res_bind].
      assert (Im0 : forall t' path,
                (0 <= t' < 0 + List.length shots)%nat -> lib_image lib t' path = None).
      { intros t' path Ht. apply Im. lia. }
      destruct (screenshot_elements_ok A shots 0
                  [Paragraph "Usability Testing Report" "Title"; Spacer 1 20;
                   Paragraph "Screenshots of Tested Pages:" "Heading2"] Im0) as [els Es].
      cbn [app] in Es |- *. rewrite Es. cbn [res_bind].
      destruct l as [|issue rest].
      - cbn [res_bind]. now eexists.
      - cbn [res_bind]. rewrite (issue_rows_ok A). now eexists. }
    destruct E as [elements E]. exists elements. split; [exact E|].
    unfold generate_pdf_report. rewrite E. cbn [res_bind].
    split; [intros u ->|intros e ->]; reflexivity.
  - intros issue Hin N. unfold generate_pdf_report.
    destruct (report_elements lib app_dir l shots) as [elements|e] eqn:E;
      [|now exists e].
    exfalso. apply N. destruct (report_elements_inv l shots elements E) as [F _].
    rewrite Forall_forall in F. now apply F.
Qed.

End ReportFacts.

(** * Instances on concrete pages *)

Import Examples.

(** The text "red" has no [rgb(...)] syntax, so it parses to black. *)
Lemma unparsable_colour_is_black_witness :
  unparsable (Some "red") /\ parse_rgb (Some "red") = black.
Proof.
  assert (H : unparsable (Some "red")).
  { intros str E. inversion E; subst.
    intros (a & d1 & w1 & w2 & d2 & w3 & w4 & d3 & rest & H & _).
    simpl in H. discriminate. }
  split; [exact H|].
  exact (proj1 (unparsable_colour_is_black pow_id format_tag (Some "red") H)).
Defined.

(** Black and white are RGB colours and their ratio does not depend on the
    order. *)
Lemma contrast_ratio_symmetric_witness :
  rgb_in_range black /\ rgb_in_range white
  /\ contrast_ratio pow_id black white = contrast_ratio pow_id white black.
Proof.
  assert (R0 : rgb_in_range black) by (cbv; intuition discriminate).
  assert (R1 : rgb_in_range white) by (cbv; intuition discriminate).
  split; [exact R0|]. split; [exact R1|].
  refine (proj1 (contrast_ratio_symmetric_black_white_21 pow_id _ _) black white R0 R1).
  - intros x H0 H1. exists x. split; [reflexivity|exact H0].
  - reflexivity.
Defined.

(** A host that does not resolve: the page gives one "Page load error". *)
Lemma page_exception_recorded_once_witness :
  w_get unreachable 0 "https://a.example/" = Raise "net::ERR_NAME_NOT_RESOLVED"
  /\ scan_page pow_id format_tag urljoin_abs unreachable "shots" "https://a.example/" init_state
     = (Val tt,
        with_issue (tick init_state)
          (mkFinding "Page load error" "https://a.example/" "net::ERR_NAME_NOT_RESOLVED"
             "High" None)).
Proof.
  assert (H : w_get unreachable 0 "https://a.example/" = Raise "net::ERR_NAME_NOT_RESOLVED")
    by reflexivity.
  split; [exact H|].
  destruct (page_exception_recorded_once pow_id format_tag urljoin_abs unreachable "shots"
              "https://a.example/" [] init_state) as (_ & G & _).
  exact (G _ H).
Defined.

(** C7, as stated, fails: the page screenshot is part of the page's
    extraction, and when writing it raises the exception is handled on the
    spot. The scan of a page in order then has no finding at all, and no
    page screenshot. *)
Lemma page_screenshot_exception_not_recorded :
  w_save disk_full 4 "shots/screenshot_id3_page.png" = Raise "screenshot failed"
  /\ run_scan pow_id format_tag urljoin_abs first_seen disk_full "shots" [page_a]
     = Val ([], []).
Proof. split; reflexivity. Qed.

(** A page titled "Hi" loads and gets exactly one title finding; a page
    titled "Welcome home" gets none. *)
Lemma title_quality_exactly_once_witness :
  load_page terse "shots" "https://a.example/" init_state
  = (Val (tidy_soup "Hi" [] [], []),
     mkState [] [("https://a.example/", "screenshot_id1_page.png")] [] []
             ["shots/screenshot_id1_page.png"] 5)
  /\ (exists added,
        issues (snd (scan_page pow_id format_tag urljoin_abs terse "shots"
                       "https://a.example/" init_state)) = added
        /\ count_rule "Page title not descriptive" added = 1%nat)
  /\ load_page calm "shots" "https://a.example/" init_state
     = (Val (tidy_soup "Welcome home" [] [], []),
        mkState [] [("https://a.example/", "screenshot_id1_page.png")] [] []
                ["shots/screenshot_id1_page.png"] 5)
  /\ (exists added,
        issues (snd (scan_page pow_id format_tag urljoin_abs calm "shots"
                       "https://a.example/" init_state)) = added
        /\ count_rule "Page title not descriptive" added = 0%nat).
Proof.
  assert (H : load_page terse "shots" "https://a.example/" init_state
              = (Val (tidy_soup "Hi" [] [], []),
                 mkState [] [("https://a.example/", "screenshot_id1_page.png")] [] []
                         ["shots/screenshot_id1_page.png"] 5)) by reflexivity.
  assert (K : load_page calm "shots" "https://a.example/" init_state
              = (Val (tidy_soup "Welcome home" [] [], []),
                 mkState [] [("https://a.example/", "screenshot_id1_page.png")] [] []
                         ["shots/screenshot_id1_page.png"] 5)) by reflexivity.
  assert (B : blanks "") by reflexivity.
  split; [exact H|]. split; [|split; [exact K|]].
  - destruct (title_quality_exactly_once pow_id format_tag urljoin_abs terse "shots"
                "https://a.example/" init_state _ _ _ H) as (added & E & _ & _ & C & _).
    exists added. split; [exact E|].
    exact (C "" "Hi" "" eq_refl B B (strip_trimmed "Hi")).
  - destruct (title_quality_exactly_once pow_id format_tag urljoin_abs calm "shots"
                "https://a.example/" init_state _ _ _ K) as (added & E & _ & _ & C & _).
    exists added. split; [exact E|].
    exact (C "" "Welcome home" "" eq_refl B B (strip_trimmed "Welcome home")).
Defined.

(** C2, as stated, fails: on a disk that refuses every screenshot the
    title finding still carries an evidence name, and no file was written. *)
Lemma evidence_present_without_file :
  issues (snd (scan pow_id format_tag urljoin_abs first_seen read_only_disk "shots"
                 ["https://a.example/"] init_state))
  = [mkFinding "Page title not descriptive" "https://a.example/"
       "Provide a unique, descriptive <title> of at least 5 characters." "High"
       (Some "screenshot_id8_title.png")]
  /\ files (snd (scan pow_id format_tag urljoin_abs first_seen read_only_disk "shots"
                   ["https://a.example/"] init_state)) = []
  /\ w_save read_only_disk 9 "shots/screenshot_id8_title.png" = Raise "screenshot failed".
Proof. repeat split; reflexivity. Qed.

(** A link that answers 404, located without trouble: the finding does not
    name the status, in the check and in the whole scan. *)
Lemma dead_link_status_not_reported_witness :
  urljoin_abs page_a "/old-page" = Val "/old-page"
  /\ w_http (all_gone "/old-page") 0 "/old-page" = Val (404%Z, "Not Found")
  /\ (400 <= 404)%Z
  /\ w_rect (all_gone "/old-page") 1 (JsAnchorByHref "/old-page") = Val None
  /\ link_liveness urljoin_abs (all_gone "/old-page") "shots" page_a "/old-page" init_state
     = (Val Break,
        mkState [mkFinding "Broken link detected" page_a "Failed to open: /old-page"
                   "High" (Some "screenshot_id3_links.png")]
                [] [] [] ["shots/screenshot_id3_links.png"] 6)
  /\ run_scan pow_id format_tag urljoin_abs first_seen (all_gone "/old-page") "shots" [page_a]
     = Val ([mkFinding "Broken link detected" page_a "Failed to open: /old-page"
               "High" (Some "screenshot_id11_links.png")],
            [(page_a, "screenshot_id3_page.png")]).
Proof.
  assert (H4 : (400 <= 404)%Z) by lia.
  split; [reflexivity|]. split; [reflexivity|]. split; [exact H4|].
  split; [reflexivity|]. split; [|reflexivity].
  destruct (dead_link_status_not_reported urljoin_abs (all_gone "/old-page") "shots" page_a
              "/old-page" init_state) as (G & _).
  exact (G "/old-page" 404%Z "Not Found" None eq_refl eq_refl H4 eq_refl).
Defined.

(** The locating script runs again inside the handler of the liveness
    check: when it raises there (an [href] with a double quote makes the
    selector invalid), a link that answers 404 and a link whose fetch times
    out give no "Broken link detected" finding; the exception reaches the
    page level. *)
Lemma dead_link_lost_when_locating_raises :
  run_scan pow_id format_tag urljoin_abs first_seen (all_gone quoted_href) "shots" [page_a]
  = Val ([mkFinding "Page load error" page_a "javascript error: not a valid selector"
            "High" None],
         [(page_a, "screenshot_id3_page.png")])
  /\ run_scan pow_id format_tag urljoin_abs first_seen (all_slow quoted_href) "shots" [page_a]
     = Val ([mkFinding "Page load error" page_a "javascript error: not a valid selector"
               "High" None],
            [(page_a, "screenshot_id3_page.png")])
  /\ w_http (all_gone quoted_href) 8 quoted_href = Val (404%Z, "Not Found")
  /\ w_http (all_slow quoted_href) 8 quoted_href = Raise "timed out".
Proof. repeat split; reflexivity. Qed.

(** Duplicate titles: an end-to-end scan of three pages. *)
Lemma three_pages_scan :
  run_scan pow_id format_tag urljoin_abs first_seen three_pages "shots"
    [page_a; page_b; page_c]
  = Val ([non_unique_title page_a; non_unique_title page_b;
          inconsistent_navigation page_c],
         [(page_a, "screenshot_id3_page.png"); (page_b, "screenshot_id11_page.png");
          (page_c, "screenshot_id19_page.png")]).
Proof. reflexivity. Qed.

(** C6, as stated, fails: two pages without a title share the title
    string [""] and neither is reported. *)
Lemma empty_titles_not_flagged :
  duplicate_title_findings [(page_a, ""); (page_b, "")] = []
  /\ count "" (dict_values [(page_a, ""); (page_b, "")]) = 2%nat.
Proof. split; reflexivity. Qed.

Lemma first_seen_members : forall l x, In x (first_seen l) <-> In x l.
Proof.
  induction l as [|y l IH]; intros x; simpl; [tauto|].
  rewrite filter_In, IH. split.
  - intros [H|[H _]]; auto.
  - intros [H|H]; [now left|].
    destruct (string_dec y x) as [E|E]; [now left|].
    right. split; [exact H|]. apply negb_true_iff, String.eqb_neq, E.
Qed.

(** Two pages with one navigation bar and a third with another. *)
Lemma inconsistent_navigation_by_majority_witness :
  (1 < List.length [(page_a, "Home|About"); (page_b, "Home|About"); (page_c, "Home|Blog")])%nat
  /\ inconsistent_nav_findings first_seen
       [(page_a, "Home|About"); (page_b, "Home|About"); (page_c, "Home|Blog")]
     = Val [inconsistent_navigation page_c].
Proof.
  assert (H : (1 < List.length [(page_a, "Home|About"); (page_b, "Home|About");
                                (page_c, "Home|Blog")])%nat) by (simpl; lia).
  split; [exact H|].
  destruct (inconsistent_navigation_by_majority first_seen first_seen_members _ H)
    as (maj & pre & post & M & _ & _ & _ & F & _).
  rewrite F. vm_compute in M. inversion M; subst. reflexivity.
Defined.

(** C3, as stated, fails: when most pages have no navigation bar the
    majority signature is empty, and the page whose non-empty signature
    differs from it is not reported. *)
Lemma empty_majority_flags_nothing :
  inconsistent_nav_findings first_seen mostly_bare = Val []
  /\ majority first_seen (dict_values mostly_bare) = Val ""
  /\ In (page_c, "Home|About") mostly_bare
  /\ String.eqb "Home|About" "" = false.
Proof. repeat split; try reflexivity. simpl. tauto. Qed.

(** The majority among tied signatures is the one the set yields first:
    first-seen order reports page B, the reverse order reports page A. *)
Lemma majority_follows_set_order :
  inconsistent_nav_findings first_seen [(page_a, "Home|About"); (page_b, "Home|Blog")]
  = Val [inconsistent_navigation page_b]
  /\ inconsistent_nav_findings last_seen [(page_a, "Home|About"); (page_b, "Home|Blog")]
     = Val [inconsistent_navigation page_a].
Proof. split; reflexivity. Qed.

(** The same page listed twice: one entry in each dict, and no cross-page
    finding. *)
Lemma repeated_url_is_one_page_witness :
  (forall u v, In u [page_a; page_a] -> In v [page_a; page_a] -> u = v)
  /\ Forall (fun f => rule_name f <> "Non-unique page title"
                      /\ rule_name f <> "Inconsistent navigation")
            (issues (snd (scan pow_id format_tag urljoin_abs first_seen three_pages "shots"
                            [page_a; page_a] init_state))).
Proof.
  assert (H : forall u v, In u [page_a; page_a] -> In v [page_a; page_a] -> u = v).
  { intros u v [<-|[<-|[]]] [<-|[<-|[]]]; reflexivity. }
  split; [exact H|].
  exact (repeated_url_is_one_page pow_id format_tag urljoin_abs first_seen three_pages
           "shots" [page_a; page_a] H).
Defined.

(** Three pages in a session that starts and ends: the scan returns. *)
Lemma run_scan_raises_only_at_start_or_quit_witness :
  (forall l x, In x (first_seen l) <-> In x l)
  /\ exists found shots,
       run_scan pow_id format_tag urljoin_abs first_seen three_pages "shots"
         [page_a; page_b; page_c] = Val (found, shots).
Proof.
  split; [exact first_seen_members|].
  destruct (run_scan_raises_only_at_start_or_quit pow_id format_tag urljoin_abs first_seen
              three_pages "shots" first_seen_members [page_a; page_b; page_c])
    as (_ & _ & H).
  eexists. eexists. exact (H tt tt eq_refl eq_refl).
Defined.

Lemma calm_answers : scripts_answer calm /\ elements_found calm.
Proof. repeat split; intros; eexists; reflexivity. Qed.

(** An [h2] and then an [h4]: no [h1], and a level skipped. *)
Lemma heading_findings_witness :
  scripts_answer calm
  /\ always (rule_headings calm "shots" page_a gappy_soup) tt
       ["Missing H1 heading"; "Heading level skips"].
Proof.
  split; [exact (proj1 calm_answers)|].
  exact (proj1 (heading_findings calm "shots" (proj1 calm_answers) page_a gappy_soup)).
Defined.


(** Two forms, the first with an unlabelled field: one finding. *)
Lemma form_findings_witness :
  scripts_answer calm /\ elements_found calm
  /\ always (rule_forms calm "shots" page_a forms_soup) tt ["Form field missing label"].
Proof.
  split; [exact (proj1 calm_answers)|]. split; [exact (proj2 calm_answers)|].
  exact (proj1 (form_findings calm "shots" (proj1 calm_answers) (proj2 calm_answers)
                  page_a forms_soup)).
Defined.

(** Three anchors: one in order, one without [href], one whose page is
    gone. The loop passes the first, reports the second and never fetches
    the third. *)
Lemma empty_link_ends_the_loop_witness :
  soup_anchors hollow_soup
  = [mkAnchor (Some "/docs") "Documentation"]
    ++ mkAnchor None "Menu" :: [mkAnchor (Some "/old-page") "Old documentation"]
  /\ a_href (mkAnchor None "Menu") = None
  /\ w_http old_page_gone 0 "/old-page" = Val (404%Z, "Not Found")
  /\ rule_links urljoin_abs old_page_gone "shots" page_a hollow_soup init_state
     = (Val tt,
        mkState [mkFinding "Empty or broken link" page_a
                   "Provide valid href and meaningful link text." "Medium"
                   (Some "screenshot_id3_links.png")]
                [] [] [] ["shots/screenshot_id3_links.png"] 6).
Proof.
  split; [reflexivity|]. split; [reflexivity|]. split; [reflexivity|].
  assert (P : Forall (passes_quietly urljoin_abs old_page_gone page_a)
                     [mkAnchor (Some "/docs") "Documentation"]).
  { constructor; [|constructor]. split; [|split].
    - intros [H|[H|[H|H]]]; discriminate.
    - reflexivity.
    - exists "/docs", "/docs". split; [reflexivity|]. split; [reflexivity|].
      intros t. exists 200%Z, "OK". split; [reflexivity|lia]. }
  destruct (empty_link_ends_the_loop urljoin_abs old_page_gone "shots" page_a hollow_soup
              [mkAnchor (Some "/docs") "Documentation"] (mkAnchor None "Menu")
              [mkAnchor (Some "/old-page") "Old documentation"] init_state
              eq_refl (or_introl eq_refl)) as (_ & Q & _).
  destruct (Q P) as [F _].
  exact (F None eq_refl).
Defined.

(** An image whose file answers 404: the finding does not name the status. *)
Lemma broken_image_reported_witness :
  soup_imgs gallery_soup = [mkImg (Some "The team in 2019") (Some "/img/team.jpg")]
  /\ w_http (all_gone "/old-page") 0 "/img/team.jpg" = Val (404%Z, "Not Found")
  /\ rule_images urljoin_abs (all_gone "/old-page") "shots" page_a gallery_soup init_state
     = (Val tt,
        mkState [mkFinding "Broken image source" page_a
                   "Failed to load image: /img/team.jpg" "Low"
                   (Some "screenshot_id3_images.png")]
                [] [] [] ["shots/screenshot_id3_images.png"] 6).
Proof.
  split; [reflexivity|]. split; [reflexivity|].
  assert (N : "/img/team.jpg" <> "") by discriminate.
  assert (L : (400 <= 404)%Z) by lia.
  destruct (broken_image_reported urljoin_abs (all_gone "/old-page") "shots" page_a
              gallery_soup _ _ init_state eq_refl) as (_ & G & _).
  destruct (G "/img/team.jpg" "/img/team.jpg" 404%Z "Not Found" eq_refl N eq_refl eq_refl)
    as [_ B].
  exact (B L None eq_refl).
Defined.

(** Black on black measures 1:1: one sample marked, one finding. *)
Lemma contrast_marks_at_most_three_witness :
  contrast_loop pow_id format_tag [ink_on_ink] [] None
  = Val ([item_rect ink_on_ink "Contrast {:.2f}:1"],
         Some "Contrast {:.2f}:1 below 4.5:1 for text 'Fine print'.")
  /\ rule_contrast pow_id format_tag calm "shots" page_a [ink_on_ink] init_state
     = (Val tt,
        mkState [mkFinding "Insufficient colour contrast" page_a
                   "Contrast {:.2f}:1 below 4.5:1 for text 'Fine print'." "High"
                   (Some "screenshot_id1_contrast.png")]
                [] [] [] ["shots/screenshot_id1_contrast.png"] 4).
Proof.
  assert (H : contrast_loop pow_id format_tag [ink_on_ink] [] None
              = Val ([item_rect ink_on_ink "Contrast {:.2f}:1"],
                     Some "Contrast {:.2f}:1 below 4.5:1 for text 'Fine print'."))
    by (vm_compute; reflexivity).
  split; [exact H|].
  destruct (contrast_marks_at_most_three pow_id format_tag calm "shots" page_a
              [ink_on_ink] _ _ init_state H) as (_ & _ & _ & F).
  destruct F as (pre & item & post & ratio & E & _ & R & _ & F); [discriminate|].
  rewrite F. destruct pre as [|p pre]; [|destruct pre; discriminate].
  inversion E; subst. vm_compute in R. inversion R; subst. reflexivity.
Defined.

(** A report of one finding whose screenshot is not on the disk: one row
    after the header, with "N/A" for the screenshot. *)
Lemma report_table_has_a_row_per_issue_witness :
  exists elements before widths,
    report_elements kind_lib "/srv/app" [lost_shot] [(page_a, "screenshot_id3_page.png")]
    = Val elements
    /\ elements
       = before
         ++ [Paragraph "Detected Issues:" "Heading2";
             Table [table_header;
                    [CellFlowable (Paragraph "Missing H1 heading" "CellStyle");
                     CellFlowable (Paragraph page_a "CellStyle");
                     CellFlowable (Paragraph "Include a single, clear <h1> per page." "CellStyle");
                     CellFlowable (Paragraph "Medium" "CellStyle");
                     CellFlowable (Paragraph "N/A" "CellStyle")]]
                   widths table_style].
Proof.
  destruct (report_elements kind_lib "/srv/app" [lost_shot] [(page_a, "screenshot_id3_page.png")])
    as [elements|e] eqn:E; [|vm_compute in E; discriminate].
  destruct (report_table_has_a_row_per_issue kind_lib "/srv/app" [lost_shot]
              [(page_a, "screenshot_id3_page.png")] elements E) as (_ & T & _).
  destruct T as (before & widths & T); [discriminate|].
  exists elements, before, widths. split; [reflexivity|exact T].
Defined.

(** The same page on a disk that takes the screenshots and on one that
    refuses them: the title finding is the same, evidence name included. *)
Lemma findings_do_not_depend_on_screenshots_witness :
  same_but_screenshots terse terse_read_only
  /\ issues (snd (scan pow_id format_tag urljoin_abs first_seen terse "shots"
                    [page_a] init_state))
     = issues (snd (scan pow_id format_tag urljoin_abs first_seen terse_read_only "tmp"
                      [page_a] init_state))
  /\ files (snd (scan pow_id format_tag urljoin_abs first_seen terse "shots"
                   [page_a] init_state))
     = ["shots/screenshot_id3_page.png"; "shots/screenshot_id8_title.png"]
  /\ files (snd (scan pow_id format_tag urljoin_abs first_seen terse_read_only "tmp"
                   [page_a] init_state)) = [].
Proof.
  assert (H : same_but_screenshots terse terse_read_only) by (repeat split).
  split; [exact H|].
  split; [|split; reflexivity].
  destruct (findings_do_not_depend_on_screenshots pow_id format_tag urljoin_abs first_seen
              terse terse_read_only "shots" "tmp" H [page_a]) as [I _].
  exact I.
Defined.
